(** * filechain: the block chain of [filechain.blockchain]

    A shallow embedding of [block.py] and [chain.py].  Python objects live
    in a heap and are named by their location, so that a [Block] mutated
    through one reference is seen changed through every other one.
    Python dictionaries whose iteration order is observed are association
    lists in insertion order; the others are finite maps. *)

From Stdlib Require Import ZArith List Lia.
From Stdlib Require Import Strings.Byte.
From stdpp Require Import base option list countable gmap fin_maps.

Local Open Scope Z_scope.

(** ** Byte strings *)

Abbreviation bytes := (list byte).

#[global] Instance byte_eq_decision : EqDecision byte := Byte.byte_eq_dec.

#[global] Instance byte_countable : Countable byte :=
  inj_countable Byte.to_N Byte.of_N Byte.of_to_N.

(** Python's [bytes(n)] for an integer [n >= 0]: [n] zero bytes. *)
Definition zeros (n : Z) : bytes := repeat x00 (Z.to_nat n).

(** ** SHA-256 (FIPS 180-4), the function behind [hashlib.sha256(m).digest()] *)

Module SHA256.

Definition mask32 : Z := 0xFFFFFFFF.
Definition w32 (x : Z) : Z := Z.land x mask32.
Definition add32 (x y : Z) : Z := w32 (x + y).
Definition rotr (n x : Z) : Z :=
  Z.lor (Z.shiftr x n) (w32 (Z.shiftl x (32 - n))).
Definition not32 (x : Z) : Z := Z.lxor x mask32.

Definition Ch (x y z : Z) : Z := Z.lxor (Z.land x y) (Z.land (not32 x) z).
Definition Maj (x y z : Z) : Z :=
  Z.lxor (Z.lxor (Z.land x y) (Z.land x z)) (Z.land y z).
Definition Sigma0 (x : Z) : Z :=
  Z.lxor (Z.lxor (rotr 2 x) (rotr 13 x)) (rotr 22 x).
Definition Sigma1 (x : Z) : Z :=
  Z.lxor (Z.lxor (rotr 6 x) (rotr 11 x)) (rotr 25 x).
Definition sigma0 (x : Z) : Z :=
  Z.lxor (Z.lxor (rotr 7 x) (rotr 18 x)) (Z.shiftr x 3).
Definition sigma1 (x : Z) : Z :=
  Z.lxor (Z.lxor (rotr 17 x) (rotr 19 x)) (Z.shiftr x 10).

(** The largest [r] below [2 ^ bits] with [r ^ k <= n]. *)
Fixpoint iroot (k : Z) (n : Z) (bits : nat) (r : Z) : Z :=
  match bits with
  | O => r
  | S bits' =>
      let r' := r + 2 ^ Z.of_nat bits' in
      iroot k n bits' (if r' ^ k <=? n then r' else r)
  end.

Definition is_prime (n : Z) : bool :=
  forallb (fun d => negb (n mod Z.of_nat d =? 0)) (seq 2 (Z.to_nat n - 2)).

(** The first sixty-four primes. *)
Definition primes : list Z :=
  Eval vm_compute in filter (fun n => is_prime n) (map Z.of_nat (seq 2 310)).

(** The first thirty-two bits of the fractional parts of the cube roots
    of the first sixty-four primes. *)
Definition K : list Z :=
  Eval vm_compute in map (fun p => w32 (iroot 3 (p * 2 ^ 96) 40 0)) primes.

(** The first thirty-two bits of the fractional parts of the square
    roots of the first eight primes. *)
Definition H0 : list Z :=
  Eval vm_compute in
    map (fun p => w32 (iroot 2 (p * 2 ^ 64) 40 0)) (take 8 primes).

Definition byte_to_Z (b : byte) : Z := Z.of_N (Byte.to_N b).
Definition Z_to_byte (z : Z) : byte :=
  match Byte.of_N (Z.to_N (Z.land z 0xFF)) with
  | Some b => b
  | None => x00
  end.

(** Big-endian encoding of [z] on [n] bytes. *)
Fixpoint be_bytes (n : nat) (z : Z) : bytes :=
  match n with
  | O => []
  | S n' => Z_to_byte (Z.shiftr z (8 * Z.of_nat n')) :: be_bytes n' z
  end.

Definition be_word (bs : list byte) : Z :=
  fold_left (fun acc b => Z.lor (Z.shiftl acc 8) (byte_to_Z b)) bs 0.

(** The message followed by 0x80, zero bytes up to 56 modulo 64, and
    the bit length on eight bytes. *)
Definition pad (m : bytes) : bytes :=
  let len := Z.of_nat (length m) in
  let k := (55 - len) mod 64 in
  m ++ x80 :: zeros k ++ be_bytes 8 (8 * len).

Fixpoint words (n : nat) (bs : bytes) : list Z :=
  match n with
  | O => []
  | S n' => be_word (take 4 bs) :: words n' (drop 4 bs)
  end.

Fixpoint blocks (n : nat) (bs : bytes) : list (list Z) :=
  match n with
  | O => []
  | S n' => words 16 (take 64 bs) :: blocks n' (drop 64 bs)
  end.

(** The message schedule: [w] holds the sixteen most recent words,
    oldest first; [n] more words are produced. *)
Fixpoint schedule (n : nat) (w : list Z) : list Z :=
  match n with
  | O => []
  | S n' =>
      let wt := add32 (add32 (sigma1 (nth 14 w 0)) (nth 9 w 0))
                      (add32 (sigma0 (nth 1 w 0)) (nth 0 w 0)) in
      wt :: schedule n' (drop 1 w ++ [wt])
  end.

Definition round (s : list Z) (kw : Z * Z) : list Z :=
  match s with
  | [a; b; c; d; e; f; g; h] =>
      let t1 := add32 (add32 (add32 h (Sigma1 e)) (add32 (Ch e f g) (fst kw)))
                      (snd kw) in
      let t2 := add32 (Sigma0 a) (Maj a b c) in
      [add32 t1 t2; a; b; c; add32 d t1; e; f; g]
  | _ => s
  end.

Definition compress (h : list Z) (blk : list Z) : list Z :=
  let w := blk ++ schedule 48 blk in
  let s := fold_left round (combine K w) h in
  map (fun p => add32 (fst p) (snd p)) (combine h s).

Definition digest (m : bytes) : bytes :=
  let p := pad m in
  let h := fold_left compress (blocks (length p / 64) p) H0 in
  concat (map (be_bytes 4) h).

End SHA256.

(** ** Python values shared by both modules *)

(** The exceptions the two modules can raise. *)
Inductive exn : Type :=
| AssertionError
| AttributeError
| IndexError
| KeyError
| TypeError
| ValueError
| FileBlockSplitChangedException.

(** What evaluating a call yields: a value, an exception, a loop still
    running when the fuel is spent, or a location outside the heap
    (which no Python run produces). *)
Inductive outcome (A : Type) : Type :=
| Ret (a : A)
| Raise (e : exn)
| OutOfFuel
| Dangling.
Arguments Ret {A} a.
Arguments Raise {A} e.
Arguments OutOfFuel {A}.
Arguments Dangling {A}.

(** [list.insert(i, x)]: a negative [i] counts from the end, and an [i]
    out of range is clamped. *)
Definition py_list_insert {A} (i : Z) (x : A) (l : list A) : list A :=
  let len := Z.of_nat (length l) in
  let i1 := if i <? 0 then i + len else i in
  let i2 := if i1 <? 0 then 0 else if len <? i1 then len else i1 in
  take (Z.to_nat i2) l ++ x :: drop (Z.to_nat i2) l.

(** [list.remove(x)]: drops the first [x], or fails when there is none. *)
Fixpoint py_list_remove {A} `{EqDecision A} (x : A) (l : list A) : option (list A) :=
  match l with
  | [] => None
  | y :: l' => if decide (x = y) then Some l'
               else option_map (cons y) (py_list_remove x l')
  end.

(** ** block.py: the data *)

(** A location in the heap: the identity of a [Block] object. *)
Abbreviation loc := nat.

Record Block : Type := mkBlock {
  file_hash : bytes;
  index_all : Z;
  chunk : bytes;
  index : Z;
  content_hash : bytes;
  previous_block_hash : option bytes;   (* [None] until linked *)
  block_hash : option bytes             (* [None] until linked *)
}.

(** The bytes both hashes start with. *)
Definition payload (fh : bytes) (ia : Z) (ck : bytes) (ix : Z) : bytes :=
  fh ++ zeros ia ++ ck ++ zeros ix.

(** ** chain.py: the data *)

(** A key of a per-file dictionary: a content hash, or the string
    ["index_all"]. *)
Inductive dkey : Type :=
| KBytes (h : bytes)
| KIndexAll.

(** A value of a per-file dictionary: a list of block hashes, or the
    integer stored under ["index_all"]. *)
Inductive dval : Type :=
| VList (l : list (option bytes))
| VInt (n : Z).

#[global] Instance dkey_eq_decision : EqDecision dkey.
Proof. solve_decision. Defined.

(** A per-file dictionary, in insertion order. *)
Abbreviation odict := (list (dkey * dval)).

Fixpoint od_get (k : dkey) (d : odict) : option dval :=
  match d with
  | [] => None
  | (k', v) :: d' => if decide (k = k') then Some v else od_get k d'
  end.

(** [d[k] = v]: an existing key keeps its place. *)
Fixpoint od_set (k : dkey) (v : dval) (d : odict) : odict :=
  match d with
  | [] => [(k, v)]
  | (k', v') :: d' =>
      if decide (k = k') then (k, v) :: d' else (k', v') :: od_set k v d'
  end.

Definition od_mem (k : dkey) (d : odict) : bool :=
  match od_get k d with Some _ => true | None => false end.

Definition od_len (d : odict) : Z := Z.of_nat (length d).

(** [d[k]] on a [defaultdict(list)]: a missing key is first bound to a
    new empty list. *)
Definition dd_getitem (k : dkey) (d : odict) : dval * odict :=
  match od_get k d with
  | Some v => (v, d)
  | None => (VList [], od_set k (VList []) d)
  end.

Record Blockchain : Type := mkBlockchain {
  _chain : gmap (option bytes) loc;   (* block hash to block *)
  _files : gmap bytes odict;          (* file hash to per-file dictionary *)
  _latest_block : loc
}.

(** The heap of [Block] objects and the one [Blockchain] object. *)
Record World : Type := mkWorld {
  heap : list Block;
  self : Blockchain
}.

(** ** A state and exception monad over the world.  A raised exception
    keeps the mutations made before it. *)

Definition M (A : Type) : Type := World -> outcome A * World.

Definition ret {A} (a : A) : M A := fun w => (Ret a, w).
Definition raise {A} (e : exn) : M A := fun w => (Raise e, w).
Definition out_of_fuel {A} : M A := fun w => (OutOfFuel, w).

Definition bind {A B} (m : M A) (k : A -> M B) : M B :=
  fun w =>
    match m w with
    | (Ret a, w') => k a w'
    | (Raise e, w') => (Raise e, w')
    | (OutOfFuel, w') => (OutOfFuel, w')
    | (Dangling, w') => (Dangling, w')
    end.

Notation "'let!' x ':=' m 'in' k" := (bind m (fun x => k))
  (at level 10, x name, m at level 100, k at level 200, only parsing).

Definition get_block (l : loc) : M Block :=
  fun w => match heap w !! l with
           | Some b => (Ret b, w)
           | None => (Dangling, w)
           end.

Definition put_block (l : loc) (b : Block) : M unit :=
  fun w => (Ret tt, mkWorld (<[l := b]> (heap w)) (self w)).

Definition get_self : M Blockchain := fun w => (Ret (self w), w).

Definition put_chain (c : gmap (option bytes) loc) : M unit :=
  fun w => (Ret tt, mkWorld (heap w)
                      (mkBlockchain c (_files (self w)) (_latest_block (self w)))).

Definition put_files (f : gmap bytes odict) : M unit :=
  fun w => (Ret tt, mkWorld (heap w)
                      (mkBlockchain (_chain (self w)) f (_latest_block (self w)))).

Definition put_latest_block (l : loc) : M unit :=
  fun w => (Ret tt, mkWorld (heap w)
                      (mkBlockchain (_chain (self w)) (_files (self w)) l)).

Definition lift {A} (o : outcome A) : M A := fun w => (o, w).

(** The content hashes recorded in a per-file dictionary. *)
Definition content_hashes (d : odict) : list bytes :=
  omap (fun kv => match fst kv with KBytes h => Some h | KIndexAll => None end) d.

(** An association list that represents a dictionary: no key twice. *)
Definition odict_wf (d : odict) : Prop := NoDup (map fst d).

Lemma od_get_None k d : od_get k d = None <-> k ∉ map fst d.
Proof.
  induction d as [|[k' v] d IH]; simpl.
  - split; [intros _; apply not_elem_of_nil | done].
  - destruct (decide (k = k')) as [->|Hne].
    + split; [done | intros H; exfalso; apply H; left].
    + rewrite IH. rewrite not_elem_of_cons. tauto.
Qed.

Lemma od_mem_content_hashes h d :
  od_mem (KBytes h) d = false <-> h ∉ content_hashes d.
Proof.
  unfold od_mem. induction d as [|[k v] d IH]; simpl.
  - split; [intros _; apply not_elem_of_nil | done].
  - destruct (decide (KBytes h = k)) as [<-|Hne]; simpl.
    + split; [done | intros H; exfalso; apply H; left].
    + unfold content_hashes in *. simpl. destruct k as [h'|]; simpl.
      * rewrite IH, not_elem_of_cons. split; [|tauto].
        intros H; split; [congruence | done].
      * apply IH.
Qed.

Lemma content_hashes_length_no_index_all d :
  KIndexAll ∉ map fst d -> length (content_hashes d) = length d.
Proof.
  induction d as [|[k v] d IH]; simpl; [done|].
  rewrite not_elem_of_cons. intros [Hk Hd]. destruct k; [|done].
  unfold content_hashes in *. simpl. by rewrite IH.
Qed.

Lemma od_len_content_hashes d v :
  odict_wf d -> od_get KIndexAll d = Some v ->
  od_len d = Z.of_nat (length (content_hashes d)) + 1.
Proof.
  unfold odict_wf, od_len. induction d as [|[k v'] d IH]; simpl; [done|].
  rewrite NoDup_cons. intros [Hk Hd] Hget.
  destruct (decide (KIndexAll = k)) as [<-|Hne].
  - change (content_hashes ((KIndexAll, v') :: d)) with (content_hashes d).
    rewrite content_hashes_length_no_index_all by done. lia.
  - destruct k as [h|]; [|done].
    change (content_hashes ((KBytes h, v') :: d)) with (h :: content_hashes d).
    simpl. specialize (IH Hd Hget). lia.
Qed.

Lemma od_set_keys k v d :
  map fst (od_set k v d)
  = if od_mem k d then map fst d else map fst d ++ [k].
Proof.
  unfold od_mem. induction d as [|[k' v'] d IH]; simpl; [done|].
  destruct (decide (k = k')) as [->|Hne]; simpl; [done|].
  rewrite IH. by destruct (od_get k d).
Qed.

Lemma od_set_wf k v d : odict_wf d -> odict_wf (od_set k v d).
Proof.
  unfold odict_wf. intros H. rewrite od_set_keys.
  destruct (od_mem k d) eqn:E; [done|].
  apply NoDup_app. split; [done|]. split; [|apply NoDup_singleton].
  intros x Hx ->%list_elem_of_singleton.
  unfold od_mem in E. destruct (od_get k d) eqn:E'; [done|].
  by apply od_get_None in E'.
Qed.

Lemma od_get_od_set_eq k v d : od_get k (od_set k v d) = Some v.
Proof.
  induction d as [|[k' v'] d IH]; simpl.
  - by destruct (decide (k = k)).
  - destruct (decide (k = k')) as [->|Hne]; simpl.
    + by destruct (decide (k' = k')).
    + by destruct (decide (k = k')).
Qed.

Lemma od_get_od_set_ne k k' v d :
  k <> k' -> od_get k (od_set k' v d) = od_get k d.
Proof.
  intros Hne. induction d as [|[k'' v''] d IH]; simpl.
  - by destruct (decide (k = k')).
  - destruct (decide (k' = k'')) as [->|Hne']; simpl.
    + destruct (decide (k = k'')); [done|]. by destruct (decide (k = k'')).
    + destruct (decide (k = k'')); [done|]. apply IH.
Qed.

Lemma od_get_od_set k k' v d :
  od_get k (od_set k' v d) = if decide (k = k') then Some v else od_get k d.
Proof.
  destruct (decide (k = k')) as [->|Hne].
  - apply od_get_od_set_eq.
  - by apply od_get_od_set_ne.
Qed.

Lemma py_list_remove_elem_of {A} `{EqDecision A} (x : A) (l : list A) :
  x ∈ l -> exists l', py_list_remove x l = Some l'.
Proof.
  induction l as [|y l IH]; intros Hx.
  - by apply elem_of_nil in Hx.
  - simpl. destruct (decide (x = y)) as [->|Hne]; [by eexists|].
    apply elem_of_cons in Hx as [?|Hx]; [done|].
    destruct (IH Hx) as [l' ->]. by eexists.
Qed.

#[global] Arguments od_get : simpl never.
#[global] Arguments od_set : simpl never.
#[global] Arguments od_mem : simpl never.
#[global] Arguments od_len : simpl never.
#[global] Arguments content_hashes : simpl never.

Ltac unfold_monad :=
  unfold bind, ret, raise, out_of_fuel, lift, get_block, put_block, get_self,
    put_chain, put_files, put_latest_block in *.

(** ** block.py: the operations *)

Section Filechain.

(** [hashlib.sha256(m).digest()] *)
Variable sha256 : bytes -> bytes.

(** [__set_block_hash], run by the setter of [previous_block_hash] once
    the new value is stored. *)
Definition set_block_hash (b : Block) : outcome Block :=
  match previous_block_hash b with
  | None => Raise AssertionError
  | Some p =>
      Ret (mkBlock (file_hash b) (index_all b) (chunk b) (index b)
             (content_hash b) (previous_block_hash b)
             (Some (sha256 (payload (file_hash b) (index_all b) (chunk b)
                              (index b) ++ p))))
  end.

(** The setter [previous_block_hash = h] on the object [b]. *)
Definition set_previous_block_hash (h : option bytes) (b : Block) : outcome Block :=
  match h with
  | None => Raise AssertionError
  | Some _ =>
      set_block_hash
        (mkBlock (file_hash b) (index_all b) (chunk b) (index b)
           (content_hash b) h (block_hash b))
  end.

(** [Block(file_hash, index_all, chunk, index, previous_block_hash)].
    The content hash is stored last; the setter does not read it. *)
Definition Block_init (fh : bytes) (ia : Z) (ck : bytes) (ix : Z)
    (prev : option bytes) : outcome Block :=
  if negb (0 <? ia) then Raise AssertionError
  else if negb ((ix <? ia) && (0 <=? ix)) then Raise AssertionError
  else
    let ch := sha256 (payload fh ia ck ix) in
    match prev with
    | None => Ret (mkBlock fh ia ck ix ch None None)
    | Some _ => set_previous_block_hash prev (mkBlock fh ia ck ix ch None None)
    end.

(** ** chain.py: the operations *)

(** [Blockchain.INITIAL_BLOCK], a class attribute: one object, created
    when the module is loaded, at the first location of the heap. *)
Definition INITIAL_BLOCK : loc := 0%nat.

Definition initial_block : Block :=
  mkBlock [] 1 [] 0 (sha256 (payload [] 1 [] 0)) (Some [])
    (Some (sha256 (payload [] 1 [] 0 ++ []))).

(** The heap once [chain.py] is loaded. *)
Definition heap0 : list Block := [initial_block].

(** [self.__files[fh][k].append(x)] on the nested defaultdicts. *)
Definition files_append (fh : bytes) (k : dkey) (x : option bytes) : M unit :=
  let! s := get_self in
  let d := default [] (_files s !! fh) in
  let '(v, d') := dd_getitem k d in
  match v with
  | VList l =>
      put_files (<[fh := od_set k (VList (l ++ [x])) d']> (_files s))
  | VInt _ =>
      let! _ := put_files (<[fh := d']> (_files s)) in
      raise AttributeError
  end.

(** [self.__files[fh]["index_all"] = n] *)
Definition files_set_index_all (fh : bytes) (n : Z) : M unit :=
  let! s := get_self in
  let d := default [] (_files s !! fh) in
  put_files (<[fh := od_set KIndexAll (VInt n) d]> (_files s)).

(** [self.__files[fh][k].remove(x)] *)
Definition files_remove (fh : bytes) (k : dkey) (x : option bytes) : M unit :=
  let! s := get_self in
  let d := default [] (_files s !! fh) in
  let '(v, d') := dd_getitem k d in
  match v with
  | VList l =>
      match py_list_remove x l with
      | Some l' => put_files (<[fh := od_set k (VList l') d']> (_files s))
      | None =>
          let! _ := put_files (<[fh := d']> (_files s)) in
          raise ValueError
      end
  | VInt _ =>
      let! _ := put_files (<[fh := d']> (_files s)) in
      raise AttributeError
  end.

(** [Blockchain(chain)]: the constructor, run on the heap [h]. *)
Definition Blockchain_init_seed_step (block : loc) : M unit :=
  let! b := get_block block in
  let! s := get_self in
  let! _ := put_chain (<[block_hash b := block]> (_chain s)) in
  let! _ := files_append (file_hash b) (KBytes (content_hash b)) (block_hash b) in
  files_set_index_all (file_hash b) (index_all b).

Fixpoint for_each {A} (f : A -> M unit) (l : list A) : M unit :=
  match l with
  | [] => ret tt
  | x :: l' => let! _ := f x in for_each f l'
  end.

Definition Blockchain_init (chain : option (list loc)) (h : list Block)
    : outcome unit * World :=
  let w := mkWorld h (mkBlockchain ∅ ∅ INITIAL_BLOCK) in
  match chain with
  | None =>
      (let! b := get_block INITIAL_BLOCK in
       let! _ := put_chain {[ block_hash b := INITIAL_BLOCK ]} in
       let! _ := files_append (file_hash b) (KBytes (content_hash b))
                   (block_hash b) in
       put_latest_block INITIAL_BLOCK) w
  | Some [] => (Raise IndexError, w)
  | Some (first :: rest) =>
      (let! _ := put_latest_block first in
       for_each Blockchain_init_seed_step (first :: rest)) w
  end.

(** The property [latest_block]. *)
Definition latest_block : M loc :=
  let! s := get_self in ret (_latest_block s).

(** The property [len]. *)
Definition len : M Z :=
  let! s := get_self in ret (Z.of_nat (size (_chain s))).

(** The loop of the property [chain]; [blocks] is the list built so far. *)
Fixpoint chain_loop (fuel : nat) (block : loc) (blocks : list loc)
    : M (list loc) :=
  let! b := get_block block in
  if decide (previous_block_hash b = Some []) then ret blocks
  else
    match fuel with
    | O => out_of_fuel
    | S fuel' =>
        let! s := get_self in
        match _chain s !! previous_block_hash b with
        | None => raise KeyError
        | Some block' => chain_loop fuel' block' (blocks ++ [block'])
        end
    end.

(** The property [chain]. *)
Definition chain (fuel : nat) : M (list loc) :=
  let! s := get_self in
  chain_loop fuel (_latest_block s) [_latest_block s].

(** The first statement of [insert_block]: has the file been inserted
    already, and has its split changed? *)
Definition insert_block_check (nb : Block) : M unit :=
  let! s := get_self in
  match _files s !! file_hash nb with
  | Some ((_ :: _) as file_blocks) =>
      if negb (od_mem (KBytes (content_hash nb)) file_blocks) then
        let '(v, d') := dd_getitem KIndexAll file_blocks in
        let! _ := put_files (<[file_hash nb := d']> (_files s)) in
        match v with
        | VInt n =>
            if decide (n + 1 = od_len file_blocks)
            then raise FileBlockSplitChangedException
            else ret tt
        | VList _ => raise TypeError
        end
      else ret tt
  | _ => files_set_index_all (file_hash nb) (index_all nb)
  end.

(** The rest of [insert_block]: link the block to the latest one, and
    enter it in both dictionaries. *)
Definition insert_block_link (new_block : loc) : M unit :=
  let! nb := get_block new_block in
  let! s := get_self in
  let! tip := get_block (_latest_block s) in
  let! nb' := lift (set_previous_block_hash (block_hash tip) nb) in
  let! _ := put_block new_block nb' in
  let! _ := put_chain (<[block_hash nb' := new_block]> (_chain s)) in
  let! _ := files_append (file_hash nb') (KBytes (content_hash nb'))
              (block_hash nb') in
  put_latest_block new_block.

(** [insert_block(new_block)] *)
Definition insert_block (new_block : loc) : M unit :=
  let! nb := get_block new_block in
  let! _ := insert_block_check nb in
  insert_block_link new_block.

(** [get_block_by_hash(block_hash)] *)
Definition get_block_by_hash (h : option bytes) : M (option loc) :=
  let! s := get_self in ret (_chain s !! h).

(** [contains_file(file_hash)] *)
Definition contains_file (fh : bytes) : M bool :=
  let! s := get_self in
  match _files s !! fh with
  | None => ret false
  | Some file_blocks =>
      let '(v, d') := dd_getitem KIndexAll file_blocks in
      let! _ := put_files (<[fh := d']> (_files s)) in
      match v with
      | VInt n => ret (bool_decide (od_len file_blocks = n + 1))
      | VList _ => raise TypeError
      end
  end.

(** The loop of [get_file_blocks] over the values of the dictionary. *)
Fixpoint get_file_blocks_loop (vs : list dval) (blocks : list loc)
    : M (list loc) :=
  match vs with
  | [] => ret blocks
  | VInt _ :: vs' => get_file_blocks_loop vs' blocks
  | VList [] :: _ => raise IndexError
  | VList (h :: _) :: vs' =>
      let! s := get_self in
      match _chain s !! h with
      | None => raise KeyError
      | Some block =>
          let! b := get_block block in
          get_file_blocks_loop vs' (py_list_insert (index b) block blocks)
      end
  end.

(** [get_file_blocks(file_hash)] *)
Definition get_file_blocks (fh : bytes) : M (list loc) :=
  let! s := get_self in
  get_file_blocks_loop (map snd (default [] (_files s !! fh))) [].

(** One more block seen by [verify_integrity]: the update of
    [file_block_numbers]. *)
Definition count_block (b : Block) (n : gmap bytes Z) : gmap bytes Z :=
  if 0 <? index_all b - 1 then
    match n !! file_hash b with
    | Some c => if c - 1 =? 0 then delete (file_hash b) n
                else <[file_hash b := c - 1]> n
    | None => <[file_hash b := index_all b - 1]> n
    end
  else n.

(** The loop of [verify_integrity] and what follows it. *)
Fixpoint verify_integrity_loop (fuel : nat) (curr_block : loc)
    (file_block_numbers : gmap bytes Z) : M bool :=
  let! cb := get_block curr_block in
  if decide (previous_block_hash cb = Some []) then
    let! ib := get_block INITIAL_BLOCK in
    if decide (block_hash cb = block_hash ib)
    then ret (bool_decide (size file_block_numbers = 0%nat))
    else ret false
  else
    match fuel with
    | O => out_of_fuel
    | S fuel' =>
        let! s := get_self in
        match _chain s !! previous_block_hash cb with
        | None => ret false
        | Some next =>
            let! nb := get_block next in
            verify_integrity_loop fuel' next (count_block nb file_block_numbers)
        end
    end.

(** [verify_integrity()] *)
Definition verify_integrity (fuel : nat) : M bool :=
  let! s := get_self in
  let! cb := get_block (_latest_block s) in
  verify_integrity_loop fuel (_latest_block s)
    (if 0 <? index_all cb - 1
     then {[ file_hash cb := index_all cb - 1 ]} else ∅).

(** [verify_blocks_integrity(blocks)], for [i] from [len(blocks) - 1]
    down to 0; [rev_blocks] is [blocks[i], ..., blocks[0]].  [None] is
    Python's [None]. *)
Fixpoint verify_blocks_integrity_loop (rev_blocks : list loc)
    : M (option bool) :=
  match rev_blocks with
  | [] => ret None
  | [block] =>
      let! b := get_block block in
      let! s := get_self in
      match _chain s !! previous_block_hash b with
      | Some _ => ret (Some true)
      | None => ret None
      end
  | block :: (before :: _) as rest =>
      let! b := get_block block in
      let! p := get_block before in
      if decide (block_hash p = previous_block_hash b)
      then verify_blocks_integrity_loop rest
      else ret (Some false)
  end.

Definition verify_blocks_integrity (blocks : list loc) : M (option bool) :=
  verify_blocks_integrity_loop (rev blocks).

(** The body of the first loop of [merge_blocks], on one block. *)
Definition merge_blocks_step (block : loc)
    (acc : option loc * list loc) : M (option loc * list loc) :=
  let '(starting_conflicted_block, added_blocks) := acc in
  let! b := get_block block in
  let! s := get_self in
  match _chain s !! block_hash b with
  | Some _ => ret (starting_conflicted_block, added_blocks)
  | None =>
      let! _ := put_chain (<[block_hash b := block]> (_chain s)) in
      let! _ := files_append (file_hash b) (KBytes (content_hash b))
                  (block_hash b) in
      let! _ := files_set_index_all (file_hash b) (index_all b) in
      let! s' := get_self in
      match _chain s' !! previous_block_hash b with
      | Some p => ret (Some p, added_blocks ++ [block])
      | None => ret (starting_conflicted_block, added_blocks ++ [block])
      end
  end.

Fixpoint merge_blocks_scan (blocks : list loc)
    (acc : option loc * list loc) : M (option loc * list loc) :=
  match blocks with
  | [] => ret acc
  | block :: blocks' =>
      let! acc' := merge_blocks_step block acc in
      merge_blocks_scan blocks' acc'
  end.

(** The loop that collects and unlinks the conflicted blocks. *)
Fixpoint merge_blocks_unlink (fuel : nat) (cur_block starting : loc)
    (conflicted_blocks : list loc) : M (list loc) :=
  let! cb := get_block cur_block in
  let! sb := get_block starting in
  if decide (block_hash cb = block_hash sb) then ret conflicted_blocks
  else
    match fuel with
    | O => out_of_fuel
    | S fuel' =>
        let! s := get_self in
        match _chain s !! block_hash cb with
        | None => raise KeyError
        | Some _ =>
            let! _ := put_chain (delete (block_hash cb) (_chain s)) in
            let! _ := files_remove (file_hash cb) (KBytes (content_hash cb))
                        (block_hash cb) in
            let! s' := get_self in
            match _chain s' !! previous_block_hash cb with
            | None => raise KeyError
            | Some next =>
                merge_blocks_unlink fuel' next starting
                  (conflicted_blocks ++ [cur_block])
            end
        end
    end.

(** The last loop of [merge_blocks]. *)
Fixpoint merge_blocks_reinsert (conflicted_blocks added_blocks : list loc)
    : M (list loc) :=
  match conflicted_blocks with
  | [] => ret added_blocks
  | block :: rest =>
      let! _ := insert_block block in
      merge_blocks_reinsert rest (added_blocks ++ [block])
  end.

(** [merge_blocks(new_blocks)] *)
Definition merge_blocks (fuel : nat) (new_blocks : list loc) : M (list loc) :=
  let! acc := merge_blocks_scan (rev new_blocks) (None, []) in
  let '(starting_conflicted_block, added) := acc in
  let added_blocks := rev added in
  match starting_conflicted_block with
  | None => raise AttributeError
  | Some starting =>
      let! sb := get_block starting in
      let! s := get_self in
      let! tip := get_block (_latest_block s) in
      if decide (block_hash sb = block_hash tip) then
        match last added_blocks with
        | Some l => let! _ := put_latest_block l in ret added_blocks
        | None => ret added_blocks
        end
      else
        match last added_blocks with
        | None => raise IndexError
        | Some l =>
            let! _ := put_latest_block l in
            let! conflicted := merge_blocks_unlink fuel (_latest_block s)
                                 starting [] in
            merge_blocks_reinsert (rev conflicted) added_blocks
        end
  end.

(** A call [Block(...)] in a program: the new object gets the next free
    location. *)
Definition new_Block (fh : bytes) (ia : Z) (ck : bytes) (ix : Z)
    (prev : option bytes) : M loc :=
  let! b := lift (Block_init fh ia ck ix prev) in
  fun w => (Ret (length (heap w)), mkWorld (heap w ++ [b]) (self w)).

(** [self.insert_block(Block(fh, ia, ck, ix))] *)
Definition insert_new (fh : bytes) (ia : Z) (ck : bytes) (ix : Z) : M loc :=
  let! l := new_Block fh ia ck ix None in
  let! _ := insert_block l in
  ret l.

(** The world after [Blockchain()] on the heap of the loaded module. *)
Definition fresh : World := snd (Blockchain_init None heap0).

(** ** Properties *)

Lemma Blockchain_init_fresh : Blockchain_init None heap0 = (Ret tt, fresh).
Proof. reflexivity. Qed.

Lemma fresh_eq :
  fresh
  = mkWorld [initial_block]
      (mkBlockchain {[ block_hash initial_block := INITIAL_BLOCK ]}
         {[ [] := [(KBytes (content_hash initial_block),
                    VList [block_hash initial_block])] ]}
         INITIAL_BLOCK).
Proof.
  unfold fresh, Blockchain_init, files_append, dd_getitem. unfold_monad.
  simpl. rewrite lookup_empty. simpl. unfold od_get, od_set. simpl.
  rewrite decide_True by done. rewrite insert_empty. reflexivity.
Qed.

Lemma fresh_files :
  _files (self fresh) !! (@nil byte)
  = Some [(KBytes (content_hash initial_block),
           VList [block_hash initial_block])].
Proof. rewrite fresh_eq. simpl. apply lookup_singleton_eq. Qed.

(** *** The content hash *)

(** C10: two valid blocks of one file with the same index, of which one
    has [index_all = 2] and an empty chunk and the other [index_all = 1]
    and a chunk of one zero byte, have the same content hash: the hashed
    bytes are the same. *)
Theorem content_hash_collision (fh : bytes) :
  exists b1 b2 : Block,
    Block_init fh 2 [] 0 None = Ret b1 /\
    Block_init fh 1 [x00] 0 None = Ret b2 /\
    file_hash b1 = file_hash b2 /\
    index b1 = index b2 /\
    (index_all b1, chunk b1) <> (index_all b2, chunk b2) /\
    content_hash b1 = content_hash b2.
Proof.
  eexists _, _. split; [reflexivity|]. split; [reflexivity|].
  simpl. repeat split; try discriminate.
Qed.

(** *** [contains_file] on the file of the initial block *)

(** C9: on the world of [Blockchain()], [contains_file(b"")] raises
    [TypeError]: the per-file dictionary of the initial block has no
    ["index_all"] entry, the defaultdict binds one to an empty list, and
    a list is added to an integer. *)
Theorem contains_file_genesis_TypeError :
  fst (contains_file [] fresh) = Raise TypeError.
Proof.
  unfold contains_file, bind, get_self.
  rewrite fresh_files. reflexivity.
Qed.

(** *** [merge_blocks] with nothing to add *)

(** The block at [l] is in [blocks_by_hash] under its block hash. *)
Definition present (w : World) (l : loc) : Prop :=
  exists b, heap w !! l = Some b /\ is_Some (_chain (self w) !! block_hash b).

Lemma merge_blocks_step_present w l acc :
  present w l -> merge_blocks_step l acc w = (Ret acc, w).
Proof.
  intros (b & Hb & [x Hx]). destruct acc as [st added].
  unfold merge_blocks_step. unfold_monad. rewrite Hb. simpl. by rewrite Hx.
Qed.

Lemma merge_blocks_scan_present w ls acc :
  Forall (present w) ls -> merge_blocks_scan ls acc w = (Ret acc, w).
Proof.
  induction 1 as [|l ls Hl _ IH]; simpl; [reflexivity|].
  unfold bind. by rewrite merge_blocks_step_present.
Qed.

(** C3: when every block of [new_blocks] is already in
    [blocks_by_hash] (so also when [new_blocks] is empty),
    [merge_blocks] changes nothing and raises [AttributeError]:
    [starting_conflicted_block] is still [None] when its [block_hash]
    is read. *)
Theorem merge_blocks_all_present (w : World) (fuel : nat) (new_blocks : list loc) :
  Forall (present w) new_blocks ->
  merge_blocks fuel new_blocks w = (Raise AttributeError, w).
Proof.
  intros H. unfold merge_blocks, bind.
  rewrite merge_blocks_scan_present; [reflexivity|].
  by apply Forall_rev.
Qed.

(** *** The property [chain] *)

Lemma chain_loop_head fuel : forall block blocks w l w',
  chain_loop fuel block blocks w = (Ret l, w') ->
  head l = head blocks \/ blocks = [].
Proof.
  induction fuel as [|fuel IH]; intros block blocks w l w' H.
  - simpl in H. unfold_monad. repeat case_match; simplify_eq. by left.
  - simpl in H. unfold_monad. repeat case_match; simplify_eq; [by left|].
    apply IH in H. destruct H as [H|H].
    + destruct blocks; [by right|by left].
    + by destruct blocks.
Qed.

(** The list returned by [chain] starts with the latest block. *)
Lemma chain_head_latest fuel w l w' :
  chain fuel w = (Ret l, w') -> head l = Some (_latest_block (self w)).
Proof.
  unfold chain, bind, get_self. intros H.
  apply chain_loop_head in H. by destruct H.
Qed.

(** *** [insert_block] and [FileBlockSplitChangedException] *)

Lemma World_eta w :
  mkWorld (heap w)
    (mkBlockchain (_chain (self w)) (_files (self w)) (_latest_block (self w)))
  = w.
Proof. by destruct w as [h []]. Qed.


(** What [insert_block_check] leaves behind when it returns: only
    [files] can change, and only for a file without a record. *)
Lemma insert_block_check_Ret nb w w' :
  insert_block_check nb w = (Ret tt, w') ->
  heap w' = heap w /\
  _chain (self w') = _chain (self w) /\
  _latest_block (self w') = _latest_block (self w) /\
  _files (self w')
  = match _files (self w) !! file_hash nb with
    | Some (_ :: _) => _files (self w)
    | _ => <[file_hash nb := od_set KIndexAll (VInt (index_all nb))
                               (default [] (_files (self w) !! file_hash nb))]>
             (_files (self w))
    end.
Proof.
  unfold insert_block_check, files_set_index_all, dd_getitem. unfold_monad.
  destruct (_files (self w) !! file_hash nb) as [[|kv d']|] eqn:Hd; simpl.
  - intros [= <-]. by rewrite Hd.
  - destruct (od_mem (KBytes (content_hash nb)) (kv :: d')); simpl.
    + by intros [= <-].
    + destruct (od_get KIndexAll (kv :: d')) as [[l|n]|]; simpl; try done.
      destruct (decide (n + 1 = od_len (kv :: d'))); simpl; [done|].
      intros [= <-]. simpl. by rewrite insert_id.
  - intros [= <-]. by rewrite Hd.
Qed.

Lemma insert_block_check_raises nb w :
  odict_wf (default [] (_files (self w) !! file_hash nb)) ->
  (fst (insert_block_check nb w) = Raise FileBlockSplitChangedException
   <-> exists d n,
         _files (self w) !! file_hash nb = Some d /\
         (content_hash nb ∉ content_hashes d) /\
         od_get KIndexAll d = Some (VInt n) /\
         Z.of_nat (length (content_hashes d)) = n)
  /\ (fst (insert_block_check nb w) = Raise FileBlockSplitChangedException ->
      snd (insert_block_check nb w) = w).
Proof.
  intros Hwf.
  unfold insert_block_check, files_set_index_all, dd_getitem. unfold_monad.
  destruct (_files (self w) !! file_hash nb) as [d|] eqn:Hd; simpl in *.
  2:{ split; [split|]; [done| |done]. by intros (? & ? & ? & _). }
  destruct d as [|kv d'].
  { split; [split|]; [done| |done].
    intros (? & ? & ? & ? & ? & _); simplify_eq; done. }
  simpl. remember (kv :: d') as d eqn:Ed. clear Ed kv d'.
  destruct (od_mem (KBytes (content_hash nb)) d) eqn:Hmem; simpl.
  { split; [split|]; [done| |done].
    intros (d0 & n & ? & Hnot & _). simplify_eq.
    apply od_mem_content_hashes in Hnot. congruence. }
  destruct (od_get KIndexAll d) as [[l|n]|] eqn:Hia; simpl.
  - split; [split|]; [done| |done].
    intros (d0 & n & ? & _ & ? & _). simplify_eq.
  - destruct (decide (n + 1 = od_len d)) as [Hlen|Hlen]; simpl.
    + split; [split|].
      * intros _. exists d, n. repeat split; [|done|].
        -- by apply od_mem_content_hashes.
        -- rewrite (od_len_content_hashes d (VInt n)) in Hlen by done. lia.
      * done.
      * intros _. rewrite insert_id by done. apply World_eta.
    + split; [split|]; [done| |done].
      intros (d0 & n0 & [= <-] & _ & Hia0 & Hn).
      rewrite Hia in Hia0. injection Hia0 as <-.
      rewrite (od_len_content_hashes d (VInt n)) in Hlen by done. lia.
  - split; [split|]; [done| |done].
    intros (d0 & n & ? & _ & ? & _). simplify_eq.
Qed.

(** [insert_block_link] raises no [FileBlockSplitChangedException]. *)
Lemma insert_block_link_raises new_block w :
  fst (insert_block_link new_block w) <> Raise FileBlockSplitChangedException.
Proof.
  unfold insert_block_link, files_append, set_previous_block_hash,
    set_block_hash, dd_getitem.
  unfold_monad. simpl.
  repeat (case_match; simplify_eq; simpl in * ); done.
Qed.


(** *** What a successful [insert_block] does *)

(** The block [nb] once linked behind a block of hash [h]. *)
Definition linked (nb : Block) (h : bytes) : Block :=
  mkBlock (file_hash nb) (index_all nb) (chunk nb) (index nb) (content_hash nb)
    (Some h)
    (Some (sha256 (payload (file_hash nb) (index_all nb) (chunk nb) (index nb)
                     ++ h))).

Lemma files_append_Ret fh h x w w' :
  files_append fh (KBytes h) x w = (Ret tt, w') ->
  heap w' = heap w /\
  _chain (self w') = _chain (self w) /\
  _latest_block (self w') = _latest_block (self w) /\
  exists d,
    _files (self w') = <[fh := d]> (_files (self w)) /\
    od_get KIndexAll d = od_get KIndexAll (default [] (_files (self w) !! fh)).
Proof.
  unfold files_append, dd_getitem. unfold_monad.
  destruct (od_get (KBytes h) (default [] (_files (self w) !! fh)))
    as [[l|n]|] eqn:E; simpl; try done.
  - intros [= <-]. simpl. repeat split; try done.
    eexists; split; [done|]. by rewrite od_get_od_set_ne.
  - intros [= <-]. simpl. repeat split; try done.
    eexists; split; [done|]. by rewrite !od_get_od_set_ne.
Qed.

Lemma insert_block_link_Ret new_block w w' :
  insert_block_link new_block w = (Ret tt, w') ->
  exists nb tip h,
    heap w !! new_block = Some nb /\
    heap w !! _latest_block (self w) = Some tip /\
    block_hash tip = Some h /\
    heap w' = <[new_block := linked nb h]> (heap w) /\
    _chain (self w')
    = <[block_hash (linked nb h) := new_block]> (_chain (self w)) /\
    _latest_block (self w') = new_block /\
    exists d,
      _files (self w') = <[file_hash nb := d]> (_files (self w)) /\
      od_get KIndexAll d
      = od_get KIndexAll (default [] (_files (self w) !! file_hash nb)).
Proof.
  unfold insert_block_link, bind at 1 2 3 4 5 6, get_block, get_self, lift,
    put_block, put_chain, set_previous_block_hash, set_block_hash.
  destruct (heap w !! new_block) as [nb|] eqn:Hnb; [|done].
  destruct (heap w !! _latest_block (self w)) as [tip|] eqn:Htip; [|done].
  destruct (block_hash tip) as [h|] eqn:Hh; [|done]. simpl.
  unfold bind, put_latest_block.
  match goal with
  | |- context [files_append ?a ?b ?c ?d] =>
      destruct (files_append a b c d) as [[[]|e| |] w1] eqn:E; try done
  end.
  apply files_append_Ret in E. simpl in E.
  destruct E as (E1 & E2 & E3 & d & E4 & E5).
  intros [= <-]. simpl.
  exists nb, tip, h. repeat split; try done. by exists d.
Qed.

Lemma insert_block_Ret new_block w w' :
  insert_block new_block w = (Ret tt, w') ->
  exists nb tip h,
    heap w !! new_block = Some nb /\
    heap w !! _latest_block (self w) = Some tip /\
    block_hash tip = Some h /\
    heap w' = <[new_block := linked nb h]> (heap w) /\
    _chain (self w')
    = <[block_hash (linked nb h) := new_block]> (_chain (self w)) /\
    _latest_block (self w') = new_block /\
    (forall fh, fh <> file_hash nb ->
                _files (self w') !! fh = _files (self w) !! fh) /\
    od_get KIndexAll (default [] (_files (self w') !! file_hash nb))
    = match _files (self w) !! file_hash nb with
      | Some ((_ :: _) as d) => od_get KIndexAll d
      | _ => Some (VInt (index_all nb))
      end.
Proof.
  unfold insert_block, bind, get_block.
  destruct (heap w !! new_block) as [nb|] eqn:Hnb; [|done].
  destruct (insert_block_check nb w) as [[[]|e| |] w1] eqn:E; try done.
  apply insert_block_check_Ret in E. destruct E as (E1 & E2 & E3 & E4).
  intros H. apply insert_block_link_Ret in H.
  destruct H as (nb' & tip & h & H1 & H2 & H3 & H4 & H5 & H6 & d & H7 & H8).
  rewrite E1 in H1, H2, H4. rewrite E2 in H5. rewrite E3 in H2.
  rewrite Hnb in H1. injection H1 as <-.
  exists nb, tip, h. repeat split; try done.
  - intros fh Hfh. rewrite H7, lookup_insert_ne by done. rewrite E4.
    destruct (_files (self w) !! file_hash nb) as [[|]|]; try done;
      by rewrite lookup_insert_ne.
  - rewrite H7, lookup_insert_eq. simpl. rewrite H8, E4.
    destruct (_files (self w) !! file_hash nb) as [[|kv d']|] eqn:Hf.
    + rewrite lookup_insert_eq. simpl. apply od_get_od_set_eq.
    + by rewrite Hf.
    + rewrite lookup_insert_eq. simpl. apply od_get_od_set_eq.
Qed.

(** *** The recorded [index_all] *)

(** C7, as amended: a successful [insert_block(new)] enters the block
    in [blocks_by_hash] with its own [index_all]; the [index_all]
    recorded for its file is left as it was when the file had a record,
    and is the one of [new] otherwise.  No [index_all] is compared. *)
Theorem insert_block_keeps_index_all (w w' : World) (new_block : loc)
    (nb : Block) :
  heap w !! new_block = Some nb ->
  insert_block new_block w = (Ret tt, w') ->
  (exists nb', heap w' !! new_block = Some nb' /\
               _chain (self w') !! block_hash nb' = Some new_block /\
               file_hash nb' = file_hash nb /\
               index_all nb' = index_all nb) /\
  od_get KIndexAll (default [] (_files (self w') !! file_hash nb))
  = match _files (self w) !! file_hash nb with
    | Some ((_ :: _) as d) => od_get KIndexAll d
    | _ => Some (VInt (index_all nb))
    end.
Proof.
  intros Hnb H. apply insert_block_Ret in H.
  destruct H as (nb0 & tip & h & H1 & H2 & H3 & H4 & H5 & H6 & H7 & H8).
  rewrite Hnb in H1. injection H1 as <-. split; [|done].
  exists (linked nb h). rewrite H4, H5. repeat split.
  - apply list_lookup_insert_eq. by eapply lookup_lt_Some.
  - apply lookup_insert_eq.
Qed.

(** *** Inserting the latest block again *)

Lemma verify_integrity_loop_self w a b h :
  heap w !! a = Some b ->
  previous_block_hash b = Some h -> h <> [] ->
  _chain (self w) !! Some h = Some a ->
  forall fuel n, fst (verify_integrity_loop fuel a n w) = OutOfFuel.
Proof.
  intros Hb Hp Hh Hc. induction fuel as [|fuel IH]; intros n; simpl;
    unfold bind at 1, get_block; rewrite Hb, Hp;
    (destruct (decide (Some h = Some [])) as [[= ->]|_]; [done|]).
  - done.
  - unfold bind at 1, get_self. rewrite Hc.
    unfold bind at 1, get_block. rewrite Hb. apply IH.
Qed.

(** C8: when the latest block [a], in [blocks_by_hash] under its hash,
    is inserted a second time, it becomes its own predecessor: its old
    hash is now its [previous_block_hash] and still leads to it, and
    the loop of [verify_integrity] runs for ever. *)
Theorem insert_block_twice_diverges (w w' : World) (a : loc) (b : Block)
    (h : bytes) :
  _latest_block (self w) = a ->
  heap w !! a = Some b ->
  block_hash b = Some h ->
  h <> [] ->
  _chain (self w) !! Some h = Some a ->
  insert_block a w = (Ret tt, w') ->
  forall fuel, fst (verify_integrity fuel w') = OutOfFuel.
Proof.
  intros Hl Hb Hh Hne Hc H fuel. apply insert_block_Ret in H.
  destruct H as (nb & tip & h' & H1 & H2 & H3 & H4 & H5 & H6 & _).
  rewrite Hl, Hb in H2. injection H2 as <-.
  rewrite Hb in H1. injection H1 as <-.
  rewrite Hh in H3. injection H3 as <-.
  assert (Ha : heap w' !! a = Some (linked b h)).
  { rewrite H4. apply list_lookup_insert_eq. by eapply lookup_lt_Some. }
  unfold verify_integrity, bind, get_self, get_block. rewrite H6, Ha.
  apply (verify_integrity_loop_self w' a (linked b h) h); try done.
  rewrite H5.
  destruct (decide (block_hash (linked b h) = Some h)) as [->|Hd].
  - apply lookup_insert_eq.
  - by rewrite lookup_insert_ne.
Qed.

(** *** The per-file dictionaries along a run *)

(** The world [w] with [f] for [files]. *)
Definition set_files (f : gmap bytes odict) (w : World) : World :=
  mkWorld (heap w) (mkBlockchain (_chain (self w)) f (_latest_block (self w))).

(** Under a content hash there is a list. *)
Definition files_ok (f : gmap bytes odict) : Prop :=
  forall fh d h v,
    f !! fh = Some d -> od_get (KBytes h) d = Some v -> exists l, v = VList l.

(** The file [fh] has the content hash [ch]. *)
Definition has_key (f : gmap bytes odict) (fh ch : bytes) : Prop :=
  exists d l, f !! fh = Some d /\ od_get (KBytes ch) d = Some (VList l).

(** The block hash [x] is recorded for the content hash [ch] of [fh]. *)
Definition recorded (f : gmap bytes odict) (fh ch : bytes) (x : option bytes)
    : Prop :=
  exists d l, f !! fh = Some d /\ od_get (KBytes ch) d = Some (VList l) /\
              x ∈ l.

Lemma recorded_has_key f fh ch x : recorded f fh ch x -> has_key f fh ch.
Proof. intros (d & l & ? & ? & _). by exists d, l. Qed.

Lemma files_ok_default f fh h v :
  files_ok f -> od_get (KBytes h) (default [] (f !! fh)) = Some v ->
  exists l, v = VList l.
Proof.
  intros Hok. destruct (f !! fh) as [d|] eqn:E; simpl; [|done].
  by apply (Hok fh d h v).
Qed.

Lemma files_ok_insert f fh d :
  files_ok f ->
  (forall h v, od_get (KBytes h) d = Some v -> exists l, v = VList l) ->
  files_ok (<[fh := d]> f).
Proof.
  intros Hok Hd fh' d' h v.
  destruct (decide (fh = fh')) as [<-|Hne].
  - rewrite lookup_insert_eq. intros [= <-]. apply Hd.
  - rewrite lookup_insert_ne by done. apply Hok.
Qed.

(** The dictionary of [fh] replaced by [d'], which differs from it
    only under the content hash [h], where it has the list [lnew]. *)
Lemma files_update_list f fh h d' lnew :
  files_ok f ->
  (forall k, od_get k d'
             = if decide (k = KBytes h) then Some (VList lnew)
               else od_get k (default [] (f !! fh))) ->
  files_ok (<[fh := d']> f) /\
  has_key (<[fh := d']> f) fh h /\
  (forall a b, has_key f a b -> has_key (<[fh := d']> f) a b) /\
  (forall a b c,
     (forall l0, od_get (KBytes h) (default [] (f !! fh)) = Some (VList l0) ->
                 c ∈ l0 -> c ∈ lnew) ->
     recorded f a b c -> recorded (<[fh := d']> f) a b c).
Proof.
  intros Hok Hd'. split; [|split; [|split]].
  - apply files_ok_insert; [done|]. intros h' v. rewrite Hd'.
    destruct (decide (KBytes h' = KBytes h)); [intros [= <-]; by eexists|].
    by apply files_ok_default.
  - exists d', lnew. rewrite lookup_insert_eq. split; [done|].
    by rewrite Hd', decide_True.
  - intros a b (d0 & l0 & H1 & H2).
    destruct (decide (fh = a)) as [<-|Hne].
    + rewrite H1 in Hd'. simpl in Hd'.
      destruct (decide (b = h)) as [->|Hb].
      * exists d', lnew. rewrite lookup_insert_eq. split; [done|].
        by rewrite Hd', decide_True.
      * exists d', l0. rewrite lookup_insert_eq. split; [done|].
        rewrite Hd', decide_False by congruence. done.
    + exists d0, l0. by rewrite lookup_insert_ne.
  - intros a b c Hc (d0 & l0 & H1 & H2 & H3).
    destruct (decide (fh = a)) as [<-|Hne].
    + rewrite H1 in Hd', Hc. simpl in Hd', Hc.
      destruct (decide (b = h)) as [->|Hb].
      * exists d', lnew. rewrite lookup_insert_eq. split; [done|].
        rewrite Hd', decide_True by done. split; [done|]. by apply (Hc l0).
      * exists d', l0. rewrite lookup_insert_eq. split; [done|].
        rewrite Hd', decide_False by congruence. done.
    + exists d0, l0. by rewrite lookup_insert_ne.
Qed.

Lemma files_append_run fh h x w :
  files_ok (_files (self w)) ->
  exists f',
    files_append fh (KBytes h) x w = (Ret tt, set_files f' w) /\
    files_ok f' /\
    recorded f' fh h x /\
    (forall a b, has_key (_files (self w)) a b -> has_key f' a b) /\
    (forall a b c, recorded (_files (self w)) a b c -> recorded f' a b c).
Proof.
  intros Hok. unfold files_append, dd_getitem, bind, get_self, put_files.
  set (f := _files (self w)) in *.
  destruct (od_get (KBytes h) (default [] (f !! fh))) as [[l|n]|] eqn:E.
  - eexists. split; [reflexivity|].
    destruct (files_update_list f fh h
                (od_set (KBytes h) (VList (l ++ [x])) (default [] (f !! fh)))
                (l ++ [x]) Hok) as (H1 & H2 & H3 & H4).
    { intros k. apply od_get_od_set. }
    split; [done|]. split; [|split; [done|]].
    + destruct H2 as (d0 & l0 & H5 & H6). exists d0, (l ++ [x]).
      rewrite lookup_insert_eq in H5. injection H5 as <-.
      rewrite lookup_insert_eq, od_get_od_set_eq. repeat split.
      apply elem_of_app. right. by apply list_elem_of_singleton.
    + intros a b c. apply H4. intros l0 Hl0 Hc.
      rewrite E in Hl0. injection Hl0 as ->.
      apply elem_of_app. by left.
  - apply files_ok_default in E; [|done]. by destruct E.
  - eexists. split; [reflexivity|]. simpl.
    destruct (files_update_list f fh h
                (od_set (KBytes h) (VList [x])
                   (od_set (KBytes h) (VList []) (default [] (f !! fh))))
                [x] Hok) as (H1 & H2 & H3 & H4).
    { intros k. rewrite !od_get_od_set. by destruct (decide (k = KBytes h)). }
    split; [done|]. split; [|split; [done|]].
    + eexists _, [x]. rewrite lookup_insert_eq, od_get_od_set_eq.
      repeat split. by apply list_elem_of_singleton.
    + intros a b c. apply H4. intros l0 Hl0. by rewrite E in Hl0.
Qed.

Lemma files_ok_set_index_all f fh n :
  files_ok f ->
  files_ok (<[fh := od_set KIndexAll (VInt n) (default [] (f !! fh))]> f) /\
  (forall a b,
     has_key f a b ->
     has_key (<[fh := od_set KIndexAll (VInt n) (default [] (f !! fh))]> f)
       a b) /\
  (forall a b c,
     recorded f a b c ->
     recorded (<[fh := od_set KIndexAll (VInt n) (default [] (f !! fh))]> f)
       a b c).
Proof.
  intros Hok.
  assert (Hget : forall h, od_get (KBytes h)
                             (od_set KIndexAll (VInt n) (default [] (f !! fh)))
                           = od_get (KBytes h) (default [] (f !! fh)))
    by (intros h; by rewrite od_get_od_set_ne).
  split; [|split].
  - apply files_ok_insert; [done|]. intros h v. rewrite Hget.
    by apply files_ok_default.
  - intros a b (d0 & l0 & H1 & H2).
    destruct (decide (fh = a)) as [<-|Hne].
    + eexists _, l0. rewrite lookup_insert_eq. split; [done|].
      rewrite Hget, H1. done.
    + exists d0, l0. by rewrite lookup_insert_ne.
  - intros a b c (d0 & l0 & H1 & H2 & H3).
    destruct (decide (fh = a)) as [<-|Hne].
    + eexists _, l0. rewrite lookup_insert_eq. split; [done|].
      rewrite Hget, H1. done.
    + exists d0, l0. by rewrite lookup_insert_ne.
Qed.

Lemma files_set_index_all_run fh n w :
  files_ok (_files (self w)) ->
  exists f',
    files_set_index_all fh n w = (Ret tt, set_files f' w) /\
    files_ok f' /\
    (forall a b, has_key (_files (self w)) a b -> has_key f' a b) /\
    (forall a b c, recorded (_files (self w)) a b c -> recorded f' a b c).
Proof.
  intros Hok. unfold files_set_index_all, bind, get_self, put_files.
  eexists. split; [reflexivity|]. by apply files_ok_set_index_all.
Qed.

Lemma set_files_eq w w' :
  heap w' = heap w ->
  _chain (self w') = _chain (self w) ->
  _latest_block (self w') = _latest_block (self w) ->
  w' = set_files (_files (self w')) w.
Proof.
  destruct w as [h [c f l]], w' as [h' [c' f' l']]. simpl.
  by intros -> -> ->.
Qed.

Lemma insert_block_check_run nb w w' :
  insert_block_check nb w = (Ret tt, w') ->
  files_ok (_files (self w)) ->
  w' = set_files (_files (self w')) w /\
  files_ok (_files (self w')) /\
  (forall a b, has_key (_files (self w)) a b ->
               has_key (_files (self w')) a b) /\
  (forall a b c, recorded (_files (self w)) a b c ->
                 recorded (_files (self w')) a b c).
Proof.
  intros H Hok. apply insert_block_check_Ret in H.
  destruct H as (H1 & H2 & H3 & H4).
  split; [by apply set_files_eq|]. rewrite H4.
  destruct (_files (self w) !! file_hash nb) as [[|kv d]|] eqn:E;
    try done; rewrite <- E; by apply files_ok_set_index_all.
Qed.

(** [insert_block_link] goes through when the latest block has a hash. *)
Lemma insert_block_link_run new_block nb tip h w :
  heap w !! new_block = Some nb ->
  heap w !! _latest_block (self w) = Some tip ->
  block_hash tip = Some h ->
  files_ok (_files (self w)) ->
  exists f',
    insert_block_link new_block w
    = (Ret tt,
       mkWorld (<[new_block := linked nb h]> (heap w))
         (mkBlockchain (<[block_hash (linked nb h) := new_block]>
                          (_chain (self w))) f' new_block)) /\
    files_ok f' /\
    recorded f' (file_hash nb) (content_hash nb) (block_hash (linked nb h)) /\
    (forall a b, has_key (_files (self w)) a b -> has_key f' a b) /\
    (forall a b c, recorded (_files (self w)) a b c -> recorded f' a b c).
Proof.
  intros Hnb Htip Hh Hok.
  unfold insert_block_link, bind at 1 2 3 4 5 6, get_block, get_self, lift,
    put_block, put_chain, set_previous_block_hash, set_block_hash.
  rewrite Hnb, Htip, Hh.
  cbn [previous_block_hash file_hash index_all chunk index content_hash
       block_hash heap self _chain _files _latest_block].
  unfold bind, put_latest_block.
  match goal with
  | |- context [files_append ?a (KBytes ?b) ?c ?d] =>
      destruct (files_append_run a b c d) as (f' & E & H1 & H2 & H3 & H4);
        [done|]
  end.
  exists f'. rewrite E. split; [reflexivity|]. done.
Qed.
Lemma files_remove_run fh h x w :
  files_ok (_files (self w)) ->
  recorded (_files (self w)) fh h x ->
  exists f',
    files_remove fh (KBytes h) x w = (Ret tt, set_files f' w) /\
    files_ok f' /\
    (forall a b, has_key (_files (self w)) a b -> has_key f' a b).
Proof.
  intros Hok (d & l & H1 & H2 & H3).
  unfold files_remove, dd_getitem, bind, get_self, put_files.
  set (f := _files (self w)) in *. rewrite H1. simpl. rewrite H2.
  destruct (py_list_remove_elem_of x l H3) as [l' ->].
  eexists. split; [reflexivity|].
  destruct (files_update_list f fh h (od_set (KBytes h) (VList l') d) l' Hok)
    as (H4 & H5 & H6 & _).
  { intros k. rewrite H1. simpl. apply od_get_od_set. }
  done.
Qed.

Lemma insert_block_check_known nb w :
  has_key (_files (self w)) (file_hash nb) (content_hash nb) ->
  insert_block_check nb w = (Ret tt, w).
Proof.
  intros (d & l & H1 & H2).
  unfold insert_block_check, bind, get_self. rewrite H1.
  destruct d as [|kv d']; [done|].
  unfold od_mem. by rewrite H2.
Qed.

(** [insert_block] of a block whose content hash its file has. *)
Lemma insert_block_run_known new_block nb tip h w :
  heap w !! new_block = Some nb ->
  heap w !! _latest_block (self w) = Some tip ->
  block_hash tip = Some h ->
  files_ok (_files (self w)) ->
  has_key (_files (self w)) (file_hash nb) (content_hash nb) ->
  exists f',
    insert_block new_block w
    = (Ret tt,
       mkWorld (<[new_block := linked nb h]> (heap w))
         (mkBlockchain (<[block_hash (linked nb h) := new_block]>
                          (_chain (self w))) f' new_block)) /\
    files_ok f'.
Proof.
  intros Hnb Htip Hh Hok Hkey.
  destruct (insert_block_link_run new_block nb tip h w Hnb Htip Hh Hok)
    as (f' & E & H1 & _).
  exists f'. split; [|done].
  unfold insert_block, bind, get_block. rewrite Hnb.
  by rewrite insert_block_check_known.
Qed.

(** What a successful [insert_block] does to [files]. *)
Lemma insert_block_files new_block nb w w' :
  insert_block new_block w = (Ret tt, w') ->
  heap w !! new_block = Some nb ->
  files_ok (_files (self w)) ->
  files_ok (_files (self w')) /\
  (forall nb', heap w' !! new_block = Some nb' ->
     recorded (_files (self w')) (file_hash nb) (content_hash nb)
       (block_hash nb')) /\
  (forall a b, has_key (_files (self w)) a b ->
               has_key (_files (self w')) a b) /\
  (forall a b c, recorded (_files (self w)) a b c ->
                 recorded (_files (self w')) a b c).
Proof.
  intros H Hnb Hok. revert H. unfold insert_block, bind at 1 2, get_block.
  rewrite Hnb.
  destruct (insert_block_check nb w) as [[[]|e| |] w1] eqn:E; try done.
  apply insert_block_check_run in E; [|done].
  destruct E as (E1 & E2 & E3 & E4). intros H.
  pose proof (insert_block_link_Ret _ _ _ H)
    as (nb0 & tip & h & H1 & H2 & H3 & H4 & _).
  assert (Hheap : heap w1 = heap w) by (by rewrite E1).
  rewrite Hheap, Hnb in H1. injection H1 as <-.
  destruct (insert_block_link_run new_block nb tip h w1)
    as (f' & F & F1 & F2 & F3 & F4); try done.
  { by rewrite Hheap. }
  rewrite F in H. injection H as <-. simpl.
  split; [done|]. split; [|split].
  - intros nb'. rewrite list_lookup_insert_eq.
    + by intros [= <-].
    + rewrite Hheap. by eapply lookup_lt_Some.
  - intros a b Hab. by apply F3, E3.
  - intros a b c Hab. by apply F4, E4.
Qed.

(** *** Chains built by [insert_block] alone *)

(** The arguments of a call [Block(fh, ia, ck, ix)]. *)
Record block_args : Type := mkArgs {
  a_file_hash : bytes;
  a_index_all : Z;
  a_chunk : bytes;
  a_index : Z
}.

(** The arguments [Block] accepts. *)
Definition valid_args (p : block_args) : Prop :=
  0 < a_index_all p /\ 0 <= a_index p < a_index_all p.

(** [for b in blocks: self.insert_block(Block( *b ))] *)
Definition insert_all (ps : list block_args) : M unit :=
  for_each (fun p =>
              let! _ := insert_new (a_file_hash p) (a_index_all p)
                          (a_chunk p) (a_index p) in
              ret tt) ps.

(** The count [verify_integrity] keeps, as a function of the file hash
    and of [index_all] alone. *)
Definition count_file (fh : bytes) (ia : Z) (n : gmap bytes Z) : gmap bytes Z :=
  count_block (mkBlock fh ia [] 0 [] None None) n.

(** The files left pending by the count once it has met, latest first,
    the blocks built from [ps] (given oldest first). *)
Definition pending (ps : list block_args) : gmap bytes Z :=
  foldr (fun p n => count_file (a_file_hash p) (a_index_all p) n) ∅ ps.

Lemma count_block_count_file b n :
  count_block b n = count_file (file_hash b) (index_all b) n.
Proof. reflexivity. Qed.

(** A world whose heap is the chain itself: the initial block first,
    every other block linked to the one before it, the latest block
    last, and every block hash leading to a block of that hash. *)
Record linear (w : World) : Prop := mkLinear {
  lin_latest : S (_latest_block (self w)) = length (heap w);
  lin_genesis : heap w !! 0%nat = Some initial_block;
  lin_prev : forall i b,
    heap w !! S i = Some b ->
    exists p h, heap w !! i = Some p /\ block_hash p = Some h /\
                previous_block_hash b = Some h;
  lin_chain : forall i b,
    heap w !! i = Some b ->
    exists j b', _chain (self w) !! block_hash b = Some j /\
                 heap w !! j = Some b' /\ block_hash b' = block_hash b;
  lin_dom : forall k j,
    _chain (self w) !! k = Some j ->
    exists b, heap w !! j = Some b /\ block_hash b = k;
  lin_files : files_ok (_files (self w))
}.

Lemma fresh_heap : heap fresh = [initial_block].
Proof. by rewrite fresh_eq. Qed.

Lemma fresh_linear : linear fresh.
Proof.
  split.
  - by rewrite fresh_eq.
  - by rewrite fresh_eq.
  - intros i b. rewrite fresh_heap. by destruct i.
  - intros i b. rewrite fresh_heap. destruct i as [|i]; [|by destruct i].
    intros [= <-]. exists 0%nat, initial_block. split; [|done].
    rewrite fresh_eq. apply lookup_singleton_eq.
  - intros k j. rewrite fresh_eq. simpl.
    intros [<- <-]%lookup_singleton_Some. by exists initial_block.
  - rewrite fresh_eq. simpl. intros fh d h v.
    intros [<- <-]%lookup_singleton_Some. unfold od_get. simpl.
    case_decide; [|done]. intros [= <-]. by eexists.
Qed.

(** The object built by [Block( *p )]: not linked yet. *)
Definition unlinked (p : block_args) : Block :=
  mkBlock (a_file_hash p) (a_index_all p) (a_chunk p) (a_index p)
    (sha256 (payload (a_file_hash p) (a_index_all p) (a_chunk p) (a_index p)))
    None None.

Lemma Block_init_Ret p b :
  Block_init (a_file_hash p) (a_index_all p) (a_chunk p) (a_index p) None
  = Ret b ->
  b = unlinked p /\ valid_args p.
Proof.
  unfold Block_init, valid_args.
  destruct (0 <? a_index_all p) eqn:E1; [|done].
  destruct (a_index p <? a_index_all p) eqn:E2; [|done].
  destruct (0 <=? a_index p) eqn:E3; [|done].
  simpl. intros [= <-]. split; [done|]. lia.
Qed.

Lemma insert_new_Ret p l w w' :
  insert_new (a_file_hash p) (a_index_all p) (a_chunk p) (a_index p) w
  = (Ret l, w') ->
  linear w ->
  exists tip h,
    heap w !! _latest_block (self w) = Some tip /\
    block_hash tip = Some h /\
    l = length (heap w) /\
    heap w' = heap w ++ [linked (unlinked p) h] /\
    _chain (self w')
    = <[block_hash (linked (unlinked p) h) := l]> (_chain (self w)) /\
    recorded (_files (self w')) (a_file_hash p) (content_hash (unlinked p))
      (block_hash (linked (unlinked p) h)) /\
    (forall a b c, recorded (_files (self w)) a b c ->
                   recorded (_files (self w')) a b c) /\
    valid_args p /\
    linear w'.
Proof.
  intros H Hlin. destruct Hlin as [Hlat Hgen Hprev Hchain Hdom Hfiles].
  unfold insert_new, new_Block, bind at 1 2, lift in H.
  destruct (Block_init (a_file_hash p) (a_index_all p) (a_chunk p)
              (a_index p) None) as [nb|e| |] eqn:Hinit; try done.
  apply Block_init_Ret in Hinit. destruct Hinit as [-> Hvalid].
  unfold bind in H.
  match type of H with
  | context [insert_block ?a ?b] =>
      destruct (insert_block a b) as [[[]|e| |] w1] eqn:E; try done
  end.
  injection H as <- <-.
  assert (Hlt : (_latest_block (self w) < length (heap w))%nat) by lia.
  assert (Hnew : (heap w ++ [unlinked p]) !! length (heap w)
                 = Some (unlinked p))
    by (by rewrite lookup_app_r, Nat.sub_diag).
  pose proof (insert_block_files _ (unlinked p) _ _ E Hnew Hfiles)
    as (F1 & F2 & _ & F4).
  apply insert_block_Ret in E.
  cbn [heap self _chain _files _latest_block] in *.
  destruct E as (nb0 & tip & h & H1 & H2 & H3 & H4 & H5 & H6 & _).
  rewrite Hnew in H1. injection H1 as <-.
  rewrite lookup_app_l in H2 by done.
  assert (Hheap : heap w1 = heap w ++ [linked (unlinked p) h]).
  { rewrite H4. replace (length (heap w)) with (length (heap w) + 0)%nat by lia.
    by rewrite insert_app_r. }
  assert (Hlast : heap w1 !! length (heap w) = Some (linked (unlinked p) h))
    by (by rewrite Hheap, lookup_app_r, Nat.sub_diag).
  exists tip, h. do 5 (split; [done|]). split; [by apply F2|].
  split; [done|]. split; [done|]. split.
  - rewrite H6, Hheap, length_app. simpl. lia.
  - rewrite Hheap, lookup_app_l; [done|]. lia.
  - intros i b. rewrite Hheap. intros Hb.
    destruct (decide (S i < length (heap w))%nat) as [Hi|Hi].
    + rewrite lookup_app_l in Hb by done.
      destruct (Hprev i b Hb) as (q & hq & Hq1 & Hq2 & Hq3).
      exists q, hq. rewrite lookup_app_l by lia. done.
    + assert (S i = length (heap w)).
      { apply lookup_lt_Some in Hb. rewrite length_app in Hb. simpl in Hb. lia. }
      rewrite lookup_app_r, H, Nat.sub_diag in Hb by lia.
      injection Hb as <-. exists tip, h.
      rewrite lookup_app_l by lia.
      replace i with (_latest_block (self w)) by lia. done.
  - intros i b. rewrite H5. intros Hb.
    destruct (decide (block_hash (linked (unlinked p) h) = block_hash b))
      as [Heq|Hne].
    + exists (length (heap w)), (linked (unlinked p) h).
      by rewrite Heq, lookup_insert_eq.
    + rewrite lookup_insert_ne by done. rewrite Hheap in Hb.
      destruct (decide (i < length (heap w))%nat) as [Hi|Hi].
      * rewrite lookup_app_l in Hb by done.
        destruct (Hchain i b Hb) as (j & b' & Hj1 & Hj2 & Hj3).
        exists j, b'. split; [done|]. split; [|done].
        rewrite Hheap, lookup_app_l; [done|]. by eapply lookup_lt_Some.
      * assert (i = length (heap w)).
        { apply lookup_lt_Some in Hb. rewrite length_app in Hb. simpl in Hb. lia. }
        subst i. rewrite lookup_app_r, Nat.sub_diag in Hb by done.
        injection Hb as <-. done.
  - intros k j. rewrite H5.
    destruct (decide (block_hash (linked (unlinked p) h) = k)) as [<-|Hne].
    + rewrite lookup_insert_eq. intros [= <-]. by eexists.
    + rewrite lookup_insert_ne by done. intros Hk.
      destruct (Hdom k j Hk) as (b & Hb1 & Hb2). exists b. split; [|done].
      rewrite Hheap, lookup_app_l; [done|]. by eapply lookup_lt_Some.
  - done.
Qed.

Lemma insert_all_Ret ps : forall w w',
  insert_all ps w = (Ret tt, w') ->
  linear w ->
  exists bs,
    heap w' = heap w ++ bs /\
    Forall2 (fun b p => file_hash b = a_file_hash p /\
                        index_all b = a_index_all p) bs ps /\
    Forall valid_args ps /\
    linear w'.
Proof.
  induction ps as [|p ps IH]; intros w w' H Hlin.
  - injection H as <-. exists []. by rewrite app_nil_r.
  - unfold insert_all in H. simpl in H. unfold bind at 1 2 in H.
    destruct (insert_new _ _ _ _ w) as [[l|e| |] w1] eqn:E; try done.
    apply insert_new_Ret in E; [|done].
    destruct E as (tip & h & _ & _ & _ & Hb1 & _ & _ & _ & Hv & Hlin1).
    unfold ret at 1 in H. apply IH in H; [|done].
    destruct H as (bs & Hbs1 & Hbs2 & Hvs & Hlin').
    exists (linked (unlinked p) h :: bs). rewrite Hbs1, Hb1, <- app_assoc.
    split; [done|]. split; [by constructor|]. split; [by constructor|done].
Qed.

Lemma linear_chain_lookup w i p :
  linear w ->
  NoDup (map block_hash (heap w)) ->
  heap w !! i = Some p ->
  _chain (self w) !! block_hash p = Some i.
Proof.
  intros Hlin Hnd Hp.
  destruct (lin_chain w Hlin i p Hp) as (j & b' & Hj1 & Hj2 & Hj3).
  rewrite Hj1. f_equal.
  eapply (NoDup_lookup (map block_hash (heap w))); [done| |].
  - rewrite list_lookup_fmap, Hj2. simpl. by rewrite Hj3.
  - by rewrite list_lookup_fmap, Hp.
Qed.

(** On a linear world with distinct, non-empty block hashes the walk of
    [verify_integrity] goes down the heap to the initial block. *)
Lemma verify_integrity_loop_linear w :
  linear w ->
  NoDup (Some [] :: map block_hash (heap w)) ->
  forall i fuel n b,
    (i <= fuel)%nat ->
    heap w !! i = Some b ->
    verify_integrity_loop fuel i n w
    = (Ret (bool_decide (size (foldr count_block n (take i (heap w))) = 0%nat)),
       w).
Proof.
  intros Hlin Hnd. apply NoDup_cons in Hnd as [Hnil Hnd].
  induction i as [|i IH]; intros fuel n b Hfuel Hb.
  - rewrite (lin_genesis w Hlin) in Hb. injection Hb as <-.
    destruct fuel; simpl; unfold bind, get_block;
      rewrite (lin_genesis w Hlin); simpl; unfold INITIAL_BLOCK;
      rewrite (lin_genesis w Hlin); simpl; by rewrite decide_True.

  - destruct fuel as [|fuel]; [lia|].
    destruct (lin_prev w Hlin i b Hb) as (p & h & Hp1 & Hp2 & Hp3).
    simpl. unfold bind at 1, get_block. rewrite Hb, Hp3.
    destruct (decide (Some h = Some [])) as [[= ->]|_].
    { exfalso. apply Hnil. rewrite <- Hp2. apply list_elem_of_fmap.
      exists p. split; [done|]. by eapply list_elem_of_lookup_2. }
    unfold bind at 1, get_self.
    rewrite <- Hp2, (linear_chain_lookup w i p) by done.
    unfold bind at 1, get_block. rewrite Hp1.
    rewrite (IH fuel _ p) by (done || lia).
    by rewrite (take_S_r _ _ p), foldr_app.
Qed.

Lemma count_block_empty b :
  (if 0 <? index_all b - 1
   then ({[ file_hash b := index_all b - 1 ]} : gmap bytes Z) else ∅)
  = count_block b ∅.
Proof.
  unfold count_block. destruct (0 <? index_all b - 1); [|done].
  by rewrite lookup_empty, insert_empty.
Qed.

Lemma verify_integrity_linear w fuel :
  linear w ->
  NoDup (Some [] :: map block_hash (heap w)) ->
  (_latest_block (self w) <= fuel)%nat ->
  verify_integrity fuel w
  = (Ret (bool_decide (size (foldr count_block ∅ (heap w)) = 0%nat)), w).
Proof.
  intros Hlin Hnd Hfuel.
  pose proof (lin_latest w Hlin) as Hlat.
  destruct (lookup_lt_is_Some_2 (heap w) (_latest_block (self w))) as [b Hb];
    [lia|].
  unfold verify_integrity, bind, get_self, get_block. rewrite Hb.
  rewrite count_block_empty.
  rewrite (verify_integrity_loop_linear w Hlin Hnd _ _ _ b) by done.
  assert (Hf : foldr count_block ∅ (heap w)
               = foldr count_block (count_block b ∅)
                   (take (_latest_block (self w)) (heap w))).
  { rewrite <- (firstn_all (heap w)) at 1.
    by rewrite <- Hlat, (take_S_r _ _ _ Hb), foldr_app. }
  by rewrite Hf.
Qed.

Lemma pending_single ps :
  Forall (fun p => a_index_all p = 1) ps -> pending ps = ∅.
Proof.
  induction 1 as [|p ps Hp _ IH]; [done|].
  unfold pending in *. simpl. rewrite IH.
  unfold count_file, count_block. simpl. by rewrite Hp.
Qed.

(** The number of blocks of the file [fh] among [ps]. *)
Definition blocks_of_file (fh : bytes) (ps : list block_args) : Z :=
  Z.of_nat (length (filter (fun p => a_file_hash p = fh) ps)).

(** The blocks of one file all say the same [index_all]. *)
Definition same_split (ps : list block_args) : Prop :=
  Forall (fun p =>
            Forall (fun q => a_file_hash p = a_file_hash q ->
                             a_index_all p = a_index_all q) ps) ps.

#[global] Instance same_split_dec ps : Decision (same_split ps).
Proof. unfold same_split. apply _. Defined.

Lemma same_split_elem_of ps p q :
  same_split ps -> p ∈ ps -> q ∈ ps ->
  a_file_hash p = a_file_hash q -> a_index_all p = a_index_all q.
Proof.
  unfold same_split. rewrite Forall_forall. intros H Hp Hq.
  specialize (H p Hp). rewrite Forall_forall in H. by apply H.
Qed.

(** Of every file among [ps], the number of blocks is a multiple of its
    [index_all]. *)
Definition whole (ps : list block_args) : bool :=
  forallb (fun p => blocks_of_file (a_file_hash p) ps mod a_index_all p =? 0)
    ps.

Lemma count_file_lookup_ne (fh fh' : bytes) (ia : Z) (m : gmap bytes Z) :
  fh <> fh' -> count_file fh' ia m !! fh = m !! fh.
Proof.
  intros Hne. unfold count_file, count_block. simpl.
  destruct (0 <? ia - 1); [|done].
  destruct (m !! fh') as [c|]; [destruct (c - 1 =? 0)|].
  - by rewrite lookup_delete_ne.
  - by rewrite lookup_insert_ne.
  - by rewrite lookup_insert_ne.
Qed.

Lemma blocks_of_file_cons (fh : bytes) (p : block_args) ps :
  blocks_of_file fh (p :: ps)
  = if decide (a_file_hash p = fh) then blocks_of_file fh ps + 1
    else blocks_of_file fh ps.
Proof.
  unfold blocks_of_file. rewrite filter_cons.
  destruct (decide (a_file_hash p = fh)); [|done]. simpl. lia.
Qed.

Lemma succ_mod (r c n : Z) :
  0 < n -> r = c mod n ->
  (c + 1) mod n = if decide (r + 1 = n) then 0 else r + 1.
Proof.
  intros Hn ->. pose proof (Z.mod_pos_bound c n Hn) as Hr.
  rewrite <- Z.add_mod_idemp_l by lia.
  destruct (decide (c mod n + 1 = n)) as [->|Hne].
  - apply Z.mod_same. lia.
  - apply Z.mod_small. lia.
Qed.

(** What the count holds for the file [fh], all of whose blocks say
    [index_all = n]: nothing after a multiple of [n] blocks, and else
    the number of blocks missing to the next multiple. *)
Lemma pending_lookup (ps : list block_args) (fh : bytes) (n : Z) :
  0 < n ->
  (forall p, p ∈ ps -> a_file_hash p = fh -> a_index_all p = n) ->
  pending ps !! fh
  = if decide (blocks_of_file fh ps mod n = 0) then None
    else Some (n - blocks_of_file fh ps mod n).
Proof.
  intros Hn. induction ps as [|p ps IH]; intros Hall.
  - change (blocks_of_file fh []) with 0. rewrite Z.mod_0_l by lia.
    rewrite decide_True by done. apply lookup_empty.
  - assert (IH' := IH (fun q Hq => Hall q (list_elem_of_further _ _ _ Hq))).
    clear IH. rewrite blocks_of_file_cons.
    change (pending (p :: ps))
      with (count_file (a_file_hash p) (a_index_all p) (pending ps)).
    destruct (decide (a_file_hash p = fh)) as [Hfh|Hfh].
    2:{ by rewrite count_file_lookup_ne. }
    rewrite (Hall p (list_elem_of_here _ _) Hfh), Hfh.
    set (c := blocks_of_file fh ps) in *.
    pose proof (Z.mod_pos_bound c n Hn) as Hr.
    rewrite (succ_mod (c mod n) c n Hn eq_refl).
    unfold count_file, count_block. simpl.
    destruct (0 <? n - 1) eqn:E.
    + apply Z.ltb_lt in E. rewrite IH'.
      destruct (decide (c mod n = 0)) as [H0|H0].
      * rewrite H0. rewrite lookup_insert_eq.
        rewrite (decide_False (P := 0 + 1 = n)) by lia.
        rewrite (decide_False (P := 0 + 1 = 0)) by lia.
        f_equal; lia.
      * destruct (n - c mod n - 1 =? 0) eqn:E'.
        -- apply Z.eqb_eq in E'. rewrite lookup_delete_eq.
           rewrite (decide_True (P := c mod n + 1 = n)) by lia.
           by rewrite decide_True.
        -- apply Z.eqb_neq in E'. rewrite lookup_insert_eq.
           rewrite (decide_False (P := c mod n + 1 = n)) by lia.
           rewrite decide_False by lia. f_equal; lia.
    + apply Z.ltb_ge in E. assert (n = 1) as -> by lia.
      rewrite IH'. rewrite Z.mod_1_r.
      rewrite (decide_True (P := 0 + 1 = 1)) by lia.
      by rewrite !decide_True.
Qed.

(** The count leaves no file pending exactly when every file is there
    a whole number of times. *)
Lemma pending_empty_whole (ps : list block_args) :
  Forall valid_args ps ->
  same_split ps ->
  pending ps = ∅ <-> whole ps = true.
Proof.
  intros Hvalid Hsame. unfold whole. rewrite forallb_forall.
  split.
  - intros Hp p Hin. apply list_elem_of_In in Hin.
    assert (Hn : 0 < a_index_all p).
    { rewrite Forall_forall in Hvalid. by apply Hvalid. }
    pose proof (pending_lookup ps (a_file_hash p) (a_index_all p) Hn) as H.
    rewrite Hp, lookup_empty in H.
    destruct (decide (blocks_of_file (a_file_hash p) ps mod a_index_all p = 0))
      as [H0|H0].
    + by apply Z.eqb_eq.
    + discriminate H. intros q Hq Hfh.
      by apply (same_split_elem_of ps).
  - intros Hw. apply map_eq. intros fh. rewrite lookup_empty.
    destruct (decide (Exists (fun p => a_file_hash p = fh) ps)) as [Hex|Hex].
    + apply Exists_exists in Hex. destruct Hex as (p & Hin & Hfh).
      assert (Hn : 0 < a_index_all p).
      { rewrite Forall_forall in Hvalid. by apply Hvalid. }
      rewrite (pending_lookup ps fh (a_index_all p) Hn).
      * rewrite decide_True; [done|].
        rewrite <- Hfh. apply Z.eqb_eq, Hw. by apply list_elem_of_In.
      * intros q Hq Hqf.
        apply (same_split_elem_of ps); [done..|congruence].
    + rewrite (pending_lookup ps fh 1) by
        (lia || (intros q Hq Hqf; exfalso; apply Hex, Exists_exists; eauto)).
      by rewrite Z.mod_1_r, decide_True.
Qed.

Lemma foldr_count_block_pending bs ps :
  Forall2 (fun b p => file_hash b = a_file_hash p /\
                      index_all b = a_index_all p) bs ps ->
  foldr count_block ∅ bs = pending ps.
Proof.
  induction 1 as [|b p bs ps [H1 H2] _ IH]; [done|].
  unfold pending in *. simpl. rewrite IH, count_block_count_file.
  by rewrite H1, H2.
Qed.

Lemma whole_single (ps : list block_args) :
  Forall (fun p => a_index_all p = 1) ps -> whole ps = true.
Proof.
  intros H. unfold whole. apply forallb_forall. intros p Hp.
  rewrite Forall_forall in H. rewrite (H p) by (by apply list_elem_of_In).
  by rewrite Z.mod_1_r.
Qed.

(** On a chain built by [insert_block] alone, [verify_integrity()]
    returns, and says whether its count leaves no file pending. *)
Lemma verify_integrity_pending (ps : list block_args) (w : World) :
  insert_all ps fresh = (Ret tt, w) ->
  NoDup (Some [] :: map block_hash (heap w)) ->
  forall fuel, (length ps <= fuel)%nat ->
    verify_integrity fuel w = (Ret (bool_decide (pending ps = ∅)), w).
Proof.
  intros H Hnd.
  apply insert_all_Ret in H; [|apply fresh_linear].
  destruct H as (bs & Hheap & Hbs & _ & Hlin). rewrite fresh_heap in Hheap.
  intros fuel Hfuel.
  rewrite verify_integrity_linear; [|done..|].
  - rewrite Hheap. simpl. rewrite (foldr_count_block_pending bs ps Hbs).
    f_equal. f_equal. apply bool_decide_ext.
    change (count_block initial_block (pending ps)) with (pending ps).
    apply map_size_empty_iff.
  - pose proof (lin_latest w Hlin) as Hlat. rewrite Hheap in Hlat.
    simpl in Hlat. apply Forall2_length in Hbs. lia.
Qed.


(** On a linear world with distinct, non-empty block hashes the loop of
    [chain] appends the locations below [i], highest first. *)
Lemma chain_loop_linear w :
  linear w ->
  NoDup (Some [] :: map block_hash (heap w)) ->
  forall i fuel blocks b,
    (i <= fuel)%nat ->
    heap w !! i = Some b ->
    chain_loop fuel i blocks w = (Ret (blocks ++ rev (seq 0 i)), w).
Proof.
  intros Hlin Hnd. apply NoDup_cons in Hnd as [Hnil Hnd].
  induction i as [|i IH]; intros fuel blocks b Hfuel Hb.
  - rewrite (lin_genesis w Hlin) in Hb. injection Hb as <-.
    rewrite app_nil_r.
    destruct fuel; simpl; unfold bind, get_block;
      by rewrite (lin_genesis w Hlin).
  - destruct fuel as [|fuel]; [lia|].
    destruct (lin_prev w Hlin i b Hb) as (p & h & Hp1 & Hp2 & Hp3).
    rewrite seq_S, rev_app_distr, app_assoc.
    cbn [chain_loop]. unfold bind at 1, get_block. rewrite Hb, Hp3.
    destruct (decide (Some h = Some [])) as [[= ->]|_].
    { exfalso. apply Hnil. rewrite <- Hp2. apply list_elem_of_fmap.
      exists p. split; [done|]. by eapply list_elem_of_lookup_2. }
    unfold bind at 1, get_self.
    rewrite <- Hp2, (linear_chain_lookup w i p) by done.
    by rewrite (IH fuel _ p) by (done || lia).
Qed.

(** C4: on a chain built from [Blockchain()] by successful calls
    [insert_block(Block(...))], whose block hashes are pairwise distinct
    and not empty, the property [chain] lists the blocks from the
    latest one down to the initial block: the latest block is first and
    the initial block is last. *)
Theorem chain_newest_first (ps : list block_args) (w : World) (fuel : nat) :
  insert_all ps fresh = (Ret tt, w) ->
  NoDup (Some [] :: map block_hash (heap w)) ->
  (length ps <= fuel)%nat ->
  chain fuel w = (Ret (rev (seq 0 (S (length ps)))), w) /\
  _latest_block (self w) = length ps /\
  heap w !! 0%nat = Some initial_block.
Proof.
  intros H Hnd Hfuel.
  apply insert_all_Ret in H; [|apply fresh_linear].
  destruct H as (bs & Hheap & Hbs & _ & Hlin). rewrite fresh_heap in Hheap.
  pose proof (lin_latest w Hlin) as Hlat. rewrite Hheap in Hlat.
  simpl in Hlat. apply Forall2_length in Hbs.
  assert (Hl : _latest_block (self w) = length ps) by lia.
  split; [|split; [done | apply (lin_genesis w Hlin)]].
  destruct (lookup_lt_is_Some_2 (heap w) (length ps)) as [b Hb].
  { rewrite Hheap. simpl. lia. }
  unfold chain, bind, get_self. rewrite Hl.
  rewrite (chain_loop_linear w Hlin Hnd _ _ _ b) by done.
  by rewrite (seq_S (length ps)), rev_app_distr.
Qed.

(** *** Walking the chain *)

(** From the block at [l], [previous_block_hash] leads through the
    blocks at [ls], in that order, the last of which (or [l] itself) has
    the empty [previous_block_hash] and the hash of the initial block. *)
Inductive walk (w : World) : loc -> list loc -> Prop :=
| walk_end l b ib :
    heap w !! l = Some b ->
    previous_block_hash b = Some [] ->
    heap w !! INITIAL_BLOCK = Some ib ->
    block_hash b = block_hash ib ->
    walk w l []
| walk_step l b l' ls :
    heap w !! l = Some b ->
    previous_block_hash b <> Some [] ->
    _chain (self w) !! previous_block_hash b = Some l' ->
    walk w l' ls ->
    walk w l (l' :: ls).

(** The count of [verify_integrity] over the blocks at [ls]. *)
Definition count_locs (w : World) (ls : list loc) (n : gmap bytes Z)
    : gmap bytes Z :=
  fold_left (fun n l => match heap w !! l with
                        | Some b => count_block b n
                        | None => n
                        end) ls n.

Lemma chain_loop_walk w l ls :
  walk w l ls ->
  forall fuel blocks,
    (length ls <= fuel)%nat ->
    chain_loop fuel l blocks w = (Ret (blocks ++ ls), w).
Proof.
  induction 1 as [l b ib Hb Hp _ _|l b l' ls Hb Hp Hc _ IH];
    intros fuel blocks Hfuel.
  - rewrite app_nil_r.
    destruct fuel; simpl; unfold bind, get_block; rewrite Hb;
      by rewrite decide_True.
  - destruct fuel as [|fuel]; [simpl in Hfuel; lia|].
    cbn [chain_loop]. unfold bind at 1, get_block. rewrite Hb.
    rewrite decide_False by done.
    unfold bind at 1, get_self. rewrite Hc.
    rewrite IH by (simpl in Hfuel; lia).
    by rewrite <- app_assoc.
Qed.

Lemma verify_integrity_loop_walk w l ls :
  walk w l ls ->
  forall fuel n,
    (length ls <= fuel)%nat ->
    verify_integrity_loop fuel l n w
    = (Ret (bool_decide (size (count_locs w ls n) = 0%nat)), w).
Proof.
  induction 1 as [l b ib Hb Hp Hib Hh|l b l' ls Hb Hp Hc Hw IH];
    intros fuel n Hfuel.
  - destruct fuel; simpl; unfold bind, get_block; rewrite Hb;
      rewrite decide_True by done; rewrite Hib; by rewrite decide_True.
  - destruct fuel as [|fuel]; [simpl in Hfuel; lia|].
    cbn [verify_integrity_loop]. unfold bind at 1, get_block. rewrite Hb.
    rewrite decide_False by done.
    unfold bind at 1, get_self. rewrite Hc.
    assert (exists b', heap w !! l' = Some b') as [b' Hb']
      by (inversion Hw; by eexists).
    unfold bind at 1, get_block. rewrite Hb'.
    rewrite IH by (simpl in Hfuel; lia).
    unfold count_locs. simpl. by rewrite Hb'.
Qed.

Lemma verify_integrity_walk w b ls fuel :
  heap w !! _latest_block (self w) = Some b ->
  walk w (_latest_block (self w)) ls ->
  (length ls <= fuel)%nat ->
  verify_integrity fuel w
  = (Ret (bool_decide (size (count_locs w ls (count_block b ∅)) = 0%nat)), w).
Proof.
  intros Hb Hw Hfuel.
  unfold verify_integrity, bind, get_self, get_block. rewrite Hb.
  rewrite count_block_empty. by apply verify_integrity_loop_walk.
Qed.

Lemma chain_walk w ls fuel :
  walk w (_latest_block (self w)) ls ->
  (length ls <= fuel)%nat ->
  chain fuel w = (Ret (_latest_block (self w) :: ls), w).
Proof.
  intros Hw Hfuel. unfold chain, bind, get_self.
  by rewrite (chain_loop_walk w _ ls).
Qed.

(** *** [merge_blocks] on a fork *)

(** The hash of the block built from [p] and linked behind the hash [h]. *)
Definition hash_after (p : block_args) (h : bytes) : bytes :=
  sha256 (payload (a_file_hash p) (a_index_all p) (a_chunk p) (a_index p) ++ h).

(** The hash of the initial block. *)
Definition genesis_hash : bytes := sha256 (payload [] 1 [] 0 ++ []).

Lemma block_hash_linked p h :
  block_hash (linked (unlinked p) h) = Some (hash_after p h).
Proof. reflexivity. Qed.

Lemma previous_block_hash_linked b h :
  previous_block_hash (linked b h) = Some h.
Proof. reflexivity. Qed.

Lemma linked_linked p h h' :
  linked (linked (unlinked p) h) h' = linked (unlinked p) h'.
Proof. reflexivity. Qed.

Lemma Block_init_valid p h :
  valid_args p ->
  Block_init (a_file_hash p) (a_index_all p) (a_chunk p) (a_index p) (Some h)
  = Ret (linked (unlinked p) h).
Proof.
  intros [H1 [H2 H3]]. unfold Block_init.
  replace (0 <? a_index_all p) with true by (symmetry; by apply Z.ltb_lt).
  replace (a_index p <? a_index_all p) with true
    by (symmetry; by apply Z.ltb_lt).
  replace (0 <=? a_index p) with true by (symmetry; by apply Z.leb_le).
  reflexivity.
Qed.

Lemma new_Block_valid p h w :
  valid_args p ->
  new_Block (a_file_hash p) (a_index_all p) (a_chunk p) (a_index p) (Some h) w
  = (Ret (length (heap w)),
     mkWorld (heap w ++ [linked (unlinked p) h]) (self w)).
Proof.
  intros Hv. unfold new_Block, bind, lift. by rewrite Block_init_valid.
Qed.

Lemma merge_blocks_step_absent block b st added w :
  heap w !! block = Some b ->
  _chain (self w) !! block_hash b = None ->
  files_ok (_files (self w)) ->
  exists f',
    merge_blocks_step block (st, added) w
    = (Ret (match <[block_hash b := block]> (_chain (self w))
                    !! previous_block_hash b with
            | Some p => Some p
            | None => st
            end, added ++ [block]),
       mkWorld (heap w)
         (mkBlockchain (<[block_hash b := block]> (_chain (self w))) f'
            (_latest_block (self w)))) /\
    files_ok f' /\
    (forall x y, has_key (_files (self w)) x y -> has_key f' x y) /\
    (forall x y z, recorded (_files (self w)) x y z -> recorded f' x y z).
Proof.
  intros Hb Hc Hok.
  unfold merge_blocks_step, bind at 1 2 3, get_block, get_self, put_chain.
  rewrite Hb, Hc.
  set (w1 := mkWorld (heap w)
               (mkBlockchain (<[block_hash b := block]> (_chain (self w)))
                  (_files (self w)) (_latest_block (self w)))).
  destruct (files_append_run (file_hash b) (content_hash b) (block_hash b) w1)
    as (f1 & E1 & F1 & _ & K1 & R1); [done|].
  unfold bind at 1. rewrite E1.
  destruct (files_set_index_all_run (file_hash b) (index_all b)
              (set_files f1 w1)) as (f2 & E2 & F2 & K2 & R2); [done|].
  unfold bind at 1. rewrite E2.
  exists f2. unfold bind, get_self, ret. simpl.
  split; [by case_match|]. split; [done|]. split.
  - intros x y H. by apply K2, K1.
  - intros x y z H. by apply R2, R1.
Qed.

Lemma NoDup_lookup_ne {A} (l : list A) i j x y :
  NoDup l -> l !! i = Some x -> l !! j = Some y -> i <> j -> x <> y.
Proof.
  intros Hnd Hi Hj Hij ->. apply Hij. by eapply NoDup_lookup.
Qed.

(** The local chain of the scenario: the initial block, then the blocks
    built from [pB] and [pC]. *)
Lemma local_chain pB pC w :
  insert_all [pB; pC] fresh = (Ret tt, w) ->
  exists f,
    w = mkWorld
          [initial_block;
           linked (unlinked pB) genesis_hash;
           linked (unlinked pC) (hash_after pB genesis_hash)]
          (mkBlockchain
             (<[Some (hash_after pC (hash_after pB genesis_hash)) := 2%nat]>
                (<[Some (hash_after pB genesis_hash) := 1%nat]>
                   {[ Some genesis_hash := 0%nat ]}))
             f 2%nat) /\
    files_ok f /\
    recorded f (a_file_hash pC) (content_hash (unlinked pC))
      (Some (hash_after pC (hash_after pB genesis_hash))).
Proof.
  unfold insert_all. simpl. unfold bind at 1 2. intros H.
  destruct (insert_new _ _ _ _ fresh) as [[l1|e| |] w1] eqn:E1; try done.
  unfold ret at 1 in H. unfold bind at 1 2 in H.
  destruct (insert_new _ _ _ _ w1) as [[l2|e| |] w2] eqn:E2; try done.
  injection H as <-.
  apply insert_new_Ret in E1; [|apply fresh_linear].
  destruct E1 as (tip1 & h1 & A1 & A2 & A3 & A4 & A5 & _ & _ & _ & Hlin1).
  rewrite fresh_eq in A1, A3, A4, A5. simpl in A1, A3, A4, A5.
  injection A1 as <-. injection A2 as <-. subst l1.
  apply insert_new_Ret in E2; [|done].
  destruct E2 as (tip2 & h2 & B1 & B2 & B3 & B4 & B5 & B6 & _ & _ & Hlin2).
  pose proof (lin_latest w1 Hlin1) as Hl1. rewrite A4 in Hl1. simpl in Hl1.
  injection Hl1 as Hl1. rewrite Hl1, A4 in B1. simpl in B1.
  injection B1 as <-. injection B2 as <-.
  rewrite A4 in B3, B4. simpl in B3, B4. subst l2. rewrite A5 in B5.
  pose proof (lin_latest w2 Hlin2) as Hl2. rewrite B4 in Hl2. simpl in Hl2.
  injection Hl2 as Hl2.
  exists (_files (self w2)). split; [|split].
  - destruct w2 as [hp [c f l]]. simpl in *. by subst.
  - apply (lin_files w2 Hlin2).
  - exact B6.
Qed.

Ltac lookups :=
  repeat first
    [ rewrite lookup_insert_eq
    | rewrite lookup_insert_ne by congruence
    | rewrite lookup_delete_ne by congruence
    | rewrite lookup_singleton_eq
    | rewrite lookup_singleton_ne by congruence ].

Section Fork.

(** The blocks [B] and [C] of the local chain, and the blocks [D] and
    [E] of the peer, which follow [B]. *)
Variables pB pC pD pE : block_args.

Let hG : bytes := genesis_hash.
Let hB : bytes := hash_after pB hG.
Let hC : bytes := hash_after pC hB.
Let hD : bytes := hash_after pD hB.
Let hE : bytes := hash_after pE hD.
Let hC' : bytes := hash_after pC hE.

(** The hashes met are pairwise distinct, and none is empty. *)
Hypothesis distinct : NoDup [[]; hG; hB; hC; hD; hE; hC'].

Let chain2 : gmap (option bytes) loc :=
  <[Some hC := 2%nat]> (<[Some hB := 1%nat]> {[ Some hG := 0%nat ]}).

Let chain5 : gmap (option bytes) loc :=
  <[Some hC' := 2%nat]>
    (delete (Some hC) (<[Some hD := 3%nat]> (<[Some hE := 4%nat]> chain2))).

Lemma hashes_ne i j x y :
  [[]; hG; hB; hC; hD; hE; hC'] !! i = Some x ->
  [[]; hG; hB; hC; hD; hE; hC'] !! j = Some y ->
  i <> j -> Some x <> Some y.
Proof.
  intros Hi Hj Hij [= Hxy]. revert Hxy. by eapply NoDup_lookup_ne.
Qed.

Lemma merge_fork f fuel :
  files_ok f ->
  recorded f (a_file_hash pC) (content_hash (unlinked pC)) (Some hC) ->
  exists f',
    merge_blocks (S fuel) [3%nat; 4%nat]
      (mkWorld [initial_block; linked (unlinked pB) hG;
                linked (unlinked pC) hB; linked (unlinked pD) hB;
                linked (unlinked pE) hD]
         (mkBlockchain chain2 f 2%nat))
    = (Ret [3%nat; 4%nat; 2%nat],
       mkWorld [initial_block; linked (unlinked pB) hG;
                linked (unlinked pC) hE; linked (unlinked pD) hB;
                linked (unlinked pE) hD]
         (mkBlockchain chain5 f' 2%nat)).
Proof.
  intros Hok Hrec.
  pose proof hashes_ne as N.
  pose proof (N 1 2 _ _ eq_refl eq_refl ltac:(lia))%nat as N12.
  pose proof (N 1 3 _ _ eq_refl eq_refl ltac:(lia))%nat as N13.
  pose proof (N 1 4 _ _ eq_refl eq_refl ltac:(lia))%nat as N14.
  pose proof (N 1 5 _ _ eq_refl eq_refl ltac:(lia))%nat as N15.
  pose proof (N 1 6 _ _ eq_refl eq_refl ltac:(lia))%nat as N16.
  pose proof (N 2 3 _ _ eq_refl eq_refl ltac:(lia))%nat as N23.
  pose proof (N 2 4 _ _ eq_refl eq_refl ltac:(lia))%nat as N24.
  pose proof (N 2 5 _ _ eq_refl eq_refl ltac:(lia))%nat as N25.
  pose proof (N 2 6 _ _ eq_refl eq_refl ltac:(lia))%nat as N26.
  pose proof (N 3 4 _ _ eq_refl eq_refl ltac:(lia))%nat as N34.
  pose proof (N 3 5 _ _ eq_refl eq_refl ltac:(lia))%nat as N35.
  pose proof (N 4 5 _ _ eq_refl eq_refl ltac:(lia))%nat as N45.
  pose proof (N 4 6 _ _ eq_refl eq_refl ltac:(lia))%nat as N46.
  pose proof (N 5 6 _ _ eq_refl eq_refl ltac:(lia))%nat as N56.
  clear N.
  unfold merge_blocks. cbn [rev app merge_blocks_scan].
  unfold bind at 1 2.
  (* the scan meets E *)
  match goal with
  | |- context [merge_blocks_step 4%nat (?st, ?ad) ?w] =>
      destruct (merge_blocks_step_absent 4%nat (linked (unlinked pE) hD)
                  st ad w) as (f1 & E1 & F1 & K1 & R1);
        [reflexivity | | done |]
  end.
  { cbn [self _chain]. rewrite block_hash_linked. fold hE.
    unfold chain2. by lookups. }
  rewrite E1. clear E1.
  cbn [heap self _chain _files _latest_block app].
  rewrite block_hash_linked, previous_block_hash_linked. fold hE.
  replace (<[Some hE := 4%nat]> chain2 !! Some hD) with (@None loc)
    by (unfold chain2; by lookups).
  (* the scan meets D *)
  unfold bind at 1.
  match goal with
  | |- context [merge_blocks_step 3%nat (?st, ?ad) ?w] =>
      destruct (merge_blocks_step_absent 3%nat (linked (unlinked pD) hB)
                  st ad w) as (f2 & E2 & F2 & K2 & R2);
        [reflexivity | | done |]
  end.
  { cbn [self _chain]. rewrite block_hash_linked. fold hD.
    unfold chain2. by lookups. }
  rewrite E2. clear E2.
  cbn [heap self _chain _files _latest_block app].
  rewrite block_hash_linked, previous_block_hash_linked. fold hD.
  replace (<[Some hD := 3%nat]> (<[Some hE := 4%nat]> chain2) !! Some hB)
    with (Some 1%nat) by (unfold chain2; by lookups).
  unfold ret at 1. cbn [rev app last].
  (* the fork point is B, the latest block is C *)
  unfold bind at 1, get_block. cbn [heap lookup list_lookup].
  unfold bind at 1, get_self. cbn [self _latest_block].
  unfold bind at 1. cbn [heap lookup list_lookup].
  rewrite !block_hash_linked. fold hB hC.
  rewrite decide_False by done.
  unfold bind at 1, put_latest_block.
  cbn [heap self _chain _files _latest_block].
  (* C is unlinked *)
  unfold bind at 1. cbn [merge_blocks_unlink].
  unfold bind at 1, get_block. cbn [heap lookup list_lookup].
  unfold bind at 1. cbn [heap lookup list_lookup].
  rewrite !block_hash_linked. fold hB hC.
  rewrite decide_False by done.
  unfold bind at 1, get_self. cbn [self _chain].
  replace (<[Some hD := 3%nat]> (<[Some hE := 4%nat]> chain2) !! Some hC)
    with (Some 2%nat) by (unfold chain2; by lookups).
  unfold bind at 1, put_chain.
  cbn [heap self _chain _files _latest_block].
  unfold bind at 1.
  match goal with
  | |- context [files_remove _ _ _ ?w] =>
      destruct (files_remove_run (a_file_hash pC) (content_hash (unlinked pC))
                  (Some hC) w) as (f3 & E3 & F3 & K3);
        [done | by apply R2, R1 |]
  end.
  change (file_hash (linked (unlinked pC) hB)) with (a_file_hash pC).
  change (content_hash (linked (unlinked pC) hB))
    with (content_hash (unlinked pC)).
  rewrite E3. clear E3.
  unfold set_files. cbn [heap self _chain _files _latest_block].
  unfold bind at 1. cbn [self _chain].
  rewrite previous_block_hash_linked.
  replace (delete (Some hC) (<[Some hD := 3%nat]> (<[Some hE := 4%nat]> chain2))
             !! Some hB)
    with (Some 1%nat) by (unfold chain2; by lookups).
  (* the walk back has reached B *)
  assert (Hstop : forall fuel' acc w,
            heap w !! 1%nat = Some (linked (unlinked pB) hG) ->
            merge_blocks_unlink fuel' 1 1 acc w = (Ret acc, w)).
  { intros fuel' acc w Hw.
    destruct fuel'; cbn [merge_blocks_unlink]; unfold bind, get_block;
      rewrite Hw; cbv beta iota; rewrite Hw; by rewrite decide_True. }
  rewrite Hstop by reflexivity. cbn [app rev merge_blocks_reinsert].
  (* C is inserted again, behind E *)
  unfold bind at 1.
  match goal with
  | |- context [insert_block 2%nat ?w] =>
      destruct (insert_block_run_known 2%nat (linked (unlinked pC) hB)
                  (linked (unlinked pE) hD) hE w)
        as (f4 & E4 & F4); [reflexivity | reflexivity | reflexivity | done | |]
  end.
  { apply K3, recorded_has_key with (x := Some hC). by apply R2, R1. }
  rewrite E4. clear E4. exists f4. unfold ret.
  cbn [heap self _chain _files _latest_block].
  rewrite linked_linked, block_hash_linked. fold hC'. reflexivity.
Qed.

Lemma fork_walk f :
  walk (mkWorld [initial_block; linked (unlinked pB) hG;
                 linked (unlinked pC) hE; linked (unlinked pD) hB;
                 linked (unlinked pE) hD]
          (mkBlockchain chain5 f 2%nat))
    2%nat [4%nat; 3%nat; 1%nat; 0%nat].
Proof.
  pose proof hashes_ne as N.
  pose proof (N 0 1 _ _ eq_refl eq_refl ltac:(lia))%nat as N01.
  pose proof (N 0 2 _ _ eq_refl eq_refl ltac:(lia))%nat as N02.
  pose proof (N 0 4 _ _ eq_refl eq_refl ltac:(lia))%nat as N04.
  pose proof (N 0 5 _ _ eq_refl eq_refl ltac:(lia))%nat as N05.
  pose proof (N 1 2 _ _ eq_refl eq_refl ltac:(lia))%nat as N12.
  pose proof (N 1 3 _ _ eq_refl eq_refl ltac:(lia))%nat as N13.
  pose proof (N 1 4 _ _ eq_refl eq_refl ltac:(lia))%nat as N14.
  pose proof (N 1 5 _ _ eq_refl eq_refl ltac:(lia))%nat as N15.
  pose proof (N 1 6 _ _ eq_refl eq_refl ltac:(lia))%nat as N16.
  pose proof (N 2 3 _ _ eq_refl eq_refl ltac:(lia))%nat as N23.
  pose proof (N 2 4 _ _ eq_refl eq_refl ltac:(lia))%nat as N24.
  pose proof (N 2 5 _ _ eq_refl eq_refl ltac:(lia))%nat as N25.
  pose proof (N 2 6 _ _ eq_refl eq_refl ltac:(lia))%nat as N26.
  pose proof (N 3 4 _ _ eq_refl eq_refl ltac:(lia))%nat as N34.
  pose proof (N 3 5 _ _ eq_refl eq_refl ltac:(lia))%nat as N35.
  pose proof (N 4 5 _ _ eq_refl eq_refl ltac:(lia))%nat as N45.
  pose proof (N 4 6 _ _ eq_refl eq_refl ltac:(lia))%nat as N46.
  pose proof (N 5 6 _ _ eq_refl eq_refl ltac:(lia))%nat as N56.
  clear N.
  eapply walk_step; [reflexivity | | | ].
  { rewrite previous_block_hash_linked. congruence. }
  { rewrite previous_block_hash_linked. cbn [self _chain].
    unfold chain5, chain2. by lookups. }
  eapply walk_step; [reflexivity | | | ].
  { rewrite previous_block_hash_linked. congruence. }
  { rewrite previous_block_hash_linked. cbn [self _chain].
    unfold chain5, chain2. by lookups. }
  eapply walk_step; [reflexivity | | | ].
  { rewrite previous_block_hash_linked. congruence. }
  { rewrite previous_block_hash_linked. cbn [self _chain].
    unfold chain5, chain2. by lookups. }
  eapply walk_step; [reflexivity | | | ].
  { rewrite previous_block_hash_linked. congruence. }
  { rewrite previous_block_hash_linked. cbn [self _chain].
    unfold chain5, chain2. by lookups. }
  eapply walk_end; reflexivity.
Qed.


End Fork.

(** ** More of chain.py: [get_blocks_by_content] *)

(** The loop of [get_blocks_by_content] over the recorded block hashes. *)
Fixpoint get_blocks_by_content_loop (block_hashes : list (option bytes))
    (blocks : list loc) : M (list loc) :=
  match block_hashes with
  | [] => ret blocks
  | h :: rest =>
      let! s := get_self in
      match _chain s !! h with
      | None => raise KeyError
      | Some block => get_blocks_by_content_loop rest (blocks ++ [block])
      end
  end.

(** [get_blocks_by_content(block)]: both dictionaries are read with
    [get], which binds no missing key. *)
Definition get_blocks_by_content (block : loc) : M (list loc) :=
  let! b := get_block block in
  let! s := get_self in
  let file_blocks := default [] (_files s !! file_hash b) in
  match od_get (KBytes (content_hash b)) file_blocks with
  | None => get_blocks_by_content_loop [] []
  | Some (VList block_hashes) => get_blocks_by_content_loop block_hashes []
  | Some (VInt _) => raise TypeError
  end.

(** *** The per-file dictionaries, exactly *)

(** [d[k].append(x)] on a [defaultdict(list)] that holds lists under
    [k]. *)
Definition od_append (k : dkey) (x : option bytes) (d : odict) : odict :=
  match dd_getitem k d with
  | (VList l, d') => od_set k (VList (l ++ [x])) d'
  | (VInt _, d') => d'
  end.

(** What a successful [insert_block] of the block [b] (as linked) makes
    of the dictionary [d] of its file. *)
Definition record_block (b : Block) (d : odict) : odict :=
  od_append (KBytes (content_hash b)) (block_hash b)
    match d with
    | [] => [(KIndexAll, VInt (index_all b))]
    | _ => d
    end.

Lemma files_append_files fh k x w w' :
  files_append fh k x w = (Ret tt, w') ->
  _files (self w')
  = <[fh := od_append k x (default [] (_files (self w) !! fh))]>
      (_files (self w)).
Proof.
  unfold files_append, od_append. unfold_monad.
  destruct (dd_getitem k (default [] (_files (self w) !! fh))) as [[l|n] d'];
    [|done].
  by intros [= <-].
Qed.

Lemma insert_block_link_files new_block nb w w' :
  insert_block_link new_block w = (Ret tt, w') ->
  heap w !! new_block = Some nb ->
  forall nb', heap w' !! new_block = Some nb' ->
  _files (self w')
  = <[file_hash nb := od_append (KBytes (content_hash nb)) (block_hash nb')
                        (default [] (_files (self w) !! file_hash nb))]>
      (_files (self w)).
Proof.
  intros H Hnb nb' Hnb'.
  pose proof (insert_block_link_Ret _ _ _ H)
    as (nb0 & tip & h & H1 & H2 & H3 & H4 & _).
  rewrite Hnb in H1. injection H1 as <-.
  rewrite H4, list_lookup_insert_eq in Hnb' by (by eapply lookup_lt_Some).
  injection Hnb' as <-.
  revert H.
  unfold insert_block_link, bind at 1 2 3 4 5 6, get_block, get_self, lift,
    put_block, put_chain, set_previous_block_hash, set_block_hash.
  rewrite Hnb, H2, H3.
  cbn [previous_block_hash file_hash index_all chunk index content_hash
       block_hash heap self _chain _files _latest_block].
  unfold bind, put_latest_block.
  match goal with
  | |- context [files_append ?a ?b ?c ?d] =>
      destruct (files_append a b c d) as [[[]|e| |] w1] eqn:E; try done
  end.
  apply files_append_files in E. intros [= <-]. exact E.
Qed.

(** The files after a successful [insert_block]: the dictionary of the
    block's file has the block recorded, the others are as they were. *)
Lemma insert_block_files_exact new_block nb w w' :
  insert_block new_block w = (Ret tt, w') ->
  heap w !! new_block = Some nb ->
  forall nb', heap w' !! new_block = Some nb' ->
  _files (self w')
  = <[file_hash nb := record_block nb'
                        (default [] (_files (self w) !! file_hash nb))]>
      (_files (self w)).
Proof.
  intros H Hnb nb' Hnb'. revert H.
  unfold insert_block, bind at 1 2, get_block. rewrite Hnb.
  destruct (insert_block_check nb w) as [[[]|e| |] w1] eqn:E; try done.
  apply insert_block_check_Ret in E. destruct E as (E1 & E2 & E3 & E4).
  intros H.
  assert (Hnb1 : heap w1 !! new_block = Some nb) by (by rewrite E1).
  rewrite (insert_block_link_files _ _ _ _ H Hnb1 nb' Hnb').
  pose proof (insert_block_link_Ret _ _ _ H)
    as (nb0 & tip & h & H1 & H2 & H3 & H4 & _).
  rewrite Hnb1 in H1. injection H1 as <-.
  rewrite H4, list_lookup_insert_eq in Hnb' by (by eapply lookup_lt_Some).
  injection Hnb' as <-.
  unfold record_block. cbn [content_hash block_hash index_all linked].
  rewrite E4.
  destruct (_files (self w) !! file_hash nb) as [[|kv d]|] eqn:Hf; simpl.
  - rewrite lookup_insert_eq, insert_insert_eq. reflexivity.
  - by rewrite Hf.
  - rewrite lookup_insert_eq, insert_insert_eq. reflexivity.
Qed.

Lemma od_get_cons k k' v d :
  od_get k ((k', v) :: d) = if decide (k = k') then Some v else od_get k d.
Proof. reflexivity. Qed.

Lemma od_set_nil k v : od_set k v [] = [(k, v)].
Proof. reflexivity. Qed.

Lemma od_set_cons k v k' v' d :
  od_set k v ((k', v') :: d)
  = if decide (k = k') then (k, v) :: d else (k', v') :: od_set k v d.
Proof. reflexivity. Qed.

Lemma od_set_absent k v d :
  od_get k d = None -> od_set k v d = d ++ [(k, v)].
Proof.
  induction d as [|[k' v'] d IH]; [done|].
  rewrite od_get_cons, od_set_cons.
  destruct (decide (k = k')); [done|]. intros H. by rewrite IH.
Qed.

Lemma od_set_od_set k v v' d : od_set k v (od_set k v' d) = od_set k v d.
Proof.
  induction d as [|[k0 v0] d IH].
  - rewrite !od_set_nil, od_set_cons. by rewrite decide_True.
  - rewrite !od_set_cons. destruct (decide (k = k0)) as [->|Hne].
    + rewrite od_set_cons. by rewrite decide_True.
    + rewrite od_set_cons, decide_False by done. by rewrite IH.
Qed.

(** [od_append] under a key that holds a list, or none. *)
Lemma od_append_list k x l d :
  od_get k d = Some (VList l) ->
  od_append k x d = od_set k (VList (l ++ [x])) d.
Proof. intros H. unfold od_append, dd_getitem. by rewrite H. Qed.

Lemma od_append_absent k x d :
  od_get k d = None -> od_append k x d = d ++ [(k, VList [x])].
Proof.
  intros H. unfold od_append, dd_getitem. rewrite H. simpl.
  rewrite od_set_od_set. by apply od_set_absent.
Qed.

(** *** The dictionary of a file as a function of the blocks inserted *)

(** The blocks of the file [fh] with the content hash [c]. *)
Definition same_content (fh c : bytes) (bs : list Block) : list Block :=
  filter (fun b => file_hash b = fh /\ content_hash b = c) bs.

(** The blocks of the file [fh] that are the first of their content
    hash, in the order of [bs]. *)
Definition first_seen (fh : bytes) (bs : list Block) : list Block :=
  foldl (fun acc b =>
           if decide (file_hash b = fh /\
                      content_hash b ∉ map content_hash acc)
           then acc ++ [b] else acc) [] bs.

(** The entry of a content hash: the hashes of all its blocks. *)
Definition entry (fh : bytes) (bs : list Block) (f : Block) : dkey * dval :=
  (KBytes (content_hash f),
   VList (map block_hash (same_content fh (content_hash f) bs))).

(** The dictionary of the file [fh] once the blocks [bs] have been
    recorded, one after the other, starting from [d0]. *)
Definition file_dict (d0 : odict) (fh : bytes) (bs : list Block) : odict :=
  foldl (fun d b => if decide (file_hash b = fh) then record_block b d else d)
    d0 bs.

Lemma first_seen_snoc fh bs b :
  first_seen fh (bs ++ [b])
  = if decide (file_hash b = fh /\
               content_hash b ∉ map content_hash (first_seen fh bs))
    then first_seen fh bs ++ [b] else first_seen fh bs.
Proof. unfold first_seen. by rewrite foldl_app. Qed.

Lemma file_dict_snoc d0 fh bs b :
  file_dict d0 fh (bs ++ [b])
  = if decide (file_hash b = fh) then record_block b (file_dict d0 fh bs)
    else file_dict d0 fh bs.
Proof. unfold file_dict. by rewrite foldl_app. Qed.

Lemma same_content_snoc fh c bs b :
  same_content fh c (bs ++ [b])
  = if decide (file_hash b = fh /\ content_hash b = c)
    then same_content fh c bs ++ [b] else same_content fh c bs.
Proof.
  unfold same_content. rewrite filter_app.
  destruct (decide (file_hash b = fh /\ content_hash b = c)) as [H|H].
  - by rewrite filter_cons_True.
  - rewrite filter_cons_False by done. by rewrite app_nil_r.
Qed.

Lemma first_seen_file fh bs f :
  f ∈ first_seen fh bs -> file_hash f = fh /\ f ∈ bs.
Proof.
  induction bs as [|b bs IH] using rev_ind; [by intros ?%elem_of_nil|].
  rewrite first_seen_snoc. case_decide as Hd.
  - intros [H| ->%list_elem_of_singleton]%elem_of_app.
    + destruct (IH H). split; [done|]. apply elem_of_app. by left.
    + split; [tauto|]. apply elem_of_app. right. by apply list_elem_of_singleton.
  - intros H. destruct (IH H). split; [done|]. apply elem_of_app. by left.
Qed.

(** Every content hash of the file is the one of a first block. *)
Lemma first_seen_contents fh bs c :
  c ∈ map content_hash (first_seen fh bs)
  <-> c ∈ map content_hash (filter (fun b => file_hash b = fh) bs).
Proof.
  induction bs as [|b bs IH] using rev_ind; [done|].
  rewrite first_seen_snoc, filter_app.
  destruct (decide (file_hash b = fh)) as [Hf|Hf].
  - rewrite filter_cons_True by done. rewrite filter_nil, map_app, elem_of_app.
    simpl. rewrite list_elem_of_singleton, <- IH.
    case_decide as Hd.
    + rewrite map_app, elem_of_app. simpl. by rewrite list_elem_of_singleton.
    + split; [by left|]. intros [H| ->]; [done|].
      destruct (decide (content_hash b ∈ map content_hash (first_seen fh bs)));
        [done|]. exfalso. by apply Hd.
  - rewrite filter_cons_False, filter_nil, app_nil_r by done.
    rewrite decide_False by tauto. done.
Qed.

Lemma first_seen_NoDup fh bs : NoDup (map content_hash (first_seen fh bs)).
Proof.
  induction bs as [|b bs IH] using rev_ind; [constructor|].
  rewrite first_seen_snoc. case_decide as Hd; [|done].
  rewrite map_app. apply NoDup_app. split; [done|]. split.
  - intros x Hx [->|[]%elem_of_nil]%elem_of_cons. tauto.
  - apply NoDup_singleton.
Qed.

Lemma same_content_nil fh c bs :
  c ∉ map content_hash (filter (fun b => file_hash b = fh) bs) ->
  same_content fh c bs = [].
Proof.
  intros H. unfold same_content.
  induction bs as [|b bs IH]; [done|].
  destruct (decide (file_hash b = fh)) as [Hf|Hf].
  - rewrite filter_cons_True in H by done. simpl in H.
    apply not_elem_of_cons in H as [H1 H2].
    rewrite filter_cons_False by (intros [_ ?]; congruence). by apply IH.
  - rewrite filter_cons_False in H by done.
    rewrite filter_cons_False by tauto. by apply IH.
Qed.

Lemma od_get_entries fh bs c fs :
  od_get (KBytes c) (map (entry fh bs) fs)
  = if decide (c ∈ map content_hash fs)
    then Some (VList (map block_hash (same_content fh c bs))) else None.
Proof.
  induction fs as [|f fs IH]; [done|].
  cbn [map]. unfold entry at 1. rewrite od_get_cons.
  destruct (decide (KBytes c = KBytes (content_hash f))) as [[= ->]|Hne].
  - rewrite decide_True; [done|]. apply list_elem_of_here.
  - rewrite IH. destruct (decide (c ∈ map content_hash fs)) as [Hin|Hin].
    + rewrite decide_True; [done|]. by apply list_elem_of_further.
    + rewrite decide_False; [done|].
      intros [->|?]%elem_of_cons; [by apply Hne|done].
Qed.

Lemma entries_snoc_other fh bs b fs :
  content_hash b ∉ map content_hash fs ->
  map (entry fh (bs ++ [b])) fs = map (entry fh bs) fs.
Proof.
  intros H. apply map_ext_in. intros f Hf. unfold entry.
  rewrite same_content_snoc, decide_False; [done|].
  intros [_ Hc]. apply H. rewrite Hc. apply list_elem_of_In, in_map.
  exact Hf.
Qed.

Lemma od_set_entries fh bs b fs :
  file_hash b = fh ->
  NoDup (map content_hash fs) ->
  content_hash b ∈ map content_hash fs ->
  od_set (KBytes (content_hash b))
    (VList (map block_hash (same_content fh (content_hash b) bs)
            ++ [block_hash b]))
    (map (entry fh bs) fs)
  = map (entry fh (bs ++ [b])) fs.
Proof.
  intros Hf. induction fs as [|f fs IH]; [by intros _ ?%elem_of_nil|].
  cbn [map]. intros [Hnot Hnd]%NoDup_cons Hin.
  unfold entry at 1 3. rewrite od_set_cons.
  destruct (decide (KBytes (content_hash b) = KBytes (content_hash f)))
    as [[= Hc]|Hne].
  - rewrite <- Hc. rewrite same_content_snoc, decide_True by done.
    rewrite map_app. simpl. f_equal.
    symmetry. apply entries_snoc_other. by rewrite Hc.
  - rewrite same_content_snoc, decide_False by (intros [_ ?]; congruence).
    f_equal. apply IH; [done|].
    apply elem_of_cons in Hin as [Hin|Hin]; [congruence|done].
Qed.

(** The dictionary of a file, in closed form: ["index_all"] as the first
    block of the file said it, then one entry for each content hash in
    the order of first insertion. *)
Lemma file_dict_closed fh bs :
  file_dict [] fh bs
  = match filter (fun b => file_hash b = fh) bs with
    | [] => []
    | b0 :: _ =>
        (KIndexAll, VInt (index_all b0)) :: map (entry fh bs) (first_seen fh bs)
    end.
Proof.
  induction bs as [|b bs IH] using rev_ind; [done|].
  rewrite file_dict_snoc, filter_app, first_seen_snoc.
  destruct (decide (file_hash b = fh)) as [Hf|Hf].
  2:{ rewrite filter_cons_False, filter_nil, app_nil_r by done.
      rewrite decide_False by tauto. rewrite IH.
      destruct (filter _ bs) as [|b0 fl] eqn:E; [done|]. f_equal.
      apply map_ext_in. intros f Hin. unfold entry.
      rewrite same_content_snoc, decide_False; [done|]. tauto. }
  rewrite filter_cons_True, filter_nil by done. rewrite IH.
  pose proof (first_seen_contents fh bs (content_hash b)) as Hc.
  destruct (filter (fun b => file_hash b = fh) bs) as [|b0 fl] eqn:E.
  - assert (Hfs : first_seen fh bs = []).
    { destruct (first_seen fh bs) as [|f fs] eqn:Efs; [done|].
      pose proof (first_seen_contents fh bs (content_hash f)) as Hc'.
      rewrite Efs, E in Hc'. simpl in Hc'.
      exfalso. eapply not_elem_of_nil. apply Hc'. apply list_elem_of_here. }
    rewrite Hfs. simpl. rewrite decide_True by (split; [done|apply not_elem_of_nil]).
    unfold record_block. rewrite od_append_absent by done. simpl.
    unfold entry. rewrite same_content_snoc, decide_True by done.
    rewrite same_content_nil; [done|]. rewrite E. apply not_elem_of_nil.
  - simpl. unfold record_block.
    destruct (decide (content_hash b ∈ map content_hash (first_seen fh bs)))
      as [Hin|Hin].
    + rewrite decide_False by tauto.
      rewrite (od_append_list _ _
                 (map block_hash (same_content fh (content_hash b) bs))).
      2:{ rewrite od_get_cons, decide_False by done.
          by rewrite od_get_entries, decide_True. }
      rewrite od_set_cons, decide_False by done. f_equal.
      apply od_set_entries; [done|apply first_seen_NoDup|done].
    + rewrite decide_True by done.
      rewrite od_append_absent.
      2:{ rewrite od_get_cons, decide_False by done.
          by rewrite od_get_entries, decide_False. }
      simpl. f_equal. rewrite map_app. simpl.
      rewrite entries_snoc_other by done. f_equal.
      unfold entry. rewrite same_content_snoc, decide_True by done.
      rewrite same_content_nil; [done|]. rewrite E. intros H. by apply Hin, Hc.
Qed.

(** *** Chains built by [insert_block] alone, exactly *)

(** The blocks built from [ps] and linked one behind the other, the
    first behind a block of hash [h]. *)
Fixpoint blocks_from (ps : list block_args) (h : bytes) : list Block :=
  match ps with
  | [] => []
  | p :: ps' => linked (unlinked p) h :: blocks_from ps' (hash_after p h)
  end.

(** No empty dictionary is kept. *)
Definition nonempty (d : odict) : option odict :=
  match d with [] => None | _ => Some d end.

(** The dictionary of every file is the one of [Blockchain()] with the
    blocks of the heap after the initial one recorded in turn. *)
Definition files_exact (w : World) : Prop :=
  forall fh,
    _files (self w) !! fh
    = nonempty (file_dict (default [] (_files (self fresh) !! fh)) fh
                  (tail (heap w))).

Lemma od_set_nonempty k v d : od_set k v d <> [].
Proof.
  destruct d as [|[k' v'] d]; [done|]. rewrite od_set_cons. by case_decide.
Qed.

Lemma record_block_nonempty b d : record_block b d <> [].
Proof.
  unfold record_block, od_append, dd_getitem.
  destruct d as [|kv d]; repeat case_match; simplify_eq;
    try apply od_set_nonempty; done.
Qed.

Lemma nonempty_Some d : d <> [] -> nonempty d = Some d.
Proof. by destruct d. Qed.

Lemma default_nonempty d : default [] (nonempty d) = d.
Proof. by destruct d. Qed.

Lemma fresh_files_exact : files_exact fresh.
Proof.
  intros fh. rewrite fresh_heap. simpl.
  destruct (_files (self fresh) !! fh) as [d|] eqn:E; [|done].
  rewrite fresh_eq in E. simpl in E.
  apply lookup_singleton_Some in E as [_ <-]. done.
Qed.

Lemma insert_new_files p l w w' :
  insert_new (a_file_hash p) (a_index_all p) (a_chunk p) (a_index p) w
  = (Ret l, w') ->
  forall b', heap w' !! l = Some b' ->
  _files (self w')
  = <[a_file_hash p := record_block b'
                         (default [] (_files (self w) !! a_file_hash p))]>
      (_files (self w)).
Proof.
  intros H b' Hb'.
  unfold insert_new, new_Block, bind at 1 2, lift in H.
  destruct (Block_init (a_file_hash p) (a_index_all p) (a_chunk p)
              (a_index p) None) as [nb|e| |] eqn:Hinit; try done.
  apply Block_init_Ret in Hinit. destruct Hinit as [-> Hvalid].
  unfold bind in H.
  match type of H with
  | context [insert_block ?a ?b] =>
      destruct (insert_block a b) as [[[]|e| |] w1] eqn:E; try done
  end.
  injection H as <- <-.
  apply (insert_block_files_exact _ (unlinked p) _ _ E); [|done].
  cbn [heap]. by rewrite lookup_app_r, Nat.sub_diag.
Qed.

Lemma insert_new_exact p l w w' tip h :
  insert_new (a_file_hash p) (a_index_all p) (a_chunk p) (a_index p) w
  = (Ret l, w') ->
  linear w -> files_exact w ->
  heap w !! _latest_block (self w) = Some tip ->
  block_hash tip = Some h ->
  heap w' = heap w ++ [linked (unlinked p) h] /\
  heap w' !! _latest_block (self w') = Some (linked (unlinked p) h) /\
  linear w' /\ files_exact w'.
Proof.
  intros H Hlin Hex Htip Hh.
  pose proof (insert_new_Ret p l w w' H Hlin)
    as (tip' & h' & A1 & A2 & A3 & A4 & _ & _ & _ & _ & Hlin').
  rewrite Htip in A1. injection A1 as <-.
  rewrite Hh in A2. injection A2 as <-.
  assert (Hlast : heap w' !! l = Some (linked (unlinked p) h))
    by (by rewrite A4, A3, lookup_app_r, Nat.sub_diag).
  assert (Hl : _latest_block (self w') = l).
  { pose proof (lin_latest w' Hlin') as Hlat. rewrite A4, length_app in Hlat.
    simpl in Hlat. lia. }
  split; [done|]. split; [by rewrite Hl|]. split; [done|].
  intros fh. rewrite (insert_new_files p l w w' H _ Hlast), A4.
  assert (Hne : heap w <> []).
  { pose proof (lin_genesis w Hlin) as Hg. by destruct (heap w). }
  replace (tail (heap w ++ [linked (unlinked p) h]))
    with (tail (heap w) ++ [linked (unlinked p) h]) by (by destruct (heap w)).
  rewrite file_dict_snoc. cbn [file_hash linked unlinked].
  destruct (decide (a_file_hash p = fh)) as [<-|Hfh].
  - rewrite lookup_insert_eq, Hex, default_nonempty.
    symmetry. apply nonempty_Some, record_block_nonempty.
  - rewrite lookup_insert_ne by done. apply Hex.
Qed.

(** The heap after [insert_all]: the blocks built from the arguments,
    each linked behind the one before it. *)
Lemma insert_all_exact ps : forall w w' tip h,
  insert_all ps w = (Ret tt, w') ->
  linear w -> files_exact w ->
  heap w !! _latest_block (self w) = Some tip ->
  block_hash tip = Some h ->
  heap w' = heap w ++ blocks_from ps h /\ linear w' /\ files_exact w'.
Proof.
  induction ps as [|p ps IH]; intros w w' tip h H Hlin Hex Htip Hh.
  - injection H as <-. simpl. by rewrite app_nil_r.
  - unfold insert_all in H. simpl in H. unfold bind at 1 2 in H.
    destruct (insert_new _ _ _ _ w) as [[l|e| |] w1] eqn:E; try done.
    destruct (insert_new_exact p l w w1 tip h E Hlin Hex Htip Hh)
      as (B1 & B2 & B3 & B4).
    unfold ret at 1 in H.
    destruct (IH w1 w' _ (hash_after p h) H B3 B4 B2 eq_refl)
      as (C1 & C2 & C3).
    split; [|done]. rewrite C1, B1, <- app_assoc. done.
Qed.

Lemma insert_all_fresh ps w :
  insert_all ps fresh = (Ret tt, w) ->
  heap w = initial_block :: blocks_from ps genesis_hash /\
  linear w /\ files_exact w.
Proof.
  intros H.
  destruct (insert_all_exact ps fresh w initial_block genesis_hash H
              fresh_linear fresh_files_exact) as (H1 & H2 & H3).
  - by rewrite fresh_eq.
  - reflexivity.
  - by rewrite fresh_heap in H1.
Qed.

(** The dictionary of a file other than the one of the initial block. *)
Lemma files_exact_lookup w fh :
  files_exact w -> fh <> [] ->
  _files (self w) !! fh
  = match filter (fun b => file_hash b = fh) (tail (heap w)) with
    | [] => None
    | b0 :: _ =>
        Some ((KIndexAll, VInt (index_all b0))
              :: map (entry fh (tail (heap w))) (first_seen fh (tail (heap w))))
    end.
Proof.
  intros Hex Hfh. rewrite Hex.
  assert (Hd0 : _files (self fresh) !! fh = None).
  { rewrite fresh_eq. simpl. by rewrite lookup_singleton_ne. }
  rewrite Hd0. simpl. rewrite file_dict_closed.
  by destruct (filter (fun b => file_hash b = fh) (tail (heap w))).
Qed.

(** *** [contains_file] on a chain built by [insert_block] *)

Lemma contains_file_run (ps : list block_args) (w : World) (fh : bytes) :
  insert_all ps fresh = (Ret tt, w) ->
  fh <> [] ->
  contains_file fh w
  = (Ret match filter (fun b => file_hash b = fh)
                 (blocks_from ps genesis_hash) with
         | [] => false
         | b0 :: _ =>
             bool_decide
               (Z.of_nat (length (first_seen fh (blocks_from ps genesis_hash)))
                = index_all b0)
         end, w).
Proof.
  intros H Hfh. apply insert_all_fresh in H as (Hheap & _ & Hex).
  unfold contains_file, bind, get_self.
  pose proof (files_exact_lookup w fh Hex Hfh) as Hl.
  rewrite Hheap in Hl. simpl in Hl. rewrite Hl.
  destruct (filter (fun b => file_hash b = fh) (blocks_from ps genesis_hash))
    as [|b0 fl]; [done|].
  unfold dd_getitem. rewrite od_get_cons, decide_True by done.
  unfold put_files. rewrite insert_id by done. rewrite World_eta.
  unfold ret. f_equal. f_equal. apply bool_decide_ext.
  unfold od_len. simpl. rewrite length_map. lia.
Qed.

(** X1: on a chain built from [Blockchain()] by successful calls
    [insert_block(Block(...))], [contains_file(fh)] for a file hash
    other than the empty one changes nothing and returns [False] when no
    block of the file was inserted, and otherwise whether the number of
    distinct content hashes inserted for the file is the [index_all] of
    the first block inserted for it. *)
Theorem contains_file_inserted (ps : list block_args) (w : World) (fh : bytes) :
  insert_all ps fresh = (Ret tt, w) ->
  fh <> [] ->
  contains_file fh w
  = (Ret match filter (fun b => file_hash b = fh)
                 (blocks_from ps genesis_hash) with
         | [] => false
         | b0 :: _ =>
             bool_decide
               (Z.of_nat (length (first_seen fh (blocks_from ps genesis_hash)))
                = index_all b0)
         end, w).
Proof. apply contains_file_run. Qed.

(** *** [get_blocks_by_content] on a chain built by [insert_block] *)

(** Under a content hash a dictionary holds a list. *)
Definition dict_ok (d : odict) : Prop :=
  forall h v, od_get (KBytes h) d = Some v -> exists l, v = VList l.

(** The list a dictionary holds under [k]; none counts as empty. *)
Definition list_at (k : dkey) (d : odict) : list (option bytes) :=
  match od_get k d with Some (VList l) => l | _ => [] end.

Lemma od_get_od_append k k' x d :
  (forall v, od_get k d = Some v -> exists l, v = VList l) ->
  od_get k' (od_append k x d)
  = if decide (k' = k) then Some (VList (list_at k d ++ [x]))
    else od_get k' d.
Proof.
  intros Hok. unfold od_append, dd_getitem, list_at.
  destruct (od_get k d) as [[l|n]|] eqn:E.
  - apply od_get_od_set.
  - by destruct (Hok _ eq_refl).
  - rewrite !od_get_od_set. by case_decide.
Qed.

Lemma file_dict_get d0 fh bs c :
  dict_ok d0 ->
  od_get (KBytes c) (file_dict d0 fh bs)
  = match od_get (KBytes c) d0, same_content fh c bs with
    | None, [] => None
    | _, ms => Some (VList (list_at (KBytes c) d0 ++ map block_hash ms))
    end.
Proof.
  intros Hok. revert c.
  induction bs as [|b bs IH] using rev_ind; intros c.
  - simpl. unfold list_at.
    destruct (od_get (KBytes c) d0) as [v|] eqn:E; [|done].
    destruct (Hok _ _ E) as [l ->]. by rewrite app_nil_r.
  - rewrite file_dict_snoc, same_content_snoc.
    destruct (decide (file_hash b = fh)) as [Hf|Hf].
    2:{ rewrite decide_False by tauto. apply IH. }
    unfold record_block.
    set (D := file_dict d0 fh bs) in *.
    set (D' := match D with
               | [] => [(KIndexAll, VInt (index_all b))]
               | _ :: _ => D
               end).
    assert (HD : forall c', od_get (KBytes c') D' = od_get (KBytes c') D).
    { intros c'. subst D'. by destruct D. }
    rewrite od_get_od_append.
    2:{ intros v. rewrite HD, IH. repeat case_match; intros [= <-]; by eexists. }
    destruct (decide (KBytes c = KBytes (content_hash b))) as [[= ->]|Hne].
    + rewrite decide_True by done. unfold list_at at 1. rewrite HD, IH.
      rewrite map_app. simpl.
      destruct (od_get (KBytes (content_hash b)) d0) as [v|] eqn:E.
      * by rewrite app_assoc.
      * unfold list_at. rewrite E. simpl.
        destruct (same_content fh (content_hash b) bs) as [|b1 l1]; simpl;
          [done|]. by rewrite map_app.
    + rewrite decide_False by (intros [_ ?]; congruence).
      rewrite HD. apply IH.
Qed.

Lemma same_content_cons fh c b bs :
  same_content fh c (b :: bs)
  = if decide (file_hash b = fh /\ content_hash b = c)
    then b :: same_content fh c bs else same_content fh c bs.
Proof.
  unfold same_content. case_decide.
  - by rewrite filter_cons_True.
  - by rewrite filter_cons_False.
Qed.

(** The hashes recorded for a content hash of a file are those of the
    blocks of the heap with that file hash and content hash, in order. *)
Lemma files_exact_get w fh c :
  files_exact w ->
  heap w !! 0%nat = Some initial_block ->
  od_get (KBytes c) (default [] (_files (self w) !! fh))
  = match same_content fh c (heap w) with
    | [] => None
    | ms => Some (VList (map block_hash ms))
    end.
Proof.
  intros Hex Hg. rewrite Hex, default_nonempty.
  destruct (heap w) as [|g tl]; [done|]. injection Hg as ->.
  cbn [tail]. rewrite fresh_eq. cbn [_files self].
  rewrite same_content_cons. cbn [file_hash content_hash initial_block].
  destruct (decide (fh = [])) as [->|Hfh].
  - rewrite lookup_singleton_eq. cbn [default from_option id].
    rewrite file_dict_get.
    2:{ intros h v. rewrite od_get_cons. case_decide; [|done].
        intros [= <-]. by eexists. }
    unfold list_at. rewrite od_get_cons.
    cbn [file_hash content_hash block_hash initial_block].
    destruct (decide (KBytes c = KBytes (sha256 (payload [] 1 [] 0))))
      as [[= ->]|Hne].
    + by rewrite decide_True by done.
    + rewrite decide_False by (intros [_ ?]; congruence).
      unfold od_get.
      by destruct (same_content [] c tl).
  - rewrite lookup_singleton_ne by done. cbn [default from_option id].
    rewrite file_dict_get by (by intros h v).
    rewrite decide_False by (intros [? _]; congruence).
    unfold list_at, od_get.
    by destruct (same_content fh c tl).
Qed.

Lemma get_blocks_by_content_loop_run w hs : forall ls acc,
  Forall2 (fun h l => _chain (self w) !! h = Some l) hs ls ->
  get_blocks_by_content_loop hs acc w = (Ret (acc ++ ls), w).
Proof.
  induction hs as [|h hs IH]; intros ls acc Hall.
  - apply Forall2_nil_inv_l in Hall as ->. by rewrite app_nil_r.
  - apply Forall2_cons_inv_l in Hall as (l & ls' & Hl & Hall & ->).
    simpl. unfold bind, get_self. rewrite Hl, (IH ls') by done.
    by rewrite <- app_assoc.
Qed.

(** The block at [j], if any, satisfies [P]. *)
Definition block_at (bs : list Block) (P : Block -> Prop) (j : loc) : Prop :=
  match bs !! j with Some b => P b | None => False end.

#[global] Instance block_at_dec bs P `{forall b, Decision (P b)} j :
  Decision (block_at bs P j).
Proof. unfold block_at. destruct (bs !! j); apply _. Defined.

(** The locations of the blocks that satisfy [P], in ascending order. *)
Definition locs_of (bs : list Block) (P : Block -> Prop)
    `{forall b, Decision (P b)} : list loc :=
  filter (block_at bs P) (seq 0 (length bs)).

Lemma filter_ext_elem_of {A} (P Q : A -> Prop) `{forall x, Decision (P x)}
    `{forall x, Decision (Q x)} (l : list A) :
  (forall x, x ∈ l -> P x <-> Q x) -> filter P l = filter Q l.
Proof.
  induction l as [|a l IH]; intros Hext; [done|].
  assert (Ha : P a <-> Q a) by (apply Hext, list_elem_of_here).
  assert (Hl : filter P l = filter Q l).
  { apply IH. intros x Hx. by apply Hext, list_elem_of_further. }
  destruct (decide (P a)) as [Hp|Hp].
  - rewrite !filter_cons_True by tauto. by rewrite Hl.
  - rewrite !filter_cons_False by tauto. done.
Qed.

Lemma locs_of_snoc (P : Block -> Prop) `{forall b, Decision (P b)} bs x :
  locs_of (bs ++ [x]) P
  = locs_of bs P ++ (if decide (P x) then [length bs] else []).
Proof.
  unfold locs_of. rewrite length_app, Nat.add_1_r, seq_S, filter_app. simpl.
  f_equal.
  - apply filter_ext_elem_of. intros j Hj.
    apply elem_of_seq in Hj. unfold block_at. by rewrite lookup_app_l by lia.
  - assert (Hx : (bs ++ [x]) !! length bs = Some x)
      by (by rewrite lookup_app_r, Nat.sub_diag).
    destruct (decide (P x)) as [Hp|Hp].
    + rewrite filter_cons_True; [done|]. unfold block_at. by rewrite Hx.
    + rewrite filter_cons_False; [done|]. unfold block_at. by rewrite Hx.
Qed.

Lemma filter_locs (P : Block -> Prop) `{forall b, Decision (P b)} bs :
  Forall2 (fun b j => bs !! j = Some b) (filter P bs) (locs_of bs P).
Proof.
  induction bs as [|x bs IH] using rev_ind; [constructor|].
  rewrite locs_of_snoc, filter_app. apply Forall2_app.
  - eapply Forall2_impl; [exact IH|].
    intros b j Hb. simpl in Hb. rewrite lookup_app_l; [done|].
    by eapply lookup_lt_Some.
  - assert (Hx : (bs ++ [x]) !! length bs = Some x)
      by (by rewrite lookup_app_r, Nat.sub_diag).
    destruct (decide (P x)) as [Hp|Hp].
    + rewrite filter_cons_True by done. rewrite filter_nil. by constructor.
    + rewrite filter_cons_False by done. rewrite filter_nil. constructor.
Qed.

(** X2: on a chain built from [Blockchain()] by successful calls
    [insert_block(Block(...))], whose block hashes are pairwise
    distinct, [get_blocks_by_content] of a block of the chain changes
    nothing and returns the blocks of the chain that have the file hash
    and the content hash of that block, oldest first; the block itself
    is among them. *)
Theorem get_blocks_by_content_inserted (ps : list block_args) (w : World)
    (l : loc) (b : Block) :
  insert_all ps fresh = (Ret tt, w) ->
  NoDup (map block_hash (heap w)) ->
  heap w !! l = Some b ->
  get_blocks_by_content l w
  = (Ret (locs_of (heap w)
            (fun b' => file_hash b' = file_hash b /\
                       content_hash b' = content_hash b)), w) /\
  l ∈ locs_of (heap w)
        (fun b' => file_hash b' = file_hash b /\
                   content_hash b' = content_hash b).
Proof.
  intros H Hnd Hb. apply insert_all_fresh in H as (Hheap & Hlin & Hex).
  split.
  - unfold get_blocks_by_content, bind, get_block, get_self. rewrite Hb.
    rewrite (files_exact_get w _ _ Hex (lin_genesis w Hlin)).
    pose proof (filter_locs
                  (fun b' => file_hash b' = file_hash b /\
                             content_hash b' = content_hash b) (heap w))
      as Hlocs.
    fold (same_content (file_hash b) (content_hash b) (heap w)) in Hlocs.
    assert (Hrun : forall ms ls,
               Forall2 (fun b' j => heap w !! j = Some b') ms ls ->
               get_blocks_by_content_loop (map block_hash ms) [] w
               = (Ret ls, w)).
    { intros ms ls Hall.
      rewrite (get_blocks_by_content_loop_run w _ ls); [done|].
      apply Forall2_fmap_l. eapply Forall2_impl; [exact Hall|].
      intros b' j Hj. by apply linear_chain_lookup. }
    destruct (same_content (file_hash b) (content_hash b) (heap w))
      as [|m ms] eqn:E.
    + apply Forall2_nil_inv_l in Hlocs. by rewrite Hlocs.
    + by apply Hrun.
  - unfold locs_of. apply list_elem_of_filter. split.
    + unfold block_at. by rewrite Hb.
    + apply elem_of_seq. apply lookup_lt_Some in Hb. lia.
Qed.

(** *** [get_file_blocks] on a chain built by [insert_block] *)

(** A first block is the first of the blocks of its content hash. *)
Lemma first_seen_head fh bs f :
  f ∈ first_seen fh bs ->
  exists rest, same_content fh (content_hash f) bs = f :: rest.
Proof.
  induction bs as [|b bs IH] using rev_ind; [by intros ?%elem_of_nil|].
  rewrite first_seen_snoc, same_content_snoc. case_decide as Hd.
  - destruct Hd as [Hf Hc].
    intros [Hin| ->%list_elem_of_singleton]%elem_of_app.
    + rewrite decide_False.
      * by apply IH.
      * intros [_ Heq]. apply Hc. rewrite Heq.
        apply list_elem_of_fmap. by exists f.
    + rewrite decide_True by done. exists [].
      rewrite same_content_nil; [done|].
      by rewrite <- first_seen_contents.
  - intros Hin. destruct (IH Hin) as [rest ->]. case_decide; by eexists.
Qed.

(** [blocks.insert(block.index, block)] for one more block. *)
Definition place (blocks : list loc) (fl : Block * loc) : list loc :=
  py_list_insert (index fl.1) fl.2 blocks.

Lemma get_file_blocks_loop_run w fh bs : forall fs ls blocks,
  (forall f, f ∈ fs ->
     exists rest, same_content fh (content_hash f) bs = f :: rest) ->
  Forall2 (fun f l => heap w !! l = Some f /\
                      _chain (self w) !! block_hash f = Some l) fs ls ->
  get_file_blocks_loop (map snd (map (entry fh bs) fs)) blocks w
  = (Ret (foldl place blocks (zip fs ls)), w).
Proof.
  induction fs as [|f fs IH]; intros ls blocks Hhead Hall.
  - apply Forall2_nil_inv_l in Hall as ->. reflexivity.
  - apply Forall2_cons_inv_l in Hall as (l & ls' & [Hl Hc] & Hall & ->).
    destruct (Hhead f) as [rest Hrest]; [apply list_elem_of_here|].
    cbn [map snd entry]. rewrite Hrest. cbn [map get_file_blocks_loop].
    unfold bind at 1, get_self. rewrite Hc.
    unfold bind at 1, get_block. rewrite Hl.
    rewrite (IH ls'); [done| |done].
    intros f' Hf'. by apply Hhead, list_elem_of_further.
Qed.

Lemma Forall2_exists {A B} (R : A -> B -> Prop) (l : list A) :
  (forall a, a ∈ l -> exists b, R a b) -> exists k, Forall2 R l k.
Proof.
  induction l as [|a l IH]; intros H.
  - exists []. constructor.
  - destruct (H a) as [b Hb]; [apply list_elem_of_here|].
    destruct IH as [k Hk].
    { intros a' Ha'. by apply H, list_elem_of_further. }
    exists (b :: k). by constructor.
Qed.

(** What [get_file_blocks] does on a chain built by [insert_block]:
    the first block of every content hash of the file is placed, in the
    order in which the content hashes came. *)
Lemma get_file_blocks_run ps w fh :
  insert_all ps fresh = (Ret tt, w) ->
  NoDup (map block_hash (heap w)) ->
  fh <> [] ->
  exists ls,
    Forall2 (fun f l => heap w !! l = Some f)
      (first_seen fh (blocks_from ps genesis_hash)) ls /\
    get_file_blocks fh w
    = (Ret (foldl place []
              (zip (first_seen fh (blocks_from ps genesis_hash)) ls)), w).
Proof.
  intros H Hnd Hfh. apply insert_all_fresh in H as (Hheap & Hlin & Hex).
  set (bs := blocks_from ps genesis_hash) in *.
  destruct (Forall2_exists
              (fun f l => heap w !! l = Some f /\
                          _chain (self w) !! block_hash f = Some l)
              (first_seen fh bs)) as [ls Hls].
  { intros f Hf. apply first_seen_file in Hf as [_ Hf].
    assert (Hin : f ∈ heap w) by (rewrite Hheap; by apply list_elem_of_further).
    apply list_elem_of_lookup_1 in Hin as [l Hl]. exists l.
    split; [done|]. by apply linear_chain_lookup. }
  exists ls. split.
  { eapply Forall2_impl; [exact Hls|]. by intros f l [? _]. }
  unfold get_file_blocks, bind, get_self.
  pose proof (files_exact_lookup w fh Hex Hfh) as Hl.
  rewrite Hheap in Hl. cbn [tail] in Hl. fold bs in Hl. rewrite Hl.
  destruct (filter (fun b => file_hash b = fh) bs) as [|b0 fl] eqn:E.
  - assert (Hfs : first_seen fh bs = []).
    { destruct (first_seen fh bs) as [|f fs] eqn:Efs; [done|].
      pose proof (first_seen_contents fh bs (content_hash f)) as Hc.
      rewrite Efs, E in Hc. exfalso. eapply not_elem_of_nil.
      apply Hc. apply list_elem_of_here. }
    by rewrite Hfs.
  - cbn [default from_option id map snd get_file_blocks_loop].
    apply get_file_blocks_loop_run; [|done].
    intros f Hf. by apply first_seen_head.
Qed.

(** X3: on a chain built from [Blockchain()] by successful calls
    [insert_block(Block(...))], whose block hashes are pairwise
    distinct, [get_file_blocks(fh)] for a file hash other than the empty
    one changes nothing and returns one block for every content hash
    inserted for the file, the first one inserted with it; the blocks
    are put in the result by [list.insert] at their [index], in the
    order in which the content hashes were first inserted. *)
Theorem get_file_blocks_inserted (ps : list block_args) (w : World)
    (fh : bytes) :
  insert_all ps fresh = (Ret tt, w) ->
  NoDup (map block_hash (heap w)) ->
  fh <> [] ->
  exists ls,
    Forall2 (fun f l => heap w !! l = Some f)
      (first_seen fh (blocks_from ps genesis_hash)) ls /\
    get_file_blocks fh w
    = (Ret (foldl place []
              (zip (first_seen fh (blocks_from ps genesis_hash)) ls)), w).
Proof. apply get_file_blocks_run. Qed.

Lemma py_list_insert_end {A} (i : Z) (x : A) (l : list A) :
  Z.of_nat (length l) <= i -> py_list_insert i x l = l ++ [x].
Proof.
  intros Hi. unfold py_list_insert.
  replace (i <? 0) with false by (symmetry; apply Z.ltb_ge; lia).
  replace (i <? 0) with false by (symmetry; apply Z.ltb_ge; lia).
  destruct (Z.of_nat (length l) <? i) eqn:E.
  - by rewrite Nat2Z.id, firstn_all, drop_all.
  - apply Z.ltb_ge in E. replace i with (Z.of_nat (length l)) by lia.
    by rewrite Nat2Z.id, firstn_all, drop_all.
Qed.

(** Every element is less than the ones after it. *)
Definition ascending (l : list Z) : Prop :=
  forall i j x y, (i < j)%nat -> l !! i = Some x -> l !! j = Some y -> x < y.

Lemma ascending_cons x l :
  ascending (x :: l) -> ascending l /\ forall y, y ∈ l -> x < y.
Proof.
  intros H. split.
  - intros i j a b Hij Ha Hb. apply (H (S i) (S j)); [lia|done..].
  - intros y [j Hj]%list_elem_of_lookup_1. apply (H 0%nat (S j)); [lia|done..].
Qed.

Lemma ascending_two x y : x < y -> ascending [x; y].
Proof.
  intros Hxy i j a b Hij Hi Hj.
  destruct i as [|[|i]]; destruct j as [|[|j]]; simpl in Hi, Hj;
    try discriminate; try lia.
  injection Hi as <-. injection Hj as <-. done.
Qed.

(** Blocks placed with ascending indices, none below the length of the
    list so far, are appended. *)
Lemma foldl_place_sorted (fls : list (Block * loc)) : forall blocks,
  ascending (map (fun fl => index fl.1) fls) ->
  (forall fl, fl ∈ fls -> Z.of_nat (length blocks) <= index fl.1) ->
  foldl place blocks fls = blocks ++ map snd fls.
Proof.
  induction fls as [|fl fls IH]; intros blocks Hs Hle.
  - simpl. by rewrite app_nil_r.
  - simpl in *. apply ascending_cons in Hs as [Hs Hlt].
    unfold place at 2. rewrite py_list_insert_end
      by (apply Hle, list_elem_of_here).
    rewrite IH; [by rewrite <- app_assoc|done|].
    intros fl' Hfl'. rewrite length_app. simpl.
    assert (Z.of_nat (length blocks) <= index fl.1)
      by (apply Hle, list_elem_of_here).
    assert (index fl.1 < index fl'.1).
    { apply Hlt. apply list_elem_of_fmap. by exists fl'. }
    lia.
Qed.

Lemma blocks_from_valid ps : forall h f,
  Forall valid_args ps -> f ∈ blocks_from ps h -> 0 <= index f.
Proof.
  induction ps as [|p ps IH]; intros h f Hv Hf; [by apply elem_of_nil in Hf|].
  apply Forall_cons in Hv as [Hp Hv]. simpl in Hf.
  apply elem_of_cons in Hf as [->|Hf].
  - simpl. destruct Hp as [_ [? _]]. done.
  - by apply (IH (hash_after p h)).
Qed.

(** X4: on such a chain, when the content hashes of a file were first
    inserted with ascending [index], [get_file_blocks(fh)] returns the
    first block of every content hash in the order of insertion, and so
    with ascending [index]. *)
Theorem get_file_blocks_ascending (ps : list block_args) (w : World)
    (fh : bytes) :
  insert_all ps fresh = (Ret tt, w) ->
  NoDup (map block_hash (heap w)) ->
  fh <> [] ->
  ascending (map index (first_seen fh (blocks_from ps genesis_hash))) ->
  exists ls,
    get_file_blocks fh w = (Ret ls, w) /\
    Forall2 (fun l f => heap w !! l = Some f) ls
      (first_seen fh (blocks_from ps genesis_hash)).
Proof.
  intros H Hnd Hfh Hs.
  destruct (get_file_blocks_run ps w fh H Hnd Hfh) as (ls & Hls & Hrun).
  exists ls. split; [|by apply Forall2_flip].
  rewrite Hrun. f_equal. f_equal.
  pose proof (Forall2_length _ _ _ Hls) as Hlen.
  rewrite foldl_place_sorted.
  - simpl. apply snd_zip. lia.
  - rewrite <- (fst_zip (first_seen fh (blocks_from ps genesis_hash)) ls) in Hs
      by lia.
    by rewrite <- list_fmap_compose in Hs.
  - intros [f l] Hfl. simpl.
    apply insert_all_Ret in H as (_ & _ & _ & Hv & _); [|apply fresh_linear].
    apply (blocks_from_valid ps genesis_hash); [done|].
    apply elem_of_zip_l in Hfl.
    by apply first_seen_file in Hfl as [_ ?].
Qed.

(** *** When [insert_block] goes through *)

Lemma Block_init_unlinked p :
  valid_args p ->
  Block_init (a_file_hash p) (a_index_all p) (a_chunk p) (a_index p) None
  = Ret (unlinked p).
Proof.
  intros [H1 [H2 H3]]. unfold Block_init.
  replace (0 <? a_index_all p) with true by (symmetry; by apply Z.ltb_lt).
  replace (a_index p <? a_index_all p) with true
    by (symmetry; by apply Z.ltb_lt).
  replace (0 <=? a_index p) with true by (symmetry; by apply Z.leb_le).
  reflexivity.
Qed.

(** The file of [p] is not complete, or has the content hash of [p]. *)
Definition admissible (p : block_args) (bs : list Block) : Prop :=
  match filter (fun b => file_hash b = a_file_hash p) bs with
  | [] => True
  | b0 :: _ =>
      content_hash (unlinked p)
        ∈ map content_hash (first_seen (a_file_hash p) bs) \/
      Z.of_nat (length (first_seen (a_file_hash p) bs)) <> index_all b0
  end.

Lemma insert_block_check_progress p w bs :
  _files (self w) !! a_file_hash p
  = match filter (fun b => file_hash b = a_file_hash p) bs with
    | [] => None
    | b0 :: _ =>
        Some ((KIndexAll, VInt (index_all b0))
              :: map (entry (a_file_hash p) bs) (first_seen (a_file_hash p) bs))
    end ->
  admissible p bs ->
  exists w', insert_block_check (unlinked p) w = (Ret tt, w').
Proof.
  intros Hl Hadm. unfold admissible in Hadm.
  unfold insert_block_check, bind, get_self.
  cbn [file_hash content_hash index_all unlinked].
  rewrite Hl.
  destruct (filter (fun b => file_hash b = a_file_hash p) bs) as [|b0 fl].
  - unfold files_set_index_all, bind, get_self, put_files. by eexists.
  - unfold od_mem. rewrite od_get_cons, decide_False by done.
    rewrite od_get_entries.
    destruct (decide (sha256 (payload (a_file_hash p) (a_index_all p)
                                (a_chunk p) (a_index p))
                      ∈ map content_hash (first_seen (a_file_hash p) bs)))
      as [Hin|Hin]; cbn [negb].
    + by eexists.
    + unfold dd_getitem. rewrite od_get_cons, decide_True by done.
      unfold put_files. rewrite decide_False; [by eexists|].
      unfold od_len. cbn [length]. rewrite length_map.
      destruct Hadm as [Hc|Hn]; [done|]. lia.
Qed.

Lemma insert_new_progress p w tip h :
  linear w -> files_exact w ->
  heap w !! _latest_block (self w) = Some tip ->
  block_hash tip = Some h ->
  valid_args p ->
  a_file_hash p <> [] ->
  admissible p (tail (heap w)) ->
  exists w',
    insert_new (a_file_hash p) (a_index_all p) (a_chunk p) (a_index p) w
    = (Ret (length (heap w)), w').
Proof.
  intros Hlin Hex Htip Hh Hv Hfh Hadm.
  unfold insert_new, new_Block, bind at 1 2, lift.
  rewrite (Block_init_unlinked p Hv).
  set (w1 := mkWorld (heap w ++ [unlinked p]) (self w)).
  destruct (insert_block_check_progress p w1 (tail (heap w))) as [w2 Hc];
    [apply (files_exact_lookup w _ Hex Hfh)|done|].
  assert (Hok1 : files_ok (_files (self w1))) by apply (lin_files w Hlin).
  destruct (insert_block_check_run _ _ _ Hc Hok1) as (E1 & E2 & _).
  assert (Hlt : (_latest_block (self w) < length (heap w))%nat)
    by (by eapply lookup_lt_Some).
  destruct (insert_block_link_run (length (heap w)) (unlinked p) tip h w2)
    as (f' & Hlink & _).
  { rewrite E1. cbn [heap set_files w1]. by rewrite lookup_app_r, Nat.sub_diag. }
  { rewrite E1. cbn [heap self set_files w1 _latest_block].
    by rewrite lookup_app_l. }
  { done. }
  { done. }
  assert (Hib : exists w', insert_block (length (heap w)) w1 = (Ret tt, w')).
  { eexists. unfold insert_block, bind at 1, get_block.
    replace (heap w1 !! length (heap w)) with (Some (unlinked p))
      by (unfold w1; cbn [heap]; by rewrite lookup_app_r, Nat.sub_diag).
    unfold bind. rewrite Hc. exact Hlink. }
  destruct Hib as [w' Hib]. exists w'. unfold bind. by rewrite Hib.
Qed.

(** The inserts of [ps] go through when every block is valid, is of a
    file other than the one of the initial block, and finds its file
    incomplete or its content hash recorded. *)
Lemma insert_all_progress ps : forall w tip h,
  linear w -> files_exact w ->
  heap w !! _latest_block (self w) = Some tip ->
  block_hash tip = Some h ->
  (forall i p, ps !! i = Some p ->
     valid_args p /\ a_file_hash p <> [] /\
     admissible p (tail (heap w) ++ blocks_from (take i ps) h)) ->
  exists w', insert_all ps w = (Ret tt, w').
Proof.
  induction ps as [|p ps IH]; intros w tip h Hlin Hex Htip Hh Hall.
  - by eexists.
  - destruct (Hall 0%nat p eq_refl) as (Hv & Hfh & Hadm).
    simpl in Hadm. rewrite app_nil_r in Hadm.
    destruct (insert_new_progress p w tip h Hlin Hex Htip Hh Hv Hfh Hadm)
      as [w1 E].
    destruct (insert_new_exact p _ w w1 tip h E Hlin Hex Htip Hh)
      as (B1 & B2 & B3 & B4).
    destruct (IH w1 _ (hash_after p h) B3 B4 B2 eq_refl) as [w' Hw'].
    { intros i q Hq. destruct (Hall (S i) q Hq) as (Hv' & Hfh' & Hadm').
      split; [done|]. split; [done|].
      simpl in Hadm'. rewrite B1.
      pose proof (lin_genesis w Hlin) as Hg.
      replace (tail (heap w ++ [linked (unlinked p) h]))
        with (tail (heap w) ++ [linked (unlinked p) h])
        by (by destruct (heap w)).
      by rewrite <- app_assoc. }
    exists w'. unfold insert_all. simpl. unfold bind at 1 2. rewrite E.
    unfold ret at 1. exact Hw'.
Qed.

Lemma insert_all_app ps qs w :
  insert_all (ps ++ qs) w
  = (let! _ := insert_all ps in insert_all qs) w.
Proof.
  revert w. induction ps as [|p ps IH]; intros w; [done|].
  unfold insert_all in *. simpl. unfold bind at 1 2 4 5 6.
  destruct (insert_new _ _ _ _ w) as [[l|e| |] w1]; try done.
  unfold ret at 1 2. apply IH.
Qed.

Lemma blocks_from_app ps qs : forall h,
  exists h', blocks_from (ps ++ qs) h = blocks_from ps h ++ blocks_from qs h'.
Proof.
  induction ps as [|p ps IH]; intros h; [by exists h|].
  destruct (IH (hash_after p h)) as [h' Hh']. exists h'. simpl. by rewrite Hh'.
Qed.

Lemma blocks_from_length ps : forall h, length (blocks_from ps h) = length ps.
Proof. induction ps as [|p ps IH]; intros h; simpl; [done|]. by rewrite IH. Qed.

Lemma blocks_from_lookup ps : forall h i b,
  blocks_from ps h !! i = Some b ->
  exists p h', ps !! i = Some p /\ b = linked (unlinked p) h'.
Proof.
  induction ps as [|p ps IH]; intros h i b Hb; [done|].
  destruct i as [|i]; simpl in Hb.
  - injection Hb as <-. by exists p, h.
  - by apply (IH (hash_after p h)).
Qed.

Lemma blocks_from_fields (P : Block -> Prop) (Q : block_args -> Prop) ps h :
  (forall p h', Q p -> P (linked (unlinked p) h')) ->
  Forall Q ps -> Forall P (blocks_from ps h).
Proof.
  intros HPQ Hall. apply Forall_lookup. intros i b Hb.
  apply blocks_from_lookup in Hb as (p & h' & Hp & ->).
  apply HPQ. by eapply (Forall_lookup_1 Q ps).
Qed.

Lemma blocks_from_map {A} (f : Block -> A) (g : block_args -> A) ps :
  (forall p h', f (linked (unlinked p) h') = g p) ->
  forall h, map f (blocks_from ps h) = map g ps.
Proof.
  intros Hfg. induction ps as [|p ps IH]; intros h; simpl; [done|].
  by rewrite Hfg, IH.
Qed.

Lemma filter_none fh bs :
  Forall (fun b => file_hash b <> fh) bs ->
  filter (fun b => file_hash b = fh) bs = [].
Proof.
  induction 1 as [|b bs Hb _ IH]; [done|]. by rewrite filter_cons_False.
Qed.

Lemma filter_all fh bs :
  Forall (fun b => file_hash b = fh) bs ->
  filter (fun b => file_hash b = fh) bs = bs.
Proof.
  induction 1 as [|b bs Hb _ IH]; [done|]. by rewrite filter_cons_True, IH.
Qed.

Lemma first_seen_none fh bs :
  Forall (fun b => file_hash b <> fh) bs -> first_seen fh bs = [].
Proof.
  intros Hall. destruct (first_seen fh bs) as [|f fs] eqn:E; [done|].
  assert (Hf : f ∈ first_seen fh bs) by (rewrite E; left).
  apply first_seen_file in Hf as [Hf Hin].
  rewrite Forall_forall in Hall. by destruct (Hall f Hin).
Qed.

Lemma first_seen_app fh bs1 bs2 :
  Forall (fun b => file_hash b <> fh) bs1 ->
  first_seen fh (bs1 ++ bs2) = first_seen fh bs2.
Proof.
  intros H1. induction bs2 as [|b bs2 IH] using rev_ind.
  - rewrite app_nil_r. by apply first_seen_none.
  - by rewrite app_assoc, !first_seen_snoc, IH.
Qed.

Lemma first_seen_all fh bs :
  Forall (fun b => file_hash b = fh) bs ->
  NoDup (map content_hash bs) ->
  first_seen fh bs = bs.
Proof.
  induction bs as [|b bs IH] using rev_ind; [done|].
  intros [Hall Hb]%Forall_app Hnd. rewrite Forall_singleton in Hb.
  rewrite map_app in Hnd. apply NoDup_app in Hnd as (Hnd & Hnot & _).
  rewrite first_seen_snoc, IH by done.
  rewrite decide_True; [done|]. split; [done|].
  intros Hin. apply (Hnot _ Hin). simpl. apply list_elem_of_here.
Qed.

(** ** client.py: the blocks of a file *)

(** [send_file]: the blocks built from the chunks of a file, in the
    order in which they are sent. *)
Definition file_blocks (file_hash_digest : bytes) (chunks : list bytes)
    : list block_args :=
  imap (fun i chunk =>
          mkArgs file_hash_digest (Z.of_nat (length chunks)) chunk (Z.of_nat i))
    chunks.

Lemma file_blocks_lookup fh chunks i p :
  file_blocks fh chunks !! i = Some p ->
  exists ck, chunks !! i = Some ck /\
             p = mkArgs fh (Z.of_nat (length chunks)) ck (Z.of_nat i).
Proof.
  unfold file_blocks. rewrite list_lookup_imap.
  destruct (chunks !! i) as [ck|]; [|done]. intros [= <-]. by exists ck.
Qed.

Lemma file_blocks_length fh chunks :
  length (file_blocks fh chunks) = length chunks.
Proof. apply length_imap. Qed.

Lemma file_blocks_Forall (Q : block_args -> Prop) fh chunks :
  (forall i ck, chunks !! i = Some ck ->
     Q (mkArgs fh (Z.of_nat (length chunks)) ck (Z.of_nat i))) ->
  Forall Q (file_blocks fh chunks).
Proof.
  intros H. apply Forall_lookup. intros i p Hp.
  apply file_blocks_lookup in Hp as (ck & Hck & ->). by apply H.
Qed.

Lemma file_blocks_chunks fh chunks : map a_chunk (file_blocks fh chunks) = chunks.
Proof.
  apply list_eq. intros i. rewrite list_lookup_fmap. unfold file_blocks.
  rewrite list_lookup_imap. by destruct (chunks !! i).
Qed.

Lemma file_blocks_ascending fh chunks :
  ascending (map a_index (file_blocks fh chunks)).
Proof.
  intros i j x y Hij. rewrite !list_lookup_fmap. unfold file_blocks.
  rewrite !list_lookup_imap.
  destruct (chunks !! i); [|done]. destruct (chunks !! j); [|done].
  simpl. intros [= <-] [= <-]. lia.
Qed.

(** The latest block of a chain built by [insert_block] has a hash. *)
Lemma insert_all_tip ps w :
  insert_all ps fresh = (Ret tt, w) ->
  exists tip h, heap w !! _latest_block (self w) = Some tip /\
                block_hash tip = Some h.
Proof.
  intros H. apply insert_all_fresh in H as (Hheap & Hlin & _).
  pose proof (lin_latest w Hlin) as Hlat.
  destruct (lookup_lt_is_Some_2 (heap w) (_latest_block (self w)))
    as [tip Htip]; [lia|].
  assert (Hh : exists h, block_hash tip = Some h).
  { rewrite Hheap in Htip. destruct (_latest_block (self w)) as [|i].
    - injection Htip as <-. by eexists.
    - simpl in Htip.
      apply blocks_from_lookup in Htip as (p & h' & _ & ->). by eexists. }
  destruct Hh as [h Hh]. by exists tip, h.
Qed.

Lemma first_seen_length fh bs :
  (length (first_seen fh bs) <= length bs)%nat.
Proof.
  induction bs as [|b bs IH] using rev_ind; [done|].
  rewrite first_seen_snoc, length_app. simpl.
  case_decide; [rewrite length_app; simpl|]; lia.
Qed.

(** The first blocks are all the blocks when the content hashes are
    pairwise distinct, and only then. *)
Lemma first_seen_length_NoDup fh bs :
  Forall (fun b => file_hash b = fh) bs ->
  length (first_seen fh bs) = length bs <-> NoDup (map content_hash bs).
Proof.
  intros Hall. split; [|intros Hnd; by rewrite first_seen_all].
  induction bs as [|b bs IH] using rev_ind; [constructor|].
  apply Forall_app in Hall as [Hall Hb]. rewrite Forall_singleton in Hb.
  rewrite first_seen_snoc, length_app. simpl.
  pose proof (first_seen_length fh bs) as Hle.
  case_decide as Hd; [|lia].
  rewrite length_app. simpl. intros Hlen.
  assert (Hnd : NoDup (map content_hash bs)) by (apply IH; [done|lia]).
  rewrite map_app. apply NoDup_app. split; [done|]. split.
  - intros c Hc [->|[]%elem_of_nil]%elem_of_cons.
    destruct Hd as [_ Hd]. apply Hd.
    apply first_seen_contents. by rewrite filter_all.
  - apply NoDup_singleton.
Qed.

(** The blocks of a file sent whole to a chain that has none of it. *)
Lemma file_blocks_sent ps0 fh chunks h :
  Forall (fun p => a_file_hash p <> fh) ps0 ->
  forall i h',
    let bs := blocks_from ps0 h
              ++ blocks_from (take i (file_blocks fh chunks)) h' in
    Forall (fun b => file_hash b = fh)
      (blocks_from (take i (file_blocks fh chunks)) h') /\
    filter (fun b => file_hash b = fh) bs
    = blocks_from (take i (file_blocks fh chunks)) h' /\
    first_seen fh bs
    = first_seen fh (blocks_from (take i (file_blocks fh chunks)) h').
Proof.
  intros Hps0 i h' bs. subst bs.
  assert (H0 : Forall (fun b => file_hash b <> fh) (blocks_from ps0 h)).
  { eapply blocks_from_fields; [|exact Hps0]. by intros p h0 Hp. }
  assert (H1 : Forall (fun b => file_hash b = fh)
                 (blocks_from (take i (file_blocks fh chunks)) h')).
  { eapply (blocks_from_fields _ (fun p => a_file_hash p = fh)).
    - by intros p h0 Hp.
    - apply Forall_take. by apply file_blocks_Forall. }
  split; [done|]. split.
  - by rewrite filter_app, filter_none, filter_all.
  - by rewrite first_seen_app.
Qed.

(** The blocks [send_file] builds from the chunks of a file are all
    inserted in a chain that has no block of the file. *)
Lemma file_blocks_inserted ps0 w0 fh chunks :
  insert_all ps0 fresh = (Ret tt, w0) ->
  fh <> [] ->
  Forall (fun p => a_file_hash p <> fh) ps0 ->
  exists w h',
    insert_all (file_blocks fh chunks) w0 = (Ret tt, w) /\
    insert_all (ps0 ++ file_blocks fh chunks) fresh = (Ret tt, w) /\
    Forall (fun b => file_hash b = fh)
      (blocks_from (file_blocks fh chunks) h') /\
    filter (fun b => file_hash b = fh)
      (blocks_from (ps0 ++ file_blocks fh chunks) genesis_hash)
    = blocks_from (file_blocks fh chunks) h' /\
    first_seen fh (blocks_from (ps0 ++ file_blocks fh chunks) genesis_hash)
    = first_seen fh (blocks_from (file_blocks fh chunks) h').
Proof.
  intros H0 Hfh Hps0.
  set (n := length chunks).
  assert (Hn : length (file_blocks fh chunks) = n) by apply file_blocks_length.
  destruct (insert_all_tip ps0 w0 H0) as (tip & h0 & Htip & Hh0).
  pose proof (insert_all_fresh ps0 w0 H0) as (Hheap0 & Hlin0 & Hex0).
  destruct (insert_all_progress (file_blocks fh chunks) w0 tip h0
              Hlin0 Hex0 Htip Hh0) as [w Hw].
  { intros i p Hp. pose proof (lookup_lt_Some _ _ _ Hp) as Hi.
    apply file_blocks_lookup in Hp as (ck & Hck & ->).
    split; [|split; [done|]].
    - unfold valid_args. simpl. fold n. lia.
    - rewrite Hheap0. cbn [tail]. unfold admissible. cbn [a_file_hash].
      destruct (file_blocks_sent ps0 fh chunks genesis_hash Hps0 i h0)
        as (_ & -> & ->).
      pose proof (first_seen_length fh
                    (blocks_from (take i (file_blocks fh chunks)) h0)) as Hle.
      rewrite blocks_from_length, length_take in Hle.
      destruct (blocks_from (take i (file_blocks fh chunks)) h0)
        as [|b0 bl] eqn:E; [done|].
      right.
      assert (Hb0 : index_all b0 = Z.of_nat n).
      { assert (Hin : blocks_from (take i (file_blocks fh chunks)) h0
                      !! 0%nat = Some b0)
          by (by rewrite E).
        apply blocks_from_lookup in Hin as (p & h' & Hp & ->).
        apply lookup_take_Some in Hp as [Hp _].
        by apply file_blocks_lookup in Hp as (ck' & _ & ->). }
      rewrite Hb0. lia. }
  assert (Hall : insert_all (ps0 ++ file_blocks fh chunks) fresh = (Ret tt, w)).
  { rewrite insert_all_app. unfold bind. by rewrite H0. }
  destruct (blocks_from_app ps0 (file_blocks fh chunks) genesis_hash)
    as [h' Happ].
  destruct (file_blocks_sent ps0 fh chunks genesis_hash Hps0 n h')
    as (Hfile & Hfilter & Hfirst).
  rewrite firstn_all2 in Hfile, Hfilter, Hfirst by lia.
  rewrite <- Happ in Hfilter, Hfirst.
  by exists w, h'.
Qed.

(** The fields of the blocks of a file. *)
Lemma file_blocks_fields fh chunks h i b :
  blocks_from (file_blocks fh chunks) h !! i = Some b ->
  exists ck, chunks !! i = Some ck /\
             chunk b = ck /\ index b = Z.of_nat i /\
             index_all b = Z.of_nat (length chunks).
Proof.
  intros Hb. apply blocks_from_lookup in Hb as (p & h1 & Hp & ->).
  apply file_blocks_lookup in Hp as (ck & Hck & ->). by exists ck.
Qed.

Lemma file_blocks_contains_file ps0 w0 fh chunks :
  insert_all ps0 fresh = (Ret tt, w0) ->
  fh <> [] ->
  chunks <> [] ->
  Forall (fun p => a_file_hash p <> fh) ps0 ->
  exists w,
    insert_all (file_blocks fh chunks) w0 = (Ret tt, w) /\
    contains_file fh w
    = (Ret (bool_decide
              (NoDup (map (fun p => content_hash (unlinked p))
                        (file_blocks fh chunks)))), w).
Proof.
  intros H0 Hfh Hne Hps0.
  destruct (file_blocks_inserted ps0 w0 fh chunks H0 Hfh Hps0)
    as (w & h' & Hw & Hall & Hfile & Hfilter & Hfirst).
  exists w. split; [done|].
  rewrite (contains_file_run _ _ _ Hall Hfh), Hfilter, Hfirst.
  destruct (blocks_from (file_blocks fh chunks) h') as [|b0 bl] eqn:E.
  { exfalso. apply (f_equal length) in E.
    rewrite blocks_from_length, file_blocks_length in E.
    by destruct chunks. }
  destruct (file_blocks_fields fh chunks h' 0%nat b0) as (ck & _ & _ & _ & ->);
    [by rewrite E|].
  rewrite <- E in Hfile |- *. f_equal. f_equal. apply bool_decide_ext.
  rewrite <- (blocks_from_map content_hash
                (fun p => content_hash (unlinked p))
                (file_blocks fh chunks) (fun _ _ => eq_refl) h').
  rewrite <- (first_seen_length_NoDup fh) by done.
  rewrite blocks_from_length, file_blocks_length. lia.
Qed.

(** X5: a file sent whole.  On a chain built from [Blockchain()] by
    successful calls [insert_block(Block(...))] that has no block of the
    file [fh], the blocks [send_file] builds from the chunks of the file
    (one at least) are all inserted, in their order; afterwards
    [contains_file(fh)] returns [True] when the content hashes of these
    blocks are pairwise distinct, and [False] when two of them are the
    same. *)
Theorem file_blocks_complete (ps0 : list block_args) (w0 : World)
    (fh : bytes) (chunks : list bytes) :
  insert_all ps0 fresh = (Ret tt, w0) ->
  fh <> [] ->
  chunks <> [] ->
  Forall (fun p => a_file_hash p <> fh) ps0 ->
  exists w,
    insert_all (file_blocks fh chunks) w0 = (Ret tt, w) /\
    contains_file fh w
    = (Ret (bool_decide
              (NoDup (map (fun p => content_hash (unlinked p))
                        (file_blocks fh chunks)))), w).
Proof. apply file_blocks_contains_file. Qed.


(** X6: a file sent whole and read back.  In the same setting, when the
    content hashes of the blocks of the file are pairwise distinct, and
    so are the block hashes of the chain, [get_file_blocks(fh)] returns
    as many blocks as the file has chunks, and they carry the chunks of
    the file in their order. *)
Theorem file_blocks_round_trip (ps0 : list block_args) (w0 : World)
    (fh : bytes) (chunks : list bytes) :
  insert_all ps0 fresh = (Ret tt, w0) ->
  fh <> [] ->
  Forall (fun p => a_file_hash p <> fh) ps0 ->
  NoDup (map (fun p => content_hash (unlinked p)) (file_blocks fh chunks)) ->
  NoDup (map block_hash
           (initial_block
            :: blocks_from (ps0 ++ file_blocks fh chunks) genesis_hash)) ->
  exists w ls,
    insert_all (file_blocks fh chunks) w0 = (Ret tt, w) /\
    get_file_blocks fh w = (Ret ls, w) /\
    Forall2 (fun l ck => exists b, heap w !! l = Some b /\ chunk b = ck)
      ls chunks.
Proof.
  intros H0 Hfh Hps0 Hndc Hndh.
  destruct (file_blocks_inserted ps0 w0 fh chunks H0 Hfh Hps0)
    as (w & h' & Hw & Hall & Hfile & Hfilter & Hfirst).
  rewrite (first_seen_all fh (blocks_from (file_blocks fh chunks) h'))
    in Hfirst;
    [|done|by rewrite (blocks_from_map content_hash
                         (fun p => content_hash (unlinked p)))].
  pose proof (insert_all_fresh _ _ Hall) as (Hheap & _ & _).
  destruct (get_file_blocks_run (ps0 ++ file_blocks fh chunks) w fh Hall)
    as (ls & Hls & Hrun); [by rewrite Hheap|done|].
  rewrite Hfirst in Hls, Hrun.
  pose proof (Forall2_length _ _ _ Hls) as Hlen.
  rewrite blocks_from_length, file_blocks_length in Hlen.
  exists w, ls. split; [done|]. split.
  - rewrite Hrun, foldl_place_sorted.
    + simpl. f_equal. f_equal. apply snd_zip.
      rewrite blocks_from_length, file_blocks_length. lia.
    + replace (map (fun fl : Block * loc => index fl.1)
                 (zip (blocks_from (file_blocks fh chunks) h') ls))
        with (map index (blocks_from (file_blocks fh chunks) h')).
      * rewrite (blocks_from_map index a_index) by done.
        apply file_blocks_ascending.
      * rewrite <- (fst_zip (blocks_from (file_blocks fh chunks) h') ls)
          at 1 by (rewrite blocks_from_length, file_blocks_length; lia).
        by rewrite <- list_fmap_compose.
    + intros [f l] Hfl. simpl. apply elem_of_zip_l in Hfl.
      apply list_elem_of_lookup_1 in Hfl as [i Hi].
      destruct (file_blocks_fields _ _ _ _ _ Hi) as (_ & _ & _ & -> & _). lia.
  - apply Forall2_same_length_lookup. split; [lia|].
    intros i l ck Hl Hck.
    destruct (Forall2_lookup_r _ _ _ _ _ Hls Hl) as (f & Hf & Hlf).
    exists f. split; [done|].
    destruct (file_blocks_fields _ _ _ _ _ Hf) as (ck' & Hck' & <- & _).
    congruence.
Qed.

(** ** [verify_blocks_integrity] *)

(** Every block of [bs] names the hash of the block before it, the
    first one the hash of [a]. *)
Fixpoint chained_from (a : Block) (bs : list Block) : bool :=
  match bs with
  | [] => true
  | b :: rest =>
      bool_decide (block_hash a = previous_block_hash b) && chained_from b rest
  end.

(** Every block but the first names the hash of the block before it. *)
Definition chained (bs : list Block) : bool :=
  match bs with
  | [] => true
  | a :: rest => chained_from a rest
  end.

Lemma chained_from_snoc bs : forall x a b,
  chained_from x (bs ++ [a; b])
  = chained_from x (bs ++ [a])
    && bool_decide (block_hash a = previous_block_hash b).
Proof.
  induction bs as [|y bs IH]; intros x a b; simpl.
  - by rewrite !andb_true_r.
  - by rewrite IH, andb_assoc.
Qed.

Lemma chained_snoc bs a b :
  chained (bs ++ [a; b])
  = chained (bs ++ [a]) && bool_decide (block_hash a = previous_block_hash b).
Proof.
  destruct bs as [|x bs]; simpl.
  - by rewrite andb_true_r.
  - apply chained_from_snoc.
Qed.

Lemma rev_reverse {A} (l : list A) : rev l = reverse l.
Proof. apply rev_alt. Qed.

Lemma verify_blocks_integrity_loop_cons block before rest :
  verify_blocks_integrity_loop (block :: before :: rest)
  = (let! b := get_block block in
     let! p := get_block before in
     if decide (block_hash p = previous_block_hash b)
     then verify_blocks_integrity_loop (before :: rest)
     else ret (Some false)).
Proof. reflexivity. Qed.

Lemma verify_blocks_integrity_loop_run w : forall rls rbs,
  Forall2 (fun l b => heap w !! l = Some b) rls rbs ->
  verify_blocks_integrity_loop rls w
  = (Ret (if chained (rev rbs)
          then match last rbs with
               | Some b0 =>
                   match _chain (self w) !! previous_block_hash b0 with
                   | Some _ => Some true
                   | None => None
                   end
               | None => None
               end
          else Some false), w).
Proof.
  induction rls as [|l rls IH]; intros rbs Hall.
  - apply Forall2_nil_inv_l in Hall as ->. reflexivity.
  - apply Forall2_cons_inv_l in Hall as (b & rbs' & Hb & Hall & ->).
    destruct rls as [|l' rls'].
    + apply Forall2_nil_inv_l in Hall as ->. simpl.
      unfold bind, get_block, get_self. rewrite Hb.
      by destruct (_chain (self w) !! previous_block_hash b).
    + pose proof Hall as Hall'.
      apply Forall2_cons_inv_l in Hall' as (b' & rbs'' & Hb' & _ & ->).
      rewrite verify_blocks_integrity_loop_cons.
      unfold bind at 1. unfold get_block at 1. rewrite Hb.
      unfold bind at 1. unfold get_block at 1. rewrite Hb'.
      replace (rev (b :: b' :: rbs'')) with (rev rbs'' ++ [b'; b])
        by (simpl; by rewrite <- app_assoc).
      rewrite chained_snoc. change (rev rbs'' ++ [b']) with (rev (b' :: rbs'')).
      destruct (decide (block_hash b' = previous_block_hash b)) as [Hd|Hd].
      * rewrite (IH _ Hall), bool_decide_eq_true_2, andb_true_r by done.
        done.
      * rewrite bool_decide_eq_false_2, andb_false_r by done. done.
Qed.

(** X8: [verify_blocks_integrity(blocks)] changes nothing and returns
    [False] when some block of the list does not name the hash of the
    block before it in the list; otherwise [True] when the first block
    names the hash of a block of the chain, and [None] when it does not,
    or when the list is empty. *)
Theorem verify_blocks_integrity_result (w : World) (blocks : list loc)
    (bs : list Block) :
  Forall2 (fun l b => heap w !! l = Some b) blocks bs ->
  verify_blocks_integrity blocks w
  = (Ret (if chained bs
          then match head bs with
               | Some b0 =>
                   match _chain (self w) !! previous_block_hash b0 with
                   | Some _ => Some true
                   | None => None
                   end
               | None => None
               end
          else Some false), w).
Proof.
  intros Hall. unfold verify_blocks_integrity.
  rewrite (verify_blocks_integrity_loop_run w (rev blocks) (rev bs)).
  - by rewrite rev_involutive, rev_reverse, last_reverse.
  - rewrite !rev_reverse. by apply Forall2_reverse.
Qed.

(** ** The blocks by hash *)

(** The dictionary from the hash of every block of [bs] to its place. *)
Definition chain_of (bs : list Block) : gmap (option bytes) loc :=
  list_to_map (imap (fun j b => (block_hash b, j)) bs).

Lemma chain_of_keys bs :
  (imap (fun j b => (block_hash b, j)) bs).*1 = map block_hash bs.
Proof.
  apply list_eq. intros i.
  rewrite !list_lookup_fmap, list_lookup_imap. by destruct (bs !! i).
Qed.

Lemma chain_of_lookup bs k j :
  NoDup (map block_hash bs) ->
  chain_of bs !! k = Some j <-> exists b, bs !! j = Some b /\ block_hash b = k.
Proof.
  intros Hnd. unfold chain_of.
  rewrite <- elem_of_list_to_map by (by rewrite chain_of_keys).
  rewrite elem_of_lookup_imap. split.
  - intros (i & b & [= -> ->] & Hb). by exists b.
  - intros (b & Hb & <-). by exists j, b.
Qed.

Lemma chain_of_size bs :
  NoDup (map block_hash bs) -> size (chain_of bs) = length bs.
Proof.
  intros Hnd. unfold chain_of.
  rewrite map_size_list_to_map by (by rewrite chain_of_keys).
  apply length_imap.
Qed.

(** On a linear world with distinct block hashes the blocks by hash are
    the blocks of the heap. *)
Lemma linear_chain_of w :
  linear w -> NoDup (map block_hash (heap w)) ->
  _chain (self w) = chain_of (heap w).
Proof.
  intros Hlin Hnd. apply map_eq. intros k. apply option_eq. intros j.
  rewrite chain_of_lookup by done. split.
  - apply (lin_dom w Hlin).
  - intros (b & Hb & <-). by apply linear_chain_lookup.
Qed.

(** X9: on a chain built from [Blockchain()] by successful calls
    [insert_block(Block(...))], whose block hashes are pairwise
    distinct, [len] is the number of inserted blocks and one, the
    initial block; [latest_block] is the block inserted last;
    [get_block_by_hash] returns every block of the chain for its hash,
    and [None] for a hash that no block of the chain has. *)
Theorem len_inserted (ps : list block_args) (w : World) :
  insert_all ps fresh = (Ret tt, w) ->
  NoDup (map block_hash (heap w)) ->
  len w = (Ret (Z.of_nat (S (length ps))), w) /\
  latest_block w = (Ret (length ps), w) /\
  (forall l b, heap w !! l = Some b ->
     get_block_by_hash (block_hash b) w = (Ret (Some l), w)) /\
  (forall h, h ∉ map block_hash (heap w) ->
     get_block_by_hash h w = (Ret None, w)).
Proof.
  intros H Hnd. apply insert_all_fresh in H as (Hheap & Hlin & _).
  assert (Hlen : length (heap w) = S (length ps))
    by (by rewrite Hheap; simpl; rewrite blocks_from_length).
  split; [|split; [|split]].
  - unfold len, bind, get_self, ret.
    by rewrite (linear_chain_of w Hlin Hnd), chain_of_size, Hlen.
  - unfold latest_block, bind, get_self, ret.
    pose proof (lin_latest w Hlin) as Hlat. rewrite Hlen in Hlat.
    by injection Hlat as ->.
  - intros l b Hb. unfold get_block_by_hash, bind, get_self, ret.
    by rewrite (linear_chain_lookup w l b).
  - intros h Hh. unfold get_block_by_hash, bind, get_self, ret.
    destruct (_chain (self w) !! h) as [j|] eqn:E; [|done].
    destruct (lin_dom w Hlin h j E) as (b & Hb & <-).
    exfalso. apply Hh. apply list_elem_of_fmap. exists b. split; [done|].
    by eapply list_elem_of_lookup_2.
Qed.

(** ** [Blockchain(chain)]: a chain built from the list of another *)

Lemma Blockchain_init_seed_step_run l b w :
  heap w !! l = Some b ->
  files_ok (_files (self w)) ->
  exists f',
    Blockchain_init_seed_step l w
    = (Ret tt,
       mkWorld (heap w)
         (mkBlockchain (<[block_hash b := l]> (_chain (self w))) f'
            (_latest_block (self w)))) /\
    files_ok f'.
Proof.
  intros Hb Hok.
  unfold Blockchain_init_seed_step, bind at 1 2 3, get_block, get_self,
    put_chain.
  rewrite Hb.
  set (w1 := mkWorld (heap w)
               (mkBlockchain (<[block_hash b := l]> (_chain (self w)))
                  (_files (self w)) (_latest_block (self w)))).
  destruct (files_append_run (file_hash b) (content_hash b) (block_hash b) w1)
    as (f1 & E1 & F1 & _); [done|].
  unfold bind at 1. rewrite E1.
  destruct (files_set_index_all_run (file_hash b) (index_all b)
              (set_files f1 w1)) as (f2 & E2 & F2 & _); [done|].
  rewrite E2. by exists f2.
Qed.

(** The blocks by hash once the blocks at [ls] have been entered. *)
Definition seeded (bs : list Block) (ls : list loc)
    (m : gmap (option bytes) loc) : gmap (option bytes) loc :=
  foldl (fun m l => match bs !! l with
                    | Some b => <[block_hash b := l]> m
                    | None => m
                    end) m ls.

Lemma for_each_seed_run w ls : forall c f l0,
  Forall (fun l => is_Some (heap w !! l)) ls ->
  files_ok f ->
  exists f',
    for_each Blockchain_init_seed_step ls
      (mkWorld (heap w) (mkBlockchain c f l0))
    = (Ret tt, mkWorld (heap w) (mkBlockchain (seeded (heap w) ls c) f' l0)) /\
    files_ok f'.
Proof.
  induction ls as [|l ls IH]; intros c f l0 Hall Hok.
  - by exists f.
  - apply Forall_cons in Hall as [[b Hb] Hall].
    destruct (Blockchain_init_seed_step_run l b
                (mkWorld (heap w) (mkBlockchain c f l0)) Hb Hok)
      as (f1 & E1 & F1).
    cbn [heap self _chain _files _latest_block] in E1.
    destruct (IH (<[block_hash b := l]> c) f1 l0 Hall F1) as (f2 & E2 & F2).
    exists f2. split; [|done].
    cbn [for_each]. unfold bind. rewrite E1, E2.
    unfold seeded. simpl. by rewrite Hb.
Qed.

Lemma seeded_lookup bs ls k j :
  NoDup (map block_hash bs) ->
  Forall (fun l => is_Some (bs !! l)) ls ->
  seeded bs ls ∅ !! k = Some j
  <-> j ∈ ls /\ exists b, bs !! j = Some b /\ block_hash b = k.
Proof.
  intros Hnd. induction ls as [|l ls IH] using rev_ind; intros Hall.
  - unfold seeded. simpl. rewrite lookup_empty. split; [done|].
    by intros [?%elem_of_nil _].
  - apply Forall_app in Hall as [Hall Hl]. rewrite Forall_singleton in Hl.
    destruct Hl as [b Hb]. unfold seeded in *. rewrite foldl_app. simpl.
    rewrite Hb. destruct (decide (block_hash b = k)) as [<-|Hne].
    + rewrite lookup_insert_eq. split.
      * intros [= <-]. split; [|by exists b].
        apply elem_of_app. right. by apply list_elem_of_singleton.
      * intros (_ & b' & Hb' & Heq). f_equal.
        eapply (NoDup_lookup (map block_hash bs)); [done| |].
        -- by rewrite list_lookup_fmap, Hb.
        -- rewrite list_lookup_fmap, Hb'. simpl. by rewrite Heq.
    + rewrite lookup_insert_ne by done. rewrite IH by done.
      rewrite elem_of_app, list_elem_of_singleton. split.
      * intros [? ?]. split; [by left|done].
      * intros [[?| ->] (b' & Hb' & Heq)]; [by eauto|].
        rewrite Hb in Hb'. injection Hb' as <-. done.
Qed.

(** Entering every block of the heap gives the blocks by hash of the
    heap, whatever the order. *)
Lemma seeded_chain_of bs :
  NoDup (map block_hash bs) ->
  seeded bs (rev (seq 0 (length bs))) ∅ = chain_of bs.
Proof.
  intros Hnd. apply map_eq. intros k. apply option_eq. intros j.
  rewrite chain_of_lookup by done.
  rewrite seeded_lookup; [|done|].
  - split; [by intros [_ ?]|]. intros (b & Hb & Hk). split; [|by exists b].
    rewrite rev_reverse, elem_of_reverse, elem_of_seq.
    apply lookup_lt_Some in Hb. lia.
  - apply Forall_forall. intros l.
    rewrite rev_reverse, elem_of_reverse, elem_of_seq. intros Hl.
    apply lookup_lt_is_Some_2. lia.
Qed.

(** X10: a chain rebuilt from its own list.  On a chain built from
    [Blockchain()] by successful calls [insert_block(Block(...))], whose
    block hashes are pairwise distinct and not empty, the list [chain]
    returns, given to the constructor, makes a chain over the same
    blocks with the same blocks by hash and the same latest block;
    [chain] and [verify_integrity()] return on it what they return on
    the first chain. *)
Theorem Blockchain_init_chain (ps : list block_args) (w : World)
    (fuel : nat) :
  insert_all ps fresh = (Ret tt, w) ->
  NoDup (Some [] :: map block_hash (heap w)) ->
  (length ps <= fuel)%nat ->
  exists c r w2,
    chain fuel w = (Ret c, w) /\
    verify_integrity fuel w = (Ret r, w) /\
    Blockchain_init (Some c) (heap w) = (Ret tt, w2) /\
    heap w2 = heap w /\
    _chain (self w2) = _chain (self w) /\
    _latest_block (self w2) = _latest_block (self w) /\
    chain fuel w2 = (Ret c, w2) /\
    verify_integrity fuel w2 = (Ret r, w2).
Proof.
  intros H Hnd Hfuel. apply insert_all_fresh in H as (Hheap & Hlin & _).
  pose proof Hnd as [_ Hnd']%NoDup_cons.
  assert (Hlen : length (heap w) = S (length ps))
    by (by rewrite Hheap; simpl; rewrite blocks_from_length).
  pose proof (lin_latest w Hlin) as Hlat. rewrite Hlen in Hlat.
  injection Hlat as Hlat.
  assert (Hchain : forall w',
            linear w' -> heap w' = heap w ->
            _latest_block (self w') = length ps ->
            chain fuel w' = (Ret (rev (seq 0 (S (length ps)))), w')).
  { intros w' Hlin' Hh' Hl'.
    destruct (lookup_lt_is_Some_2 (heap w') (length ps)) as [b Hb];
      [rewrite Hh'; lia|].
    unfold chain, bind, get_self. rewrite Hl'.
    rewrite (chain_loop_linear w' Hlin') with (b := b);
      [|by rewrite Hh'|done..].
    by rewrite (seq_S (length ps)), rev_app_distr. }
  destruct (for_each_seed_run w (rev (seq 0 (S (length ps)))) ∅ ∅
              (length ps)) as (f2 & Hseed & Hok2).
  { apply Forall_forall. intros l.
    rewrite rev_reverse, elem_of_reverse, elem_of_seq. intros Hl.
    apply lookup_lt_is_Some_2. lia. }
  { by intros fh d h v ?. }
  rewrite <- Hlen, seeded_chain_of, <- (linear_chain_of w Hlin) in Hseed
    by done.
  set (w2 := mkWorld (heap w)
               (mkBlockchain (_chain (self w)) f2 (length ps))) in *.
  assert (Hlin2 : linear w2).
  { destruct Hlin as [L1 L2 L3 L4 L5 L6].
    split; first [done | unfold w2; simpl; lia]. }
  exists (rev (seq 0 (S (length ps)))),
    (bool_decide (size (foldr count_block ∅ (heap w)) = 0%nat)), w2.
  split; [by apply Hchain|].
  split; [apply verify_integrity_linear; [done..|lia]|].
  split.
  { assert (Hc : rev (seq 0 (length (heap w)))
                 = length ps :: rev (seq 0 (length ps)))
      by (by rewrite Hlen, seq_S, rev_app_distr).
    rewrite <- Hlen, Hc. rewrite Hc in Hseed.
    unfold Blockchain_init, bind, put_latest_block.
    cbn [heap self _chain _files _latest_block]. exact Hseed. }
  split; [done|]. split; [done|]. split; [by rewrite Hlat|].
  split; [by apply Hchain|].
  apply (verify_integrity_linear w2); [done|done|]. simpl. lia.
Qed.

(** ** [merge_blocks] with blocks that follow the latest block *)

(** Every block of the heap but the first names the hash of the block
    before it. *)
Definition heap_linked (hp : list Block) : Prop :=
  forall i b, hp !! S i = Some b ->
    exists p h, hp !! i = Some p /\ block_hash p = Some h /\
                previous_block_hash b = Some h.

Lemma heap_linked_snoc hp tip h b :
  heap_linked hp ->
  last hp = Some tip -> block_hash tip = Some h ->
  previous_block_hash b = Some h ->
  heap_linked (hp ++ [b]).
Proof.
  intros Hl Hlast Hh Hp i x Hx.
  assert (Hlen : hp !! (length hp - 1)%nat = Some tip).
  { rewrite last_lookup in Hlast. by replace (length hp - 1)%nat
      with (pred (length hp)) by lia. }
  pose proof (lookup_lt_Some _ _ _ Hlen) as Hlt.
  destruct (decide (S i < length hp)%nat) as [Hi|Hi].
  - rewrite lookup_app_l in Hx by done.
    destruct (Hl i x Hx) as (p & h' & H1 & H2 & H3).
    exists p, h'. rewrite lookup_app_l by lia. done.
  - assert (S i = length hp).
    { apply lookup_lt_Some in Hx. rewrite length_app in Hx. simpl in Hx. lia. }
    rewrite lookup_app_r, H, Nat.sub_diag in Hx by lia. injection Hx as <-.
    exists tip, h. rewrite lookup_app_l by lia.
    replace i with (length hp - 1)%nat by lia. done.
Qed.

Lemma heap_linked_blocks_from qs : forall hp tip h,
  heap_linked hp ->
  last hp = Some tip -> block_hash tip = Some h ->
  heap_linked (hp ++ blocks_from qs h).
Proof.
  induction qs as [|q qs IH]; intros hp tip h Hl Hlast Hh.
  - simpl. by rewrite app_nil_r.
  - simpl. rewrite cons_middle, app_assoc.
    apply (IH _ (linked (unlinked q) h)).
    + by apply (heap_linked_snoc hp tip h).
    + by rewrite last_snoc.
    + reflexivity.
Qed.

Lemma elem_of_rev_seq j a m :
  j ∈ rev (seq a m) <-> (a <= j < a + m)%nat.
Proof. by rewrite rev_reverse, elem_of_reverse, elem_of_seq. Qed.

Lemma seeded_snoc bs ls l b m :
  bs !! l = Some b ->
  seeded bs (ls ++ [l]) m = <[block_hash b := l]> (seeded bs ls m).
Proof. intros Hb. unfold seeded. rewrite foldl_app. simpl. by rewrite Hb. Qed.

(** The first loop of [merge_blocks] over the [k] blocks from [n] on,
    last first, when the blocks after them are entered already and the
    block before them is in the chain. *)
Lemma merge_blocks_scan_ff hp n K lat :
  heap_linked hp ->
  NoDup (map block_hash hp) ->
  (1 <= n)%nat ->
  length hp = (n + K)%nat ->
  forall k, (k <= K)%nat -> forall f added,
    files_ok f ->
    exists f',
      merge_blocks_scan (rev (seq n k)) (None, added)
        (mkWorld hp
           (mkBlockchain
              (seeded hp (rev (seq 0 n) ++ rev (seq (n + k) (K - k))) ∅)
              f lat))
      = (Ret (match k with O => None | S _ => Some (n - 1)%nat end,
              added ++ rev (seq n k)),
         mkWorld hp
           (mkBlockchain (seeded hp (rev (seq 0 n) ++ rev (seq n K)) ∅)
              f' lat)) /\
      files_ok f'.
Proof.
  intros Hlinked Hnd Hn Hlen.
  assert (Hvalid : forall ls,
            (forall l, l ∈ ls -> (l < n + K)%nat) ->
            Forall (fun l => is_Some (hp !! l)) ls).
  { intros ls Hls. apply Forall_forall. intros l Hl.
    apply lookup_lt_is_Some_2. rewrite Hlen. by apply Hls. }
  induction k as [|k IH]; intros Hk f added Hok.
  - exists f. split; [|done]. simpl.
    by rewrite Nat.add_0_r, Nat.sub_0_r, app_nil_r.
  - set (l := (n + k)%nat).
    destruct (lookup_lt_is_Some_2 hp l) as [b Hb]; [lia|].
    set (done0 := rev (seq 0 n) ++ rev (seq (n + S k) (K - S k))).
    set (done1 := rev (seq 0 n) ++ rev (seq (n + k) (K - k))).
    assert (Hdone : done1 = done0 ++ [l]).
    { unfold done0, done1.
      replace (K - k)%nat with (S (K - S k)) by lia.
      cbn [seq rev]. rewrite Nat.add_succ_r. by rewrite app_assoc. }
    assert (Hin0 : forall j, j ∈ done0
                    <-> (j < n \/ n + S k <= j < n + K)%nat).
    { intros j. unfold done0. rewrite elem_of_app, !elem_of_rev_seq. lia. }
    assert (Hin1 : forall j, j ∈ done1
                    <-> (j < n \/ n + k <= j < n + K)%nat).
    { intros j. unfold done1. rewrite elem_of_app, !elem_of_rev_seq. lia. }
    assert (Habsent : seeded hp done0 ∅ !! block_hash b = None).
    { destruct (seeded hp done0 ∅ !! block_hash b) as [j|] eqn:E; [|done].
      apply seeded_lookup in E as (Hj & b' & Hb' & Heq); [|done|].
      - assert (j = l).
        { eapply (NoDup_lookup (map block_hash hp)); [done| |].
          + rewrite list_lookup_fmap, Hb'. simpl. by rewrite Heq.
          + by rewrite list_lookup_fmap, Hb. }
        apply Hin0 in Hj. unfold l in *. lia.
      - apply Hvalid. intros j0 Hj0. apply Hin0 in Hj0. lia. }
    rewrite seq_S, rev_app_distr. cbn [rev app merge_blocks_scan]. fold l.
    unfold bind at 1.
    destruct (merge_blocks_step_absent l b None added
                (mkWorld hp (mkBlockchain (seeded hp done0 ∅) f lat)))
      as (f1 & E1 & F1 & _); [done..|].
    rewrite E1. clear E1. cbn [heap self _chain _files _latest_block].
    rewrite <- (seeded_snoc hp done0 l b ∅ Hb), <- Hdone.
    (* the block before [l] *)
    assert (l = S (l - 1)) as Hl by (unfold l; lia).
    rewrite Hl in Hb. destruct (Hlinked _ _ Hb) as (p & hp' & Hp & Hhp & Hprev).
    rewrite <- Hl in Hb. rewrite Hprev.
    assert (Hlook : seeded hp done1 ∅ !! Some hp'
                    = if decide (k = 0%nat) then Some (n - 1)%nat else None).
    { case_decide as Hk0.
      - apply seeded_lookup; [done| |].
        + apply Hvalid. intros j0 Hj0. apply Hin1 in Hj0. lia.
        + split; [apply Hin1; lia|]. exists p. split; [|done].
          rewrite <- Hp. f_equal. unfold l. lia.
      - destruct (seeded hp done1 ∅ !! Some hp') as [j|] eqn:E; [|done].
        apply seeded_lookup in E as (Hj & b' & Hb' & Heq); [|done|].
        + assert (j = (l - 1)%nat).
          { eapply (NoDup_lookup (map block_hash hp)); [done| |].
            + rewrite list_lookup_fmap, Hb'. simpl. by rewrite Heq.
            + rewrite list_lookup_fmap, Hp. simpl. by rewrite Hhp. }
          apply Hin1 in Hj. unfold l in *. lia.
        + apply Hvalid. intros j0 Hj0. apply Hin1 in Hj0. lia. }
    rewrite Hlook.
    destruct k as [|k'].
    + rewrite decide_True by done. simpl.
      exists f1. split; [|done]. unfold ret, done1, l.
      by rewrite ?Nat.add_0_r, ?Nat.sub_0_r.
    + rewrite decide_False by done.
      destruct (IH ltac:(lia) f1 (added ++ [l]) F1) as (f2 & E2 & F2).
      fold done1 in E2. rewrite E2. exists f2. split; [|done].
      by rewrite <- app_assoc.
Qed.

Lemma seeded_prefix_chain_of hp1 hp2 ls :
  NoDup (map block_hash (hp1 ++ hp2)) ->
  (forall j, j ∈ ls <-> (j < length hp1)%nat) ->
  seeded (hp1 ++ hp2) ls ∅ = chain_of hp1.
Proof.
  intros Hnd Hls. apply map_eq. intros k. apply option_eq. intros j.
  assert (Hnd1 : NoDup (map block_hash hp1)).
  { rewrite map_app in Hnd. by apply NoDup_app in Hnd as [? _]. }
  rewrite chain_of_lookup by done.
  rewrite seeded_lookup; [|done|].
  - rewrite Hls. split.
    + intros (Hj & b & Hb & Hk). exists b. by rewrite lookup_app_l in Hb.
    + intros (b & Hb & Hk). pose proof (lookup_lt_Some _ _ _ Hb).
      split; [done|]. exists b. by rewrite lookup_app_l.
  - apply Forall_forall. intros l Hl. apply Hls in Hl.
    apply lookup_lt_is_Some_2. rewrite length_app. lia.
Qed.

Lemma blocks_from_Forall2 ps : forall h,
  Forall2 (fun b p => file_hash b = a_file_hash p /\
                      index_all b = a_index_all p) (blocks_from ps h) ps.
Proof.
  induction ps as [|p ps IH]; intros h; simpl; constructor; [done|apply IH].
Qed.

Lemma linear_heap_linked w : linear w -> heap_linked (heap w).
Proof. intros Hlin i b. apply (lin_prev w Hlin). Qed.

(** X11: blocks that follow the latest block.  On a chain built from
    [Blockchain()] by successful calls [insert_block(Block(...))],
    [merge_blocks] of one or more blocks of a peer, each linked behind
    the one before it and the first behind the latest block of the
    chain, returns these blocks and makes the last of them the latest
    block; no file is looked at, so no block is refused.  Afterwards
    [chain] lists all the blocks, latest first, and
    [verify_integrity()] returns what it returns on a chain that
    inserted them all.  Block hashes are pairwise distinct and not
    empty. *)
Theorem merge_blocks_fast_forward (ps qs : list block_args) (wl : World)
    (tip : Block) (h : bytes) (fuel : nat) :
  insert_all ps fresh = (Ret tt, wl) ->
  heap wl !! _latest_block (self wl) = Some tip ->
  block_hash tip = Some h ->
  qs <> [] ->
  NoDup (Some [] :: map block_hash (heap wl ++ blocks_from qs h)) ->
  exists w',
    merge_blocks fuel (seq (length (heap wl)) (length qs))
      (mkWorld (heap wl ++ blocks_from qs h) (self wl))
    = (Ret (seq (length (heap wl)) (length qs)), w') /\
    heap w' = heap wl ++ blocks_from qs h /\
    last (seq (length (heap wl)) (length qs)) = Some (_latest_block (self w')) /\
    forall fuel', (length ps + length qs <= fuel')%nat ->
      chain fuel' w'
      = (Ret (rev (seq 0 (S (length ps + length qs)))), w') /\
      verify_integrity fuel' w'
      = (Ret (bool_decide (pending (ps ++ qs) = ∅)), w').
Proof.
  intros H Htip Hh Hqs Hnd.
  apply insert_all_fresh in H as (Hheap & Hlin & _).
  pose proof Hnd as [Hnil Hnd']%NoDup_cons.
  set (hp := heap wl ++ blocks_from qs h) in *.
  set (n := length (heap wl)). set (K := length qs).
  assert (Hn : n = S (length ps))
    by (unfold n; rewrite Hheap; simpl; by rewrite blocks_from_length).
  assert (HK : (1 <= K)%nat) by (unfold K; destruct qs; [done|simpl; lia]).
  assert (Hlen : length hp = (n + K)%nat)
    by (unfold hp; by rewrite length_app, blocks_from_length).
  pose proof (lin_latest wl Hlin) as Hlat. fold n in Hlat.
  assert (Hlast : last (heap wl) = Some tip).
  { rewrite last_lookup. replace (pred (length (heap wl)))
      with (_latest_block (self wl)) by (fold n; lia). done. }
  assert (Hlinked : heap_linked hp).
  { apply (heap_linked_blocks_from qs (heap wl) tip h); [|done..].
    by apply linear_heap_linked. }
  assert (Hc0 : _chain (self wl)
                = seeded hp (rev (seq 0 n) ++ rev (seq (n + K) (K - K))) ∅).
  { rewrite (linear_chain_of wl Hlin).
    - symmetry. apply seeded_prefix_chain_of; [done|].
      intros j. rewrite Nat.sub_diag, app_nil_r, elem_of_rev_seq. fold n. lia.
    - unfold hp in Hnd'. rewrite map_app in Hnd'.
      by apply NoDup_app in Hnd' as [? _]. }
  assert (Hc1 : seeded hp (rev (seq 0 n) ++ rev (seq n K)) ∅ = chain_of hp).
  { rewrite <- (seeded_chain_of hp Hnd').
    apply map_eq. intros k. apply option_eq. intros j.
    assert (Hv : forall ls, (forall l, l ∈ ls -> (l < n + K)%nat) ->
                   Forall (fun l => is_Some (hp !! l)) ls).
    { intros ls Hls. apply Forall_forall. intros l Hl.
      apply lookup_lt_is_Some_2. rewrite Hlen. by apply Hls. }
    rewrite !seeded_lookup; try done.
    - rewrite elem_of_app, !elem_of_rev_seq, Hlen. split.
      + intros [[?|?] ?]; (split; [lia|done]).
      + intros [? ?]. split; [lia|done].
    - apply Hv. intros l. rewrite elem_of_rev_seq, Hlen. lia.
    - apply Hv. intros l. rewrite elem_of_app, !elem_of_rev_seq. lia. }
  destruct (merge_blocks_scan_ff hp n K (_latest_block (self wl))
              Hlinked Hnd' ltac:(lia) Hlen K ltac:(lia)
              (_files (self wl)) [] (lin_files wl Hlin))
    as (f' & Hscan & Hok').
  rewrite <- Hc0, Hc1 in Hscan.
  assert (Hw : mkWorld hp (mkBlockchain (_chain (self wl)) (_files (self wl))
                             (_latest_block (self wl)))
               = mkWorld hp (self wl)) by (by destruct (self wl)).
  rewrite Hw in Hscan.
  set (w' := mkWorld hp (mkBlockchain (chain_of hp) f' (n + K - 1)%nat)).
  assert (Htip' : hp !! (n - 1)%nat = Some tip).
  { unfold hp. rewrite lookup_app_l by (fold n; lia).
    by replace (n - 1)%nat with (_latest_block (self wl)) by lia. }
  assert (Hlastnew : last (seq n K) = Some (n + K - 1)%nat).
  { destruct K as [|K']; [lia|]. rewrite seq_S, last_snoc. f_equal. lia. }
  assert (Hlin' : linear w').
  { split; unfold w'; cbn [heap self _chain _files _latest_block].
    - lia.
    - unfold hp. rewrite lookup_app_l by (fold n; lia).
      apply (lin_genesis wl Hlin).
    - apply Hlinked.
    - intros i b Hb. exists i, b. split; [|done].
      apply chain_of_lookup; [done|]. by exists b.
    - intros k j Hk. by apply chain_of_lookup in Hk.
    - done. }
  exists w'. split; [|split; [done|split; [done|]]].
  - unfold merge_blocks, bind at 1. fold n K. rewrite Hscan.
    destruct K as [|K']; [lia|].
    cbn [app]. rewrite rev_involutive.
    unfold bind at 1, get_block. cbn [heap]. rewrite Htip'.
    unfold bind at 1, get_self.
    unfold bind at 1. cbn [heap self _latest_block].
    replace (_latest_block (self wl)) with (n - 1)%nat by lia.
    rewrite Htip', decide_True by done.
    rewrite Hlastnew. unfold bind, put_latest_block, ret. done.
  - intros fuel' Hfuel.
    assert (Hnd2 : NoDup (Some [] :: map block_hash (heap w'))) by done.
    split.
    + destruct (lookup_lt_is_Some_2 hp (n + K - 1)) as [b Hb]; [lia|].
      unfold chain, bind, get_self. cbn [self _latest_block w'].
      rewrite (chain_loop_linear w' Hlin' Hnd2) with (b := b);
        [|lia|done].
      replace (S (length ps + K)) with (S (n + K - 1)) by lia.
      by rewrite (seq_S (n + K - 1)), rev_app_distr.
    + rewrite (verify_integrity_linear w' fuel' Hlin' Hnd2)
        by (cbn [self _latest_block w']; fold K in Hfuel; lia).
      f_equal. f_equal. apply bool_decide_ext.
      cbn [heap w']. unfold hp. rewrite Hheap. cbn [app foldr].
      rewrite (foldr_count_block_pending _ (ps ++ qs)).
      * change (count_block initial_block (pending (ps ++ qs)))
          with (pending (ps ++ qs)).
        apply map_size_empty_iff.
      * apply Forall2_app; apply blocks_from_Forall2.
Qed.

End Filechain.

(** ** The program run with SHA-256 *)


Definition sha : bytes -> bytes := SHA256.digest.

Example sha_empty :
  SHA256.digest []
  = [xe3; xb0; xc4; x42; x98; xfc; x1c; x14; x9a; xfb; xf4; xc8; x99; x6f;
     xb9; x24; x27; xae; x41; xe4; x64; x9b; x93; x4c; xa4; x95; x99; x1b;
     x78; x52; xb8; x55].
Proof. vm_compute. reflexivity. Qed.

Example sha_abc :
  SHA256.digest [x61; x62; x63]
  = [xba; x78; x16; xbf; x8f; x01; xcf; xea; x41; x41; x40; xde; x5d; xae;
     x22; x23; xb0; x03; x61; xa3; x96; x17; x7a; x9c; xb4; x10; xff; x61;
     xf2; x00; x15; xad].
Proof. vm_compute. reflexivity. Qed.

(** The world after [Blockchain()]. *)
Definition world0 : World := fresh sha.

(** Byte strings of the scenarios: [b"F"], [b"G"], [b"hi"], ... *)
Definition b_F : bytes := [x46].
Definition b_B : bytes := [x42].
Definition b_C : bytes := [x43].
Definition b_D : bytes := [x44].
Definition b_E : bytes := [x45].
Definition b_X : bytes := [x58].
Definition b_Y : bytes := [x59].
Definition b_Z : bytes := [x5a].
Definition b_hi : bytes := [x68; x69].

(** The [index] of each block of a list. *)
Fixpoint indices (ls : list loc) : M (list Z) :=
  match ls with
  | [] => ret []
  | l :: ls' =>
      let! b := get_block l in
      let! r := indices ls' in
      ret (index b :: r)
  end.

(** *** Scenarios of the test suite *)

(** One block of one file: the file is complete, it is returned, the
    chain is whole and has two blocks. *)
Example single_chunk_round_trip :
  fst ((let! a := insert_new sha b_F 1 b_hi 0 in
        let! c := contains_file b_F in
        let! g := get_file_blocks b_F in
        let! v := verify_integrity 10 in
        let! n := len in
        ret (a, c, g, v, n)) world0)
  = Ret (1%nat, true, [1%nat], true, 2).
Proof. vm_compute. reflexivity. Qed.

(** A fourth content hash for a file of three blocks is refused. *)
Example invalid_file_block_splitting :
  fst ((let! _ := insert_new sha b_F 3 b_X 0 in
        let! _ := insert_new sha b_F 3 b_Y 0 in
        let! _ := insert_new sha b_F 3 b_Z 0 in
        insert_new sha b_F 3 b_X 1) world0)
  = Raise FileBlockSplitChangedException.
Proof. vm_compute. reflexivity. Qed.

(** One of two blocks of a file: the chain is not whole. *)
Example verify_integrity_missing_file_blocks :
  fst ((let! _ := insert_new sha b_F 2 b_hi 0 in verify_integrity 10) world0)
  = Ret false.
Proof. vm_compute. reflexivity. Qed.

(** A run is determined by its outcome and the world it leaves. *)
Lemma run_eq {A} (r : outcome A * World) (o : outcome A) :
  fst r = o -> r = (o, snd r).
Proof. intros <-. by destruct r. Qed.

(** *** [verify_integrity] on chains built by [insert_block] *)


(** A file of two blocks and a file of one block. *)
Definition two_files : list block_args :=
  [mkArgs b_F 2 b_X 0; mkArgs b_F 2 b_Y 1; mkArgs b_B 1 b_B 0].

Definition two_files_world : World := snd (insert_all sha two_files world0).


Example two_files_whole :
  fst (verify_integrity 3 two_files_world) = Ret true.
Proof. vm_compute. reflexivity. Qed.

(** The count is of blocks, not of indices: two copies of the first of
    two blocks pass, though the file is not complete; a complete file
    and a copy of one of its blocks do not. *)
Example verify_integrity_counts_blocks :
  fst ((let! _ := insert_new sha b_F 2 b_X 0 in
        let! _ := insert_new sha b_F 2 b_X 0 in
        let! v := verify_integrity 10 in
        let! c := contains_file b_F in
        ret (v, c)) world0)
  = Ret (true, false) /\
  fst ((let! _ := insert_new sha b_F 2 b_X 0 in
        let! _ := insert_new sha b_F 2 b_Y 1 in
        let! _ := insert_new sha b_F 2 b_X 0 in
        let! v := verify_integrity 10 in
        let! c := contains_file b_F in
        ret (v, c)) world0)
  = Ret (false, true).
Proof. split; vm_compute; reflexivity. Qed.

(** *** [merge_blocks] with nothing to add *)

Lemma merge_blocks_all_present_witness :
  Forall (present world0) [INITIAL_BLOCK] /\
  merge_blocks sha 5 [INITIAL_BLOCK] world0 = (Raise AttributeError, world0).
Proof.
  assert (H : Forall (present world0) [INITIAL_BLOCK]).
  { constructor; [|constructor].
    exists (initial_block sha). split; [vm_compute; reflexivity|].
    exists INITIAL_BLOCK. vm_compute. reflexivity. }
  split; [exact H|].
  exact (merge_blocks_all_present sha world0 5 [INITIAL_BLOCK] H).
Defined.

Example merge_blocks_empty :
  merge_blocks sha 5 [] world0 = (Raise AttributeError, world0).
Proof. reflexivity. Qed.

(** *** The order of [chain] *)

Definition one_file : list block_args := [mkArgs b_F 1 b_hi 0].

Definition one_file_world : World := snd (insert_all sha one_file world0).

Lemma one_file_run :
  insert_all sha one_file world0 = (Ret tt, one_file_world).
Proof.
  apply (run_eq (insert_all sha one_file world0) (Ret tt)).
  vm_compute. reflexivity.
Qed.

Lemma chain_newest_first_witness :
  insert_all sha one_file world0 = (Ret tt, one_file_world) /\
  NoDup (Some [] :: map block_hash (heap one_file_world)) /\
  (1 <= 5)%nat /\
  chain 5 one_file_world = (Ret [1%nat; 0%nat], one_file_world) /\
  _latest_block (self one_file_world) = 1%nat /\
  heap one_file_world !! 0%nat = Some (initial_block sha).
Proof.
  assert (H2 : NoDup (Some [] :: map block_hash (heap one_file_world)))
    by (apply (bool_decide_unpack _); vm_compute; exact I).
  assert (H3 : (1 <= 5)%nat) by lia.
  split; [exact one_file_run|]. split; [exact H2|]. split; [exact H3|].
  exact (chain_newest_first sha one_file one_file_world 5 one_file_run H2 H3).
Defined.

(** *** The order of [get_file_blocks] *)

(** C5: the three blocks of a file inserted with [index] 2, 1, 0: the
    file is complete, and [get_file_blocks] returns the blocks with
    [index] 0, 2, 1 in that order. *)
Theorem get_file_blocks_unsorted :
  fst ((let! _ := insert_new sha b_F 3 b_Z 2 in
        let! _ := insert_new sha b_F 3 b_Y 1 in
        let! _ := insert_new sha b_F 3 b_X 0 in
        let! c := contains_file b_F in
        let! g := get_file_blocks b_F in
        let! ix := indices g in
        ret (c, g, ix)) world0)
  = Ret (true, [3%nat; 1%nat; 2%nat], [0; 2; 1]).
Proof. vm_compute. reflexivity. Qed.

(** *** [FileBlockSplitChangedException] *)

(** Three content hashes are recorded for a file of three blocks, and a
    block with a fourth one has been built at location 4. *)
Definition split_world : World :=
  snd ((let! _ := insert_new sha b_F 3 b_X 0 in
        let! _ := insert_new sha b_F 3 b_Y 0 in
        let! _ := insert_new sha b_F 3 b_Z 0 in
        new_Block sha b_F 3 b_X 1 None) world0).

Definition split_block : Block :=
  mkBlock b_F 3 b_X 1 (sha (payload b_F 3 b_X 1)) None None.


(** For the file of the initial block no [index_all] is recorded after
    [Blockchain()]: a block of that file with a new content hash meets
    [TypeError], not [FileBlockSplitChangedException]. *)
Example insert_block_genesis_file :
  fst (insert_new sha [] 1 b_X 0 world0) = Raise TypeError.
Proof. vm_compute. reflexivity. Qed.

(** *** The recorded [index_all] *)

(** Every two blocks of [blocks_by_hash] with the same file hash, one
    that [files] has, have the same [index_all]. *)
Definition same_index_all (w : World) : Prop :=
  forall h1 h2 l1 l2 b1 b2,
    _chain (self w) !! h1 = Some l1 -> heap w !! l1 = Some b1 ->
    _chain (self w) !! h2 = Some l2 -> heap w !! l2 = Some b2 ->
    file_hash b1 = file_hash b2 ->
    is_Some (_files (self w) !! file_hash b1) ->
    index_all b1 = index_all b2.

(** A block of a file of three blocks, then a block of the same file
    said to have two. *)
Definition resplit : M loc :=
  let! _ := insert_new sha b_F 3 b_X 0 in
  insert_new sha b_F 2 b_Y 0.

Definition resplit_first : Block :=
  linked sha (mkBlock b_F 3 b_X 0 (sha (payload b_F 3 b_X 0)) None None)
    (sha (payload [] 1 [] 0)).

Definition resplit_second : Block :=
  linked sha (mkBlock b_F 2 b_Y 0 (sha (payload b_F 2 b_Y 0)) None None)
    (sha (payload b_F 3 b_X 0 ++ sha (payload [] 1 [] 0))).

(** C7, counterexample: both calls of [insert_block] succeed, and
    [blocks_by_hash] then holds two blocks of one file with different
    [index_all]. *)
Lemma insert_block_accepts_other_index_all :
  fst (resplit world0) = Ret 2%nat /\ ~ same_index_all (snd (resplit world0)).
Proof.
  split; [vm_compute; reflexivity|].
  intros H.
  assert (E1 : heap (snd (resplit world0)) !! 1%nat = Some resplit_first)
    by (vm_compute; reflexivity).
  assert (E2 : heap (snd (resplit world0)) !! 2%nat = Some resplit_second)
    by (vm_compute; reflexivity).
  assert (C1 : _chain (self (snd (resplit world0))) !! block_hash resplit_first
               = Some 1%nat) by (vm_compute; reflexivity).
  assert (C2 : _chain (self (snd (resplit world0))) !! block_hash resplit_second
               = Some 2%nat) by (vm_compute; reflexivity).
  assert (F : is_Some (_files (self (snd (resplit world0)))
                         !! file_hash resplit_first)).
  { apply (bool_decide_unpack _). vm_compute. exact I. }
  specialize (H _ _ _ _ _ _ C1 E1 C2 E2 eq_refl F).
  discriminate H.
Qed.

(** The world in which the second block has been built, at location 2. *)
Definition resplit_world : World :=
  snd ((let! _ := insert_new sha b_F 3 b_X 0 in
        new_Block sha b_F 2 b_Y 0 None) world0).

Definition resplit_block : Block :=
  mkBlock b_F 2 b_Y 0 (sha (payload b_F 2 b_Y 0)) None None.

Lemma insert_block_keeps_index_all_witness :
  heap resplit_world !! 2%nat = Some resplit_block /\
  insert_block sha 2 resplit_world
  = (Ret tt, snd (insert_block sha 2 resplit_world)) /\
  (exists nb',
     heap (snd (insert_block sha 2 resplit_world)) !! 2%nat = Some nb' /\
     _chain (self (snd (insert_block sha 2 resplit_world))) !! block_hash nb'
     = Some 2%nat /\
     file_hash nb' = file_hash resplit_block /\
     index_all nb' = index_all resplit_block) /\
  od_get KIndexAll
    (default [] (_files (self (snd (insert_block sha 2 resplit_world)))
                   !! file_hash resplit_block))
  = Some (VInt 3).
Proof.
  assert (H1 : heap resplit_world !! 2%nat = Some resplit_block)
    by (vm_compute; reflexivity).
  assert (H0 : fst (insert_block sha 2 resplit_world) = Ret tt)
    by (vm_compute; reflexivity).
  assert (H2 : insert_block sha 2 resplit_world
               = (Ret tt, snd (insert_block sha 2 resplit_world)))
    by exact (run_eq (insert_block sha 2 resplit_world) (Ret tt) H0).
  assert (H5 : match _files (self resplit_world) !! file_hash resplit_block with
               | Some ((_ :: _) as d) => od_get KIndexAll d
               | _ => Some (VInt (index_all resplit_block))
               end = Some (VInt 3))
    by (vm_compute; reflexivity).
  split; [exact H1|]. split; [exact H2|].
  split.
  - exact (proj1 (insert_block_keeps_index_all sha resplit_world _ 2
                    resplit_block H1 H2)).
  - exact (eq_trans
             (proj2 (insert_block_keeps_index_all sha resplit_world _ 2
                       resplit_block H1 H2)) H5).
Defined.

(** *** Inserting the latest block again *)

Definition hi_block : Block :=
  linked sha (mkBlock b_F 1 b_hi 0 (sha (payload b_F 1 b_hi 0)) None None)
    (sha (payload [] 1 [] 0)).

Definition hi_hash : bytes :=
  sha (payload b_F 1 b_hi 0 ++ sha (payload [] 1 [] 0)).

Lemma insert_block_twice_diverges_witness :
  _latest_block (self one_file_world) = 1%nat /\
  heap one_file_world !! 1%nat = Some hi_block /\
  block_hash hi_block = Some hi_hash /\
  hi_hash <> [] /\
  _chain (self one_file_world) !! Some hi_hash = Some 1%nat /\
  insert_block sha 1 one_file_world
  = (Ret tt, snd (insert_block sha 1 one_file_world)) /\
  forall fuel,
    fst (verify_integrity fuel (snd (insert_block sha 1 one_file_world)))
    = OutOfFuel.
Proof.
  assert (H1 : _latest_block (self one_file_world) = 1%nat)
    by (vm_compute; reflexivity).
  assert (H2 : heap one_file_world !! 1%nat = Some hi_block)
    by (vm_compute; reflexivity).
  assert (H3 : block_hash hi_block = Some hi_hash)
    by (vm_compute; reflexivity).
  assert (H4 : hi_hash <> []) by (vm_compute; discriminate).
  assert (H5 : _chain (self one_file_world) !! Some hi_hash = Some 1%nat)
    by (vm_compute; reflexivity).
  assert (H0 : fst (insert_block sha 1 one_file_world) = Ret tt)
    by (vm_compute; reflexivity).
  assert (H6 : insert_block sha 1 one_file_world
               = (Ret tt, snd (insert_block sha 1 one_file_world)))
    by exact (run_eq (insert_block sha 1 one_file_world) (Ret tt) H0).
  split; [exact H1|]. split; [exact H2|]. split; [exact H3|].
  split; [exact H4|]. split; [exact H5|]. split; [exact H6|].
  exact (insert_block_twice_diverges sha one_file_world _ 1 hi_block hi_hash
           H1 H2 H3 H4 H5 H6).
Defined.

(** Before and after the second insertion, [contains_file] and
    [get_file_blocks] answer the same. *)
Example insert_block_twice_queries :
  fst ((let! c := contains_file b_F in
        let! g := get_file_blocks b_F in
        ret (c, g)) one_file_world)
  = Ret (true, [1%nat]) /\
  fst ((let! _ := insert_block sha 1 in
        let! c := contains_file b_F in
        let! g := get_file_blocks b_F in
        ret (c, g)) one_file_world)
  = Ret (true, [1%nat]).
Proof. split; vm_compute; reflexivity. Qed.

(** *** [merge_blocks] on a fork *)

(** The block of hash location [l]. *)
Definition hash_of (l : loc) : M (option bytes) :=
  let! b := get_block l in ret (block_hash b).

(** The scenario: [B] and [C] are inserted, the peer's [D] follows [B]
    and its [E] follows [D]; [D] and [E] are merged, and the chain is
    verified. *)
Definition fork (pB pC pD pE : block_args) : M (list loc * bool) :=
  let! b := insert_new sha (a_file_hash pB) (a_index_all pB) (a_chunk pB)
              (a_index pB) in
  let! _ := insert_new sha (a_file_hash pC) (a_index_all pC) (a_chunk pC)
              (a_index pC) in
  let! hB := hash_of b in
  let! d := new_Block sha (a_file_hash pD) (a_index_all pD) (a_chunk pD)
              (a_index pD) hB in
  let! hD := hash_of d in
  let! e := new_Block sha (a_file_hash pE) (a_index_all pE) (a_chunk pE)
              (a_index pE) hD in
  let! added := merge_blocks sha 5 [d; e] in
  let! v := verify_integrity 10 in
  ret (added, v).


(** The blocks of [test_merge_blocks_conflict_1]. *)
Definition args_B : block_args := mkArgs b_B 1 b_B 0.
Definition args_C : block_args := mkArgs b_C 1 b_C 0.
Definition args_D : block_args := mkArgs b_D 1 b_D 0.
Definition args_E : block_args := mkArgs b_E 1 b_E 0.

Example merge_blocks_conflict_1 :
  fst (fork args_B args_C args_D args_E world0)
  = Ret ([3%nat; 4%nat; 2%nat], true).
Proof. vm_compute. reflexivity. Qed.

Definition local_world : World :=
  snd (insert_all sha [args_B; args_C] world0).


(** ** The further properties on concrete chains *)

Lemma two_files_run :
  insert_all sha two_files world0 = (Ret tt, two_files_world).
Proof.
  apply (run_eq (insert_all sha two_files world0) (Ret tt)).
  vm_compute. reflexivity.
Qed.

Lemma two_files_NoDup :
  NoDup (Some [] :: map block_hash (heap two_files_world)).
Proof. apply (bool_decide_unpack _). vm_compute. exact I. Qed.

Lemma b_F_nonempty : b_F <> [].
Proof. discriminate. Qed.

(** The result [H] speaks of, evaluated to [v]. *)
Ltac evaluated H v :=
  match type of H with
  | _ = (Ret ?m, _) =>
      let Hm := fresh "Hm" in
      let r := fresh "r" in
      assert (Hm : m = v); [vm_compute; reflexivity|];
      revert H Hm; generalize m; intros r H Hm; rewrite <- Hm; exact H
  end.

(** [contains_file]: the file of two blocks is complete. *)
Lemma contains_file_inserted_witness :
  insert_all sha two_files world0 = (Ret tt, two_files_world) /\
  b_F <> [] /\
  contains_file b_F two_files_world = (Ret true, two_files_world).
Proof.
  split; [exact two_files_run|]. split; [exact b_F_nonempty|].
  pose proof (contains_file_inserted sha two_files two_files_world b_F
                two_files_run b_F_nonempty) as H.
  evaluated H (true).
Defined.

(** [get_blocks_by_content]: of the two blocks with the chunk X of the
    file F, the first and the third inserted, both are returned. *)
Definition twice : list block_args :=
  [mkArgs b_F 2 b_X 0; mkArgs b_F 2 b_Y 1; mkArgs b_F 2 b_X 0].

Definition twice_world : World := snd (insert_all sha twice world0).

Lemma twice_run : insert_all sha twice world0 = (Ret tt, twice_world).
Proof.
  apply (run_eq (insert_all sha twice world0) (Ret tt)).
  vm_compute. reflexivity.
Qed.

Definition twice_block : Block :=
  linked sha (unlinked sha (mkArgs b_F 2 b_X 0)) (genesis_hash sha).

Lemma get_blocks_by_content_inserted_witness :
  insert_all sha twice world0 = (Ret tt, twice_world) /\
  NoDup (map block_hash (heap twice_world)) /\
  heap twice_world !! 1%nat = Some twice_block /\
  get_blocks_by_content 1 twice_world = (Ret [1%nat; 3%nat], twice_world).
Proof.
  assert (H2 : NoDup (map block_hash (heap twice_world)))
    by (apply (bool_decide_unpack _); vm_compute; exact I).
  assert (H3 : heap twice_world !! 1%nat = Some twice_block)
    by (vm_compute; reflexivity).
  split; [exact twice_run|]. split; [exact H2|]. split; [exact H3|].
  pose proof (proj1 (get_blocks_by_content_inserted sha twice twice_world
                       1%nat twice_block twice_run H2 H3)) as H.
  evaluated H ([1%nat; 3%nat]).
Defined.

(** [get_file_blocks]: the two blocks of the file F. *)
Lemma get_file_blocks_inserted_witness :
  insert_all sha two_files world0 = (Ret tt, two_files_world) /\
  NoDup (map block_hash (heap two_files_world)) /\
  b_F <> [] /\
  exists ls,
    Forall2 (fun f l => heap two_files_world !! l = Some f)
      (first_seen b_F (blocks_from sha two_files (genesis_hash sha))) ls /\
    get_file_blocks b_F two_files_world
    = (Ret (foldl place []
              (zip (first_seen b_F
                      (blocks_from sha two_files (genesis_hash sha))) ls)),
       two_files_world).
Proof.
  assert (H2 : NoDup (map block_hash (heap two_files_world)))
    by (apply (NoDup_cons_1_2 _ _ two_files_NoDup)).
  split; [exact two_files_run|]. split; [exact H2|].
  split; [exact b_F_nonempty|].
  exact (get_file_blocks_inserted sha two_files two_files_world b_F
           two_files_run H2 b_F_nonempty).
Defined.

Lemma get_file_blocks_ascending_witness :
  insert_all sha two_files world0 = (Ret tt, two_files_world) /\
  NoDup (map block_hash (heap two_files_world)) /\
  b_F <> [] /\
  ascending (map index
               (first_seen b_F
                  (blocks_from sha two_files (genesis_hash sha)))) /\
  exists ls,
    get_file_blocks b_F two_files_world = (Ret ls, two_files_world) /\
    Forall2 (fun l f => heap two_files_world !! l = Some f) ls
      (first_seen b_F (blocks_from sha two_files (genesis_hash sha))).
Proof.
  assert (H2 : NoDup (map block_hash (heap two_files_world)))
    by (apply (NoDup_cons_1_2 _ _ two_files_NoDup)).
  assert (H4 : ascending
                 (map index
                    (first_seen b_F
                       (blocks_from sha two_files (genesis_hash sha))))).
  { assert (E : map index
                  (first_seen b_F
                     (blocks_from sha two_files (genesis_hash sha)))
                = [0; 1]) by (vm_compute; reflexivity).
    rewrite E. apply ascending_two. lia. }
  split; [exact two_files_run|]. split; [exact H2|].
  split; [exact b_F_nonempty|]. split; [exact H4|].
  exact (get_file_blocks_ascending sha two_files two_files_world b_F
           two_files_run H2 b_F_nonempty H4).
Defined.

Example get_file_blocks_two_files :
  fst (get_file_blocks b_F two_files_world) = Ret [1%nat; 2%nat].
Proof. vm_compute. reflexivity. Qed.

(** A file of the two chunks X and Y, sent to the chain that has the
    file F of one block. *)
Lemma b_B_nonempty : b_B <> [].
Proof. discriminate. Qed.

Lemma one_file_other : Forall (fun p => a_file_hash p <> b_B) one_file.
Proof. repeat constructor. discriminate. Qed.

Lemma file_blocks_complete_witness :
  insert_all sha one_file world0 = (Ret tt, one_file_world) /\
  b_B <> [] /\
  [b_X; b_Y] <> [] /\
  Forall (fun p => a_file_hash p <> b_B) one_file /\
  exists w,
    insert_all sha (file_blocks b_B [b_X; b_Y]) one_file_world = (Ret tt, w) /\
    contains_file b_B w = (Ret true, w).
Proof.
  assert (H3 : [b_X; b_Y] <> []) by discriminate.
  split; [exact one_file_run|]. split; [exact b_B_nonempty|].
  split; [exact H3|]. split; [exact one_file_other|].
  destruct (file_blocks_complete sha one_file one_file_world b_B [b_X; b_Y]
              one_file_run b_B_nonempty H3 one_file_other) as (w & Hw & Hc).
  exists w. split; [exact Hw|].
  evaluated Hc (true).
Defined.

Lemma file_blocks_round_trip_witness :
  insert_all sha one_file world0 = (Ret tt, one_file_world) /\
  b_B <> [] /\
  Forall (fun p => a_file_hash p <> b_B) one_file /\
  NoDup (map (fun p => content_hash (unlinked sha p))
           (file_blocks b_B [b_X; b_Y])) /\
  NoDup (map block_hash
           (initial_block sha
            :: blocks_from sha (one_file ++ file_blocks b_B [b_X; b_Y])
                 (genesis_hash sha))) /\
  exists w ls,
    insert_all sha (file_blocks b_B [b_X; b_Y]) one_file_world = (Ret tt, w) /\
    get_file_blocks b_B w = (Ret ls, w) /\
    Forall2 (fun l ck => exists b, heap w !! l = Some b /\ chunk b = ck)
      ls [b_X; b_Y].
Proof.
  assert (H4 : NoDup (map (fun p => content_hash (unlinked sha p))
                        (file_blocks b_B [b_X; b_Y])))
    by (apply (bool_decide_unpack _); vm_compute; exact I).
  assert (H5 : NoDup (map block_hash
                        (initial_block sha
                         :: blocks_from sha
                              (one_file ++ file_blocks b_B [b_X; b_Y])
                              (genesis_hash sha))))
    by (apply (bool_decide_unpack _); vm_compute; exact I).
  split; [exact one_file_run|]. split; [exact b_B_nonempty|].
  split; [exact one_file_other|]. split; [exact H4|]. split; [exact H5|].
  exact (file_blocks_round_trip sha one_file one_file_world b_B [b_X; b_Y]
           one_file_run b_B_nonempty one_file_other H4 H5).
Defined.


(** The same file on the chain of [Blockchain()], evaluated: both blocks
    are inserted, the file is not complete, and one block is returned
    for it. *)
Example zero_padded_file :
  fst ((let! _ := insert_all sha (file_blocks b_B [b_X ++ [x00]; b_X]) in
        let! c := contains_file b_B in
        let! g := get_file_blocks b_B in
        let! n := len in
        ret (c, g, n)) world0)
  = Ret (false, [1%nat], 3).
Proof. vm_compute. reflexivity. Qed.

(** [verify_blocks_integrity] on the two blocks of the file F. *)
Lemma verify_blocks_integrity_result_witness :
  Forall2 (fun l b => heap two_files_world !! l = Some b) [1%nat; 2%nat]
    (take 2 (blocks_from sha two_files (genesis_hash sha))) /\
  verify_blocks_integrity [1%nat; 2%nat] two_files_world
  = (Ret (Some true), two_files_world).
Proof.
  assert (H1 : Forall2 (fun l b => heap two_files_world !! l = Some b)
                 [1%nat; 2%nat]
                 (take 2 (blocks_from sha two_files (genesis_hash sha)))).
  { cbn [take blocks_from two_files].
    refine (List.Forall2_cons _ _ _ _); [vm_compute; reflexivity|].
    refine (List.Forall2_cons _ _ _ _); [vm_compute; reflexivity|].
    exact (List.Forall2_nil _). }
  split; [exact H1|].
  pose proof (verify_blocks_integrity_result two_files_world [1%nat; 2%nat]
                _ H1) as H.
  evaluated H (Some true).
Defined.

(** The three results of [verify_blocks_integrity]: the blocks in the
    wrong order, a block whose predecessor is not in the chain, and no
    block. *)
Example verify_blocks_integrity_results :
  fst (verify_blocks_integrity [2%nat; 1%nat] two_files_world)
  = Ret (Some false) /\
  fst ((let! d := new_Block sha b_D 1 b_D 0 (Some b_X) in
        verify_blocks_integrity [d]) two_files_world)
  = Ret None /\
  fst (verify_blocks_integrity [] two_files_world) = Ret None.
Proof. repeat split; vm_compute; reflexivity. Qed.

(** [len], [latest_block] and [get_block_by_hash]. *)
Lemma len_inserted_witness :
  insert_all sha two_files world0 = (Ret tt, two_files_world) /\
  NoDup (map block_hash (heap two_files_world)) /\
  len two_files_world = (Ret 4, two_files_world) /\
  latest_block two_files_world = (Ret 3%nat, two_files_world).
Proof.
  assert (H2 : NoDup (map block_hash (heap two_files_world)))
    by (apply (NoDup_cons_1_2 _ _ two_files_NoDup)).
  split; [exact two_files_run|]. split; [exact H2|].
  destruct (len_inserted sha two_files two_files_world two_files_run H2)
    as (L1 & L2 & _).
  split; [exact L1|exact L2].
Defined.

(** [Blockchain(chain)] on the list of the chain of two files. *)
Lemma Blockchain_init_chain_witness :
  insert_all sha two_files world0 = (Ret tt, two_files_world) /\
  NoDup (Some [] :: map block_hash (heap two_files_world)) /\
  (length two_files <= 3)%nat /\
  exists c r w2,
    chain 3 two_files_world = (Ret c, two_files_world) /\
    verify_integrity 3 two_files_world = (Ret r, two_files_world) /\
    Blockchain_init (Some c) (heap two_files_world) = (Ret tt, w2) /\
    heap w2 = heap two_files_world /\
    _chain (self w2) = _chain (self two_files_world) /\
    _latest_block (self w2) = _latest_block (self two_files_world) /\
    chain 3 w2 = (Ret c, w2) /\
    verify_integrity 3 w2 = (Ret r, w2).
Proof.
  assert (H3 : (length two_files <= 3)%nat) by (simpl; lia).
  split; [exact two_files_run|]. split; [exact two_files_NoDup|].
  split; [exact H3|].
  exact (Blockchain_init_chain sha two_files two_files_world 3
           two_files_run two_files_NoDup H3).
Defined.

Example Blockchain_init_two_files :
  fst ((let! c := chain 3 in
        fun w =>
          let w2 := snd (Blockchain_init (Some c) (heap w)) in
          ((let! c2 := chain 3 in
            let! v := verify_integrity 3 in
            let! f := contains_file [] in
            ret (c, c2, v, f)) w2)) two_files_world)
  = Ret ([3%nat; 2%nat; 1%nat; 0%nat], [3%nat; 2%nat; 1%nat; 0%nat],
         true, true).
Proof. vm_compute. reflexivity. Qed.

(** [merge_blocks] with the blocks D and E, which follow the block of
    the chain of one file. *)
Definition one_file_tip : Block :=
  linked sha (unlinked sha (mkArgs b_F 1 b_hi 0)) (genesis_hash sha).

Definition one_file_hash : bytes :=
  hash_after sha (mkArgs b_F 1 b_hi 0) (genesis_hash sha).

Lemma merge_blocks_fast_forward_witness :
  insert_all sha one_file world0 = (Ret tt, one_file_world) /\
  heap one_file_world !! _latest_block (self one_file_world)
  = Some one_file_tip /\
  block_hash one_file_tip = Some one_file_hash /\
  [args_D; args_E] <> [] /\
  NoDup (Some []
         :: map block_hash
              (heap one_file_world
               ++ blocks_from sha [args_D; args_E] one_file_hash)) /\
  exists w',
    merge_blocks sha 5 [2%nat; 3%nat]
      (mkWorld (heap one_file_world
                ++ blocks_from sha [args_D; args_E] one_file_hash)
         (self one_file_world))
    = (Ret [2%nat; 3%nat], w') /\
    _latest_block (self w') = 3%nat /\
    chain 5 w' = (Ret [3%nat; 2%nat; 1%nat; 0%nat], w') /\
    verify_integrity 5 w' = (Ret true, w').
Proof.
  assert (H2 : heap one_file_world !! _latest_block (self one_file_world)
               = Some one_file_tip) by (vm_compute; reflexivity).
  assert (H3 : block_hash one_file_tip = Some one_file_hash)
    by (vm_compute; reflexivity).
  assert (H4 : [args_D; args_E] <> []) by discriminate.
  assert (H5 : NoDup (Some []
                      :: map block_hash
                           (heap one_file_world
                            ++ blocks_from sha [args_D; args_E]
                                 one_file_hash)))
    by (apply (bool_decide_unpack _); vm_compute; exact I).
  split; [exact one_file_run|]. split; [exact H2|]. split; [exact H3|].
  split; [exact H4|]. split; [exact H5|].
  destruct (merge_blocks_fast_forward sha one_file [args_D; args_E]
              one_file_world one_file_tip one_file_hash 5
              one_file_run H2 H3 H4 H5) as (w' & M1 & M2 & M3 & M4).
  assert (Hlen : length (heap one_file_world) = 2%nat)
    by (vm_compute; reflexivity).
  rewrite Hlen in M1, M3. cbn [length seq last] in M1, M3.
  destruct (M4 5%nat ltac:(simpl; lia)) as [M5 M6].
  assert (Hp : bool_decide (pending (one_file ++ [args_D; args_E]) = ∅) = true)
    by (vm_compute; reflexivity).
  rewrite Hp in M6.
  exists w'. split; [exact M1|]. split; [by injection M3|].
  split; [exact M5|exact M6].
Defined.
